(** * mdnfo: the document index and navigation engine of [main.go]

    A shallow embedding of the link and heading helpers, the index builder,
    the scroll animation and the link navigation of the viewer, followed by
    the properties of the specification that they satisfy or fail.

    Conventions.
    - A Go [string] is a sequence of bytes: [gostring := list ascii].
    - A Go [int] is a 64-bit two's complement integer, written as a [Z] with
      the wrap-around of [+] and [-] made explicit ([GoInt.add], [GoInt.sub]).
    - [viewport.Model] (package bubbles/viewport) and the glamour renderer are
      external collaborators of the program; the first is modelled by the four
      fields and three methods that [main.go] uses, the second is a parameter. *)

From Stdlib Require Import ZArith List Bool Ascii String Lia.
From Stdlib Require Import SpecFloat DecimalString.
Import ListNotations.
Local Open Scope Z_scope.

(** ** Go integers *)

Module GoInt.

Definition wrap (z : Z) : Z := (z + 2 ^ 63) mod 2 ^ 64 - 2 ^ 63.

Definition in_range (z : Z) : Prop := - 2 ^ 63 <= z < 2 ^ 63.

Definition add (a b : Z) : Z := wrap (a + b).
Definition sub (a b : Z) : Z := wrap (a - b).

(** [a / b] of Go truncates toward zero; the divisors of [main.go] are the
    constants 5 and 2. *)
Definition quot (a b : Z) : Z := wrap (Z.quot a b).

(** [a % b] of Go has the sign of [a]. *)
Definition rem (a b : Z) : Z := Z.rem a b.

End GoInt.

(** ** Go strings *)

Definition gostring : Type := list ascii.

Definition str (s : string) : gostring := list_ascii_of_string s.

Definition byte_of (c : ascii) : Z := Z.of_N (N_of_ascii c).

Definition of_byte (z : Z) : ascii := ascii_of_N (Z.to_N z).

Definition in_class (lo hi : Z) (c : ascii) : bool :=
  (lo <=? byte_of c) && (byte_of c <=? hi).

Definition is_byte (z : Z) (c : ascii) : bool := byte_of c =? z.

Fixpoint gostring_eqb (a b : gostring) : bool :=
  match a, b with
  | [], [] => true
  | x :: a', y :: b' => Ascii.eqb x y && gostring_eqb a' b'
  | _, _ => false
  end.

Definition len (s : gostring) : Z := Z.of_nat (List.length s).

Module strings.

(** [strings.HasPrefix]. *)
Fixpoint HasPrefix (s prefix : gostring) : bool :=
  match prefix, s with
  | [], _ => true
  | p :: prefix', c :: s' => Ascii.eqb c p && HasPrefix s' prefix'
  | _ :: _, [] => false
  end.

(** [strings.TrimPrefix]: [s] without the leading [prefix], or [s] itself. *)
Definition TrimPrefix (s prefix : gostring) : gostring :=
  if HasPrefix s prefix then skipn (List.length prefix) s else s.

(** [strings.ToLower].  ASCII capitals are lowered.  Of the runes outside
    ASCII exactly two have an ASCII lower case: U+212A (bytes E2 84 AA) gives
    [k] and U+0130 (bytes C4 B0) gives [i]; both are lowered here.  Every other
    rune outside ASCII has a lower case outside ASCII and is kept as it is:
    [slugify], the only caller, discards all of them. *)
Fixpoint ToLower (s : gostring) : gostring :=
  match s with
  | [] => []
  | c :: t =>
      if in_class 65 90 c then of_byte (byte_of c + 32) :: ToLower t
      else
        match t with
        | c2 :: t2 =>
            if is_byte 0xC4 c && is_byte 0xB0 c2 then "i"%char :: ToLower t2
            else
              match t2 with
              | c3 :: t3 =>
                  if is_byte 0xE2 c && is_byte 0x84 c2 && is_byte 0xAA c3
                  then "k"%char :: ToLower t3
                  else c :: ToLower t
              | [] => c :: ToLower t
              end
        | [] => c :: ToLower t
        end
  end.

(** [strings.ReplaceAll] for patterns and replacements of one byte, which is
    how [slugify] calls it. *)
Definition ReplaceAll (s : gostring) (old new : ascii) : gostring :=
  map (fun c => if Ascii.eqb c old then new else c) s.

(** White space of ASCII: tab, line feed, vertical tab, form feed, carriage
    return and space. *)
Definition asciiSpace (c : ascii) : bool :=
  in_class 9 13 c || is_byte 32 c.

(** [strings.Fields] on a string of ASCII bytes: the maximal runs of bytes
    that are not white space. *)
Fixpoint Fields_from (cur : gostring) (s : gostring) : list gostring :=
  match s with
  | [] => match cur with [] => [] | _ => [rev cur] end
  | c :: t =>
      if asciiSpace c
      then match cur with
           | [] => Fields_from [] t
           | _ => rev cur :: Fields_from [] t
           end
      else Fields_from (c :: cur) t
  end.

Definition Fields (s : gostring) : list gostring := Fields_from [] s.

(** [strings.Join]. *)
Fixpoint Join (elems : list gostring) (sep : gostring) : gostring :=
  match elems with
  | [] => []
  | [e] => e
  | e :: rest => e ++ sep ++ Join rest sep
  end.

(** Dropping the leading bytes that satisfy [p]. *)
Fixpoint TrimLeftBytes (p : ascii -> bool) (s : gostring) : gostring :=
  match s with
  | [] => []
  | c :: t => if p c then TrimLeftBytes p t else s
  end.

Definition TrimRightBytes (p : ascii -> bool) (s : gostring) : gostring :=
  rev (TrimLeftBytes p (rev s)).

(** [strings.Trim] and [strings.TrimRight] with a cutset of one byte. *)
Definition Trim (s : gostring) (cut : ascii) : gostring :=
  TrimRightBytes (Ascii.eqb cut) (TrimLeftBytes (Ascii.eqb cut) s).

Definition TrimRight (s : gostring) (cut : ascii) : gostring :=
  TrimRightBytes (Ascii.eqb cut) s.

(** [strings.TrimSpace] removes the leading and the trailing white space as
    [unicode.IsSpace] defines it: the six of ASCII, U+0085 and U+00A0
    (C2 85, C2 A0), U+1680 (E1 9A 80), U+2000 to U+200A (E2 80 80 to 8A),
    U+2028, U+2029, U+202F (E2 80 A8, A9, AF), U+205F (E2 81 9F) and U+3000
    (E3 80 80).  [space2] and [space3] recognise the encodings of two and of
    three bytes. *)
Definition space2 (c1 c2 : ascii) : bool :=
  is_byte 0xC2 c1 && (is_byte 0x85 c2 || is_byte 0xA0 c2).

Definition space3 (c1 c2 c3 : ascii) : bool :=
  (is_byte 0xE1 c1 && is_byte 0x9A c2 && is_byte 0x80 c3)
  || (is_byte 0xE2 c1 && is_byte 0x80 c2
      && (in_class 0x80 0x8A c3 || is_byte 0xA8 c3 || is_byte 0xA9 c3
          || is_byte 0xAF c3))
  || (is_byte 0xE2 c1 && is_byte 0x81 c2 && is_byte 0x9F c3)
  || (is_byte 0xE3 c1 && is_byte 0x80 c2 && is_byte 0x80 c3).

Fixpoint TrimLeftSpace (s : gostring) : gostring :=
  match s with
  | [] => []
  | c :: t =>
      if asciiSpace c then TrimLeftSpace t
      else
        match t with
        | c2 :: t2 =>
            if space2 c c2 then TrimLeftSpace t2
            else
              match t2 with
              | c3 :: t3 => if space3 c c2 c3 then TrimLeftSpace t3 else s
              | [] => s
              end
        | [] => s
        end
  end.

(** The same from the right end, on the reversed string: the last byte comes
    first. *)
Fixpoint TrimLeftSpace_rev (r : gostring) : gostring :=
  match r with
  | [] => []
  | c :: t =>
      if asciiSpace c then TrimLeftSpace_rev t
      else
        match t with
        | c2 :: t2 =>
            if space2 c2 c then TrimLeftSpace_rev t2
            else
              match t2 with
              | c3 :: t3 =>
                  if space3 c3 c2 c then TrimLeftSpace_rev t3 else r
              | [] => r
              end
        | [] => r
        end
  end.

Definition TrimSpace (s : gostring) : gostring :=
  rev (TrimLeftSpace_rev (rev (TrimLeftSpace s))).

(** [strings.Index]: the position of the first occurrence of [needle]. *)
Fixpoint Index_from (pos : Z) (haystack needle : gostring) : Z :=
  if HasPrefix haystack needle then pos
  else match haystack with
       | [] => -1
       | _ :: t => Index_from (pos + 1) t needle
       end.

Definition Index (haystack needle : gostring) : Z :=
  Index_from 0 haystack needle.

(** [strings.Split] with a separator of one byte: always at least one
    piece. *)
Fixpoint Split_from (cur : gostring) (s : gostring) (sep : ascii)
  : list gostring :=
  match s with
  | [] => [rev cur]
  | c :: t =>
      if Ascii.eqb c sep then rev cur :: Split_from [] t sep
      else Split_from (c :: cur) t sep
  end.

Definition Split (s : gostring) (sep : ascii) : list gostring :=
  Split_from [] s sep.

End strings.

(** [bytes.Count] with a separator of one byte. *)
Definition bytes_Count (s : gostring) (sep : ascii) : Z :=
  len (filter (Ascii.eqb sep) s).

(** ** Link and heading helpers *)

Record link : Type := mkLink {
  link_text : gostring;
  link_target : gostring;            (* url or #anchor *)
  link_renderedLine : Z
}.

Record heading : Type := mkHeading {
  heading_text : gostring;
  heading_anchor : gostring;         (* github-style slug *)
  heading_renderedLine : Z
}.

(** The test of the loop of [slugify] on a rune; a rune that passes it is one
    ASCII byte, and no byte of a longer or of an invalid encoding passes it. *)
Definition slug_rune (r : ascii) : bool :=
  in_class 97 122 r || in_class 48 57 r || is_byte 32 r || is_byte 45 r.

Definition slugify (s : gostring) : gostring :=
  let s := strings.ToLower s in
  let b := filter slug_rune s in
  strings.Trim
    (strings.Join (strings.Fields (strings.ReplaceAll b " "%char "-"%char))
       (str "-"))
    "-"%char.

(** ** The three regular expressions

    Go's [regexp] finds the leftmost match and, among the matches that start
    there, the one a backtracking search meets first.  In each of the three
    expressions the classes of adjacent pieces are disjoint, so a greedy run
    has one possible length and the search is deterministic; each is written as
    the scanner it amounts to.  A position matches a class on bytes as it does
    on runes, since every byte the classes name is ASCII. *)

Fixpoint span (p : ascii -> bool) (s : gostring) : gostring * gostring :=
  match s with
  | [] => ([], [])
  | c :: t =>
      if p c then let (a, b) := span p t in (c :: a, b) else ([], s)
  end.

Definition LF : ascii := of_byte 10.
Definition ESC : ascii := of_byte 27.

Definition is_LF (c : ascii) : bool := is_byte 10 c.

(** [\s] of RE2: tab, line feed, form feed, carriage return and space. *)
Definition re_space (c : ascii) : bool :=
  is_byte 9 c || is_byte 10 c || is_byte 12 c || is_byte 13 c || is_byte 32 c.

(** [ansiRE] at a position: the length of the match that starts there.  The
    expression has three branches: ESC, an opening bracket, digits and
    semicolons, one letter; or ESC, a closing bracket, "8;;", as few bytes of
    the line as possible, ESC and a backslash; or ESC and a backslash. *)
Fixpoint osc_tail (s : gostring) : option nat :=
  match s with
  | [] => None
  | c :: t =>
      if is_byte 27 c && match t with c2 :: _ => is_byte 92 c2 | [] => false end
      then Some 2%nat
      else if is_LF c then None
      else option_map S (osc_tail t)
  end.

Definition ansiRE_at (s : gostring) : option nat :=
  match s with
  | c :: c1 :: t =>
      if is_byte 27 c then
        if is_byte 91 c1 then
          let (params, rest) := span (fun x => in_class 48 57 x || is_byte 59 x) t in
          match rest with
          | f :: _ =>
              if in_class 65 90 f || in_class 97 122 f
              then Some (3 + List.length params)%nat
              else None
          | [] => None
          end
        else if is_byte 93 c1 then
          if strings.HasPrefix t (str "8;;")
          then option_map (fun n => (5 + n)%nat) (osc_tail (skipn 3 t))
          else None
        else if is_byte 92 c1 then Some 2%nat
        else None
      else None
  | _ => None
  end.

(** [ansiRE.ReplaceAllString(s, "")]: [skip] counts the bytes of the current
    match that are still to be dropped. *)
Fixpoint stripANSI_from (skip : nat) (s : gostring) : gostring :=
  match s with
  | [] => []
  | c :: t =>
      match skip with
      | S k => stripANSI_from k t
      | O =>
          match ansiRE_at s with
          | Some n => stripANSI_from (Nat.pred n) t
          | None => c :: stripANSI_from 0 t
          end
      end
  end.

Definition stripANSI (s : gostring) : gostring := stripANSI_from 0 s.

(** [reHeading] at the start of a line: the text of group 1 and the length of
    the whole match.  The expression is, in multi-line mode: start of line, up
    to three [\s], one to six number signs, one or more [\s], group 1 made of
    the rest of the line, end of line.  [\s] also matches a line feed, so the
    run before the number signs and the run after them may cross lines. *)
Definition reHeading_at (s : gostring) : option (gostring * nat) :=
  let (lead, s1) := span re_space s in
  if (3 <? List.length lead)%nat then None
  else
    let (marks, s2) := span (is_byte 35) s1 in
    if (List.length marks =? 0)%nat || (6 <? List.length marks)%nat then None
    else
      let (gap, s3) := span re_space s2 in
      if (List.length gap =? 0)%nat then None
      else
        let (txt, _) := span (fun c => negb (is_LF c)) s3 in
        Some (txt, (List.length lead + List.length marks
                    + List.length gap + List.length txt)%nat).

(** [reHeading.FindAllStringSubmatch(s, -1)], group 1 of each match.  [bol]
    says that the current position starts a line, [skip] counts the bytes of
    the last match still to pass. *)
Fixpoint reHeading_FindAll (skip : nat) (bol : bool) (s : gostring)
  : list gostring :=
  match s with
  | [] => []
  | c :: t =>
      match skip with
      | S k => reHeading_FindAll k (is_LF c) t
      | O =>
          if bol then
            match reHeading_at s with
            | Some (txt, n) => txt :: reHeading_FindAll (Nat.pred n) (is_LF c) t
            | None => reHeading_FindAll 0 (is_LF c) t
            end
          else reHeading_FindAll 0 (is_LF c) t
      end
  end.

(** [reLink] at a position: the two groups and the length of the match.  The
    expression is: an opening bracket, group [text] of one or more bytes other
    than a closing bracket, a closing bracket, an opening parenthesis, group
    [dest] of one or more bytes other than a closing parenthesis, a closing
    parenthesis. *)
Definition reLink_at (s : gostring) : option (gostring * gostring * nat) :=
  match s with
  | c :: t =>
      if is_byte 91 c then
        let (text, r1) := span (fun x => negb (is_byte 93 x)) t in
        match text, r1 with
        | _ :: _, _ :: p :: r2 =>
            if is_byte 40 p then
              let (dest, r3) := span (fun x => negb (is_byte 41 x)) r2 in
              match dest, r3 with
              | _ :: _, _ :: _ =>
                  Some (text, dest,
                        (4 + List.length text + List.length dest)%nat)
              | _, _ => None
              end
            else None
        | _, _ => None
        end
      else None
  | [] => None
  end.

(** [reLink.FindAllStringSubmatchIndex(s, -1)] with the two groups cut out of
    [s], as [buildIndexes] does. *)
Fixpoint reLink_FindAll (skip : nat) (s : gostring)
  : list (gostring * gostring) :=
  match s with
  | [] => []
  | _ :: t =>
      match skip with
      | S k => reLink_FindAll k t
      | O =>
          match reLink_at s with
          | Some (text, dest, n) => (text, dest) :: reLink_FindAll (Nat.pred n) t
          | None => reLink_FindAll 0 t
          end
      end
  end.

(** ** Position of a needle in the rendered text *)

Definition indexLineOf (haystack needle : gostring) : Z :=
  match needle with
  | [] => -1
  | _ =>
      let pos := strings.Index haystack needle in
      if pos <? 0 then -1
      else bytes_Count (firstn (Z.to_nat pos) haystack) LF
  end.

(** ** The viewport

    [viewport.Model] of bubbles keeps the lines of the content, the height of
    the window and the offset of the top line.  [lines] is [len(m.lines)].
    [SetYOffset] clamps its argument to the offsets the content allows. *)

Definition clamp (v lo hi : Z) : Z :=
  if v <? lo then lo else if v >? hi then hi else v.

Definition max (a b : Z) : Z := if a >? b then a else b.

Module viewport.

Record Model : Type := mkModel {
  Width : Z;
  Height : Z;
  YOffset : Z;
  lines : Z
}.

Definition New (width height : Z) : Model := mkModel width height 0 0.

Definition maxYOffset (m : Model) : Z :=
  max 0 (GoInt.sub (lines m) (Height m)).

Definition SetYOffset (m : Model) (n : Z) : Model :=
  mkModel (Width m) (Height m) (clamp n 0 (maxYOffset m)) (lines m).

Definition GotoTop (m : Model) : Model :=
  if YOffset m <=? 0 then m else SetYOffset m 0.

Definition GotoBottom (m : Model) : Model := SetYOffset m (maxYOffset m).

(** [SetContent] splits the content at line feeds and, when the offset lies
    beyond the last line, goes to the bottom. *)
Definition SetContent (m : Model) (s : gostring) : Model :=
  let m := mkModel (Width m) (Height m) (YOffset m)
             (Z.of_nat (List.length (strings.Split s LF))) in
  if YOffset m >? GoInt.sub (lines m) 1 then GotoBottom m else m.

Definition resize (m : Model) (width height : Z) : Model :=
  mkModel width height (YOffset m) (lines m).

End viewport.

(** ** The model

    The fields of [model] that the index and the navigation read or write;
    [filename], [fileMod] and [fileSize] only feed the header line. *)

Record model : Type := mkModel {
  rawMarkdown : gostring;
  view : viewport.Model;
  rendered : gostring;
  renderedLines : list gostring;
  totalLines : Z;
  links : list link;
  headings : list heading;
  linkIndex : Z;                      (* -1 none *)
  theme : gostring;
  wrapWidth : Z;
  err : option gostring;
  animating : bool;
  targetOffset : Z
}.

Definition set_view (m : model) (v : viewport.Model) : model :=
  mkModel (rawMarkdown m) v (rendered m) (renderedLines m) (totalLines m)
    (links m) (headings m) (linkIndex m) (theme m) (wrapWidth m) (err m)
    (animating m) (targetOffset m).

Definition set_rendered (m : model) (out : gostring) (ls : list gostring)
  : model :=
  mkModel (rawMarkdown m) (view m) out ls (Z.of_nat (List.length ls))
    (links m) (headings m) (linkIndex m) (theme m) (wrapWidth m) (err m)
    (animating m) (targetOffset m).

Definition set_indexes (m : model) (hs : list heading) (ls : list link)
  (i : Z) : model :=
  mkModel (rawMarkdown m) (view m) (rendered m) (renderedLines m)
    (totalLines m) ls hs i (theme m) (wrapWidth m) (err m)
    (animating m) (targetOffset m).

Definition set_linkIndex (m : model) (i : Z) : model :=
  set_indexes m (headings m) (links m) i.

Definition set_err (m : model) (e : gostring) : model :=
  mkModel (rawMarkdown m) (view m) (rendered m) (renderedLines m)
    (totalLines m) (links m) (headings m) (linkIndex m) (theme m)
    (wrapWidth m) (Some e) (animating m) (targetOffset m).

Definition set_scroll (m : model) (a : bool) (tgt : Z) : model :=
  mkModel (rawMarkdown m) (view m) (rendered m) (renderedLines m)
    (totalLines m) (links m) (headings m) (linkIndex m) (theme m)
    (wrapWidth m) (err m) a tgt.

Definition set_animating (m : model) (a : bool) : model :=
  set_scroll m a (targetOffset m).

(** ** Building the indexes *)

Definition heading_of (plain txt : gostring) : heading :=
  mkHeading txt (slugify txt) (indexLineOf plain txt).

Definition link_of (plain : gostring) (td : gostring * gostring) : link :=
  let (text, dest) := td in
  let needle := if strings.HasPrefix dest (str "#") then text else dest in
  mkLink text dest (indexLineOf plain needle).

Definition is_empty (s : gostring) : bool :=
  match s with [] => true | _ => false end.

Definition len_links_is_zero (ls : list link) : bool :=
  Z.of_nat (List.length ls) =? 0.

Definition buildIndexes (m : model) : model :=
  let plain := stripANSI (rendered m) in
  let hs :=
    map (heading_of plain)
      (filter (fun txt => negb (is_empty txt))
         (map strings.TrimSpace (reHeading_FindAll 0 true (rawMarkdown m)))) in
  let ls := map (link_of plain) (reLink_FindAll 0 (rawMarkdown m)) in
  let i :=
    if len_links_is_zero ls then -1
    else if linkIndex m >=? Z.of_nat (List.length ls)
         then GoInt.sub (Z.of_nat (List.length ls)) 1
         else linkIndex m in
  set_indexes m hs ls i.

(** ** Run-time panics

    An index out of range and a division by zero stop a Go program; [Panic] is
    that outcome. *)

Inductive result (A : Type) : Type :=
| Ok (a : A)
| Panic.

Arguments Ok {A} a.
Arguments Panic {A}.

Definition bind {A B : Type} (r : result A) (f : A -> result B) : result B :=
  match r with
  | Ok a => f a
  | Panic => Panic
  end.

(** [xs[i]]. *)
Definition index {A : Type} (xs : list A) (i : Z) : result A :=
  if (i <? 0) || (i >=? Z.of_nat (List.length xs)) then Panic
  else match nth_error xs (Z.to_nat i) with
       | Some x => Ok x
       | None => Panic
       end.

(** [a % b], which panics when [b] is zero. *)
Definition modulo (a b : Z) : result Z :=
  if b =? 0 then Panic else Ok (GoInt.rem a b).

(** ** Messages and commands *)

Inductive Key : Type :=
| KeyRunes (runes : gostring)
| KeyEsc | KeyUp | KeyDown
| KeyPgUp | KeyCtrlB | KeyPgDown | KeyCtrlF
| KeyHome | KeyEnd
| KeyTab | KeyShiftTab | KeyEnter
| KeyOther.

(** [msg.String() == s] for a string [s] of letters: the names bubbletea gives
    to the special keys are none of them one letter. *)
Definition key_is (k : Key) (s : gostring) : bool :=
  match k with
  | KeyRunes r => gostring_eqb r s
  | _ => false
  end.

Inductive Msg : Type :=
| WindowSizeMsg (width height : Z)
| KeyMsg (k : Key)
| scrollTick.

Inductive Cmd : Type :=
| CmdNil
| CmdQuit
| scrollTicker.

(** What one call of [Update] gives: the next model, the command, and the URL
    handed to [openURL], if any. *)
Record Step : Type := mkStep {
  next : model;
  cmd : Cmd;
  opened : option gostring
}.

Definition nlinks (m : model) : Z := Z.of_nat (List.length (links m)).

(** ** Animation helpers *)

Definition startScrollTo (m : model) (target : Z) : model * Cmd :=
  let maxOffset :=
    max 0 (GoInt.sub (totalLines m) (viewport.Height (view m))) in
  let target := if target <? 0 then 0 else target in
  let target := if target >? maxOffset then maxOffset else target in
  let m := set_scroll m (animating m) target in
  if viewport.YOffset (view m) =? targetOffset m
  then (set_animating m false, CmdNil)
  else (set_animating m true, scrollTicker).

(** The [scrollTick] case of [Update]. *)
Definition tick (m : model) : model * Cmd :=
  if negb (animating m) then (m, CmdNil)
  else
    let cur := viewport.YOffset (view m) in
    let tgt := targetOffset m in
    if cur =? tgt then (set_animating m false, CmdNil)
    else
      let diff := GoInt.sub tgt cur in
      let step := GoInt.quot diff 5 in
      let step := if step =? 0 then (if diff >? 0 then 1 else -1) else step in
      let newOff := GoInt.add cur step in
      let newOff :=
        if ((diff >? 0) && (newOff >? tgt)) || ((diff <? 0) && (newOff <? tgt))
        then tgt else newOff in
      let m := set_view m (viewport.SetYOffset (view m) newOff) in
      if negb (newOff =? tgt) then (m, scrollTicker)
      else (set_animating m false, CmdNil).

(** ** Link navigation *)

Definition scrollToLink (m : model) : result model :=
  if (linkIndex m <? 0) || (linkIndex m >=? nlinks m) then Ok m
  else
    bind (index (links m) (linkIndex m)) (fun l =>
    let line := link_renderedLine l in
    if line <? 0 then Ok m
    else
      let h := viewport.Height (view m) in
      let target := GoInt.sub line (GoInt.quot h 2) in
      let target := if target <? 0 then 0 else target in
      let target :=
        if target >? GoInt.sub (totalLines m) h
        then GoInt.sub (totalLines m) h else target in
      let target := if target <? 0 then 0 else target in
      Ok (set_view m (viewport.SetYOffset (view m) target))).

(** The test of the loop of [followLink] on one heading. *)
Definition anchor_matches (h : heading) (anc : gostring) : bool :=
  gostring_eqb (heading_anchor h) anc
  || gostring_eqb (slugify (heading_text h)) anc
  || gostring_eqb (slugify anc) (heading_anchor h).

(** The loop of [followLink]: the heading at which it returns. *)
Fixpoint followLink_loop (hs : list heading) (anc : gostring)
  : option heading :=
  match hs with
  | [] => None
  | h :: rest =>
      if anchor_matches h anc then
        if heading_renderedLine h >=? 0 then Some h
        else followLink_loop rest anc
      else followLink_loop rest anc
  end.

Definition jump (m : model) (line : Z) : model :=
  set_view m
    (viewport.SetYOffset (view m)
       (clamp line 0
          (max 0 (GoInt.sub (totalLines m) (viewport.Height (view m)))))).

Definition followLink (m : model) (l : link) : model * option gostring :=
  let dest := strings.TrimSpace (link_target l) in
  if is_empty dest then (m, None)
  else if strings.HasPrefix dest (str "#") then
    let anc := strings.TrimPrefix dest (str "#") in
    match followLink_loop (headings m) anc with
    | Some h => (jump m (heading_renderedLine h), None)
    | None =>
        if link_renderedLine l >=? 0
        then (jump m (link_renderedLine l), None)
        else (m, None)
    end
  else (m, Some dest).

(** ** Rendering and the update function

    [renderMarkdown] wraps the glamour renderer: the styled text, or an error. *)

Section Program.

Variable renderMarkdown : gostring -> Z -> gostring -> gostring + gostring.

Definition recalcRendered (m : model) (width height : Z) : model :=
  let bodyHeight := GoInt.sub height 2 in
  let bodyHeight := if bodyHeight <? 1 then 1 else bodyHeight in
  let wrap := wrapWidth m in
  let wrap := if wrap <=? 0 then width else wrap in
  match renderMarkdown (rawMarkdown m) wrap (theme m) with
  | inr e => set_err m e
  | inl out =>
      let m :=
        set_rendered m out
          (strings.Split (strings.TrimRight out LF) LF) in
      let v := view m in
      let v :=
        if negb (viewport.Width v =? width)
           || negb (viewport.Height v =? bodyHeight)
        then viewport.resize v width bodyHeight else v in
      let v := viewport.SetContent v (rendered m) in
      buildIndexes (set_view m v)
  end.

Definition initialModel (raw theme : gostring) (wrap : Z) : model :=
  mkModel raw (viewport.New 0 0) [] [] 0 [] [] (-1) theme wrap None false 0.

(** [main] sizes the model to the terminal before the program starts. *)
Definition load (raw theme : gostring) (wrap w h : Z) : model :=
  recalcRendered (initialModel raw theme wrap) w h.

Definition still (m : model) : result Step := Ok (mkStep m CmdNil None).

Definition scroll (m : model) (target : Z) : result Step :=
  let (m', c) := startScrollTo m target in Ok (mkStep m' c None).

Definition Update (m : model) (msg : Msg) : result Step :=
  match msg with
  | WindowSizeMsg width height =>
      (* the viewport itself ignores this message *)
      still (recalcRendered m width height)
  | KeyMsg k =>
      if key_is k (str "q") || key_is k (str "Q")
      then Ok (mkStep m CmdQuit None)
      else
        let v := view m in
        match k with
        | KeyEsc => Ok (mkStep m CmdQuit None)
        | KeyUp => scroll m (GoInt.sub (viewport.YOffset v) 1)
        | KeyDown => scroll m (GoInt.add (viewport.YOffset v) 1)
        | KeyPgUp | KeyCtrlB =>
            scroll m (GoInt.sub (viewport.YOffset v) (viewport.Height v))
        | KeyPgDown | KeyCtrlF =>
            scroll m (GoInt.add (viewport.YOffset v) (viewport.Height v))
        | KeyHome => still (set_view m (viewport.GotoTop v))
        | KeyEnd => still (set_view m (viewport.GotoBottom v))
        | KeyTab =>
            if nlinks m >? 0 then
              bind (if linkIndex m =? -1 then Ok 0
                    else modulo (GoInt.add (linkIndex m) 1) (nlinks m))
                (fun i => bind (scrollToLink (set_linkIndex m i)) still)
            else still m
        | KeyShiftTab =>
            if nlinks m >? 0 then
              bind (if linkIndex m =? -1 then Ok (GoInt.sub (nlinks m) 1)
                    else modulo
                           (GoInt.add (GoInt.sub (linkIndex m) 1) (nlinks m))
                           (nlinks m))
                (fun i => bind (scrollToLink (set_linkIndex m i)) still)
            else still m
        | KeyEnter =>
            if (linkIndex m >=? 0) && (linkIndex m <? nlinks m) then
              bind (index (links m) (linkIndex m)) (fun l =>
              let (m', u) := followLink m l in Ok (mkStep m' CmdNil u))
            else still m
        | KeyRunes _ | KeyOther => still m
        end
  | scrollTick =>
      let (m', c) := tick m in Ok (mkStep m' c None)
  end.

(** The models the program can be in: the one [main] loads, and every model
    [Update] returns from one of them. *)
Inductive reachable : model -> Prop :=
| reachable_load : forall raw theme wrap w h,
    reachable (load raw theme wrap w h)
| reachable_Update : forall m msg s,
    reachable m -> Update m msg = Ok s -> reachable (next s).

End Program.

(** ** The footer

    [float64] is IEEE 754 binary64, with the operations of [SpecFloat]:
    conversions from integers and the arithmetic round to nearest, ties to
    even. *)

Module float64.

Definition prec : Z := 53.
Definition emax : Z := 1024.

(** [float64(n)]. *)
Definition of_int (n : Z) : spec_float := binary_normalize prec emax n 0 false.

Definition zero : spec_float := S754_zero false.
Definition one : spec_float := of_int 1.

Definition mul (x y : spec_float) : spec_float := SFmul prec emax x y.
Definition div (x y : spec_float) : spec_float := SFdiv prec emax x y.
Definition ltb (x y : spec_float) : bool := SFltb x y.

(** [int(x)]: the integer part of [x].  Go leaves the result to the
    implementation when [x] is not a number, is infinite or is out of the range
    of [int]; amd64 gives the least integer then. *)
Definition to_int (x : spec_float) : Z :=
  match x with
  | S754_zero _ => 0
  | S754_finite s m e =>
      let v := if e >=? 0 then Z.pos m * 2 ^ e else Z.pos m / 2 ^ (- e) in
      if v <? 2 ^ 63 then (if s then - v else v) else - 2 ^ 63
  | S754_infinity _ | S754_nan => - 2 ^ 63
  end.

End float64.

(** A rune is a code point; the two block characters of the bar. *)
Definition rune : Type := Z.

Definition FULL_BLOCK : rune := 0x2588.
Definition LIGHT_SHADE : rune := 0x2591.

(** [[]rune(s)] for a string of ASCII bytes. *)
Definition runes (s : gostring) : list rune := map byte_of s.

(** [strings.Repeat] of a string of one rune, as runes; a negative count
    panics. *)
Definition Repeat (r : rune) (count : Z) : result (list rune) :=
  if count <? 0 then Panic else Ok (repeat r (Z.to_nat count)).

(** The loop of [drawProgressBar]: [label] written over [bar] from cell
    [start] on, as far as the bar goes. *)
Fixpoint overlay (bar : list rune) (start : nat) (label : list rune)
  : list rune :=
  match bar with
  | [] => []
  | r :: bar' =>
      match start with
      | S k => r :: overlay bar' k label
      | O =>
          match label with
          | [] => bar
          | x :: label' => x :: overlay bar' 0 label'
          end
      end
  end.

Definition drawProgressBar (width : Z) (ratio : spec_float) (label : gostring)
  : result (list rune) :=
  if width <? 3 then Repeat FULL_BLOCK width
  else
    let fill := float64.to_int (float64.mul (float64.of_int width) ratio) in
    let fill := if fill <? 0 then 0 else fill in
    let fill := if fill >? width then width else fill in
    bind (Repeat FULL_BLOCK fill) (fun full =>
    bind (if fill <? width then Repeat LIGHT_SHADE (GoInt.sub width fill)
          else Ok []) (fun rest =>
    let bar := full ++ rest in
    if (len label >? 0) && (len label <? width) then
      let start := GoInt.quot (GoInt.sub width (len label)) 2 in
      Ok (overlay bar (Z.to_nat start) (runes label))
    else Ok bar)).

(** [%d] of [fmt.Sprintf]. *)
Definition itoa (n : Z) : gostring := str (NilZero.string_of_int (Z.to_int n)).

(** The label of the footer, [fmt.Sprintf(" %d / %d ", current, total)]. *)
Definition View_label (m : model) : gostring :=
  let current :=
    GoInt.add (viewport.YOffset (view m)) (viewport.Height (view m)) in
  let current := if current >? totalLines m then totalLines m else current in
  let current :=
    if (current <? 1) && (totalLines m >? 0) then 1 else current in
  let total := max 1 (totalLines m) in
  str " " ++ itoa current ++ str " / " ++ itoa total ++ str " ".

(** The progress ratio of [View]. *)
Definition View_ratio (m : model) : spec_float :=
  let ratio := float64.zero in
  let den :=
    float64.of_int
      (max 1 (GoInt.sub (totalLines m) (viewport.Height (view m)))) in
  if float64.ltb float64.zero den then
    let ratio := float64.div (float64.of_int (viewport.YOffset (view m))) den in
    let ratio := if float64.ltb ratio float64.zero then float64.zero else ratio in
    if float64.ltb float64.one ratio then float64.one else ratio
  else ratio.

(** The last line of [View], the progress bar; [View] shows the error instead
    when there is one. *)
Definition View_progress (m : model) : option (result (list rune)) :=
  match err m with
  | Some _ => None
  | None =>
      let w := viewport.Width (view m) in
      let w := if w <=? 0 then 80 else w in
      Some (drawProgressBar w (View_ratio m) (View_label m))
  end.

(** ** Definitions in the words of the specification *)

(** The step of one tick: a fifth of the distance, truncated toward zero, or
    one line in the direction of travel when that is zero. *)
Definition ease_step (diff : Z) : Z :=
  if Z.quot diff 5 =? 0 then Z.sgn diff else Z.quot diff 5.

(** [n] ticks in a row. *)
Fixpoint ticks (n : nat) (m : model) : model :=
  match n with
  | O => m
  | S k => ticks k (fst (tick m))
  end.

Definition offset (m : model) : Z := viewport.YOffset (view m).

Definition height (m : model) : Z := viewport.Height (view m).

(** The largest legal offset, [max(0, totalLines - height)]. *)
Definition maxOffset (m : model) : Z := Z.max 0 (totalLines m - height m).

(** The sizes are those of a program that runs: lengths and heights are
    non-negative Go integers, and the viewport shows the text whose lines
    [totalLines] counts, so it has at least as many lines. *)
Definition sized (m : model) : Prop :=
  0 <= height m < 2 ^ 63
  /\ 0 <= totalLines m <= viewport.lines (view m)
  /\ viewport.lines (view m) < 2 ^ 63.

(** The state of an animation under way toward a legal target. *)
Definition moving (m : model) : Prop :=
  sized m /\ animating m = true
  /\ 0 <= offset m <= viewport.maxYOffset (view m)
  /\ 0 <= targetOffset m <= maxOffset m.

(** What the ticks preserve: sizes, a legal target, and an offset that is at
    the target once the animation has stopped. *)
Definition settling (m : model) : Prop :=
  sized m
  /\ 0 <= offset m <= viewport.maxYOffset (view m)
  /\ 0 <= targetOffset m <= maxOffset m
  /\ (animating m = false -> offset m = targetOffset m).

(** The ticks an animation still needs, at most. *)
Definition ticks_left (m : model) : Z :=
  if animating m then Z.max 1 (Z.abs (targetOffset m - offset m)) else 0.

(** A line feed inside a string literal is written as a vertical bar. *)
Definition nl (s : string) : gostring :=
  map (fun c => if Ascii.eqb c "|"%char then LF else c) (str s).

(** ** Sequences of messages *)

(** The operations of the scroll engine and of the link navigator: scroll
    requests, ticks, link selection and link following.  A resize re-renders
    the document, and [Home] and [End] go through [GotoTop] and [GotoBottom] of
    the viewport; they are not among them. *)
Definition navigation (msg : Msg) : bool :=
  match msg with
  | WindowSizeMsg _ _ => false
  | KeyMsg KeyHome | KeyMsg KeyEnd => false
  | KeyMsg _ => true
  | scrollTick => true
  end.

(** [Update] over a list of messages, one after the other. *)
Fixpoint run (render : gostring -> Z -> gostring -> gostring + gostring)
  (m : model) (msgs : list Msg) : result model :=
  match msgs with
  | [] => Ok m
  | msg :: rest => bind (Update render m msg) (fun s => run render (next s) rest)
  end.

(** The offset is legal, and so is the target of an animation under way; the
    height and the number of lines are non-negative Go integers. *)
Definition in_bounds (m : model) : Prop :=
  0 <= height m < 2 ^ 63
  /\ 0 <= totalLines m < 2 ^ 63
  /\ 0 <= offset m <= maxOffset m
  /\ (animating m = true -> 0 <= targetOffset m <= maxOffset m).

(** The link index is none or an index of the list of links. *)
Definition linkIndex_ok (m : model) : Prop :=
  linkIndex m = -1 \/ 0 <= linkIndex m < nlinks m.

(** The bytes of a slug: small letters, digits and the hyphen. *)
Definition slug_byte (c : ascii) : bool :=
  in_class 97 122 c || in_class 48 57 c || is_byte 45 c.

Definition HasSuffix (s suffix : gostring) : bool :=
  strings.HasPrefix (rev s) (rev suffix).

(** The first heading, in the order of the list, that matches the anchor and
    has a resolved line. *)
Definition first_resolved (hs : list heading) (anc : gostring)
  : option heading :=
  find (fun h => anchor_matches h anc && (heading_renderedLine h >=? 0)) hs.

(** The cells of a bar before the label is written over them: [fill] full
    blocks, then light shade up to [width]. *)
Definition bar_cells (width fill : Z) : list rune :=
  repeat FULL_BLOCK (Z.to_nat fill)
  ++ repeat LIGHT_SHADE (Z.to_nat (width - fill)).

Definition len_runes (rs : list rune) : Z := Z.of_nat (List.length rs).


(** The sizes that only a new rendering changes. *)
Definition same_sizes (m m' : model) : Prop :=
  totalLines m' = totalLines m
  /\ viewport.lines (view m') = viewport.lines (view m)
  /\ viewport.Height (view m') = viewport.Height (view m).

(** What scrolling and jumping leave alone. *)
Definition same_index (m m' : model) : Prop :=
  rawMarkdown m' = rawMarkdown m /\ links m' = links m
  /\ headings m' = headings m /\ linkIndex m' = linkIndex m.

(** ** Fixtures

    A renderer that returns the source as it is, as glamour does for text
    without markup under the [notty] style, and models loaded with it. *)
Definition plain_render (raw : gostring) (width : Z) (style : gostring)
  : gostring + gostring := inl raw.

Definition two_links : model :=
  load plain_render
    (nl "# Title||See [here](#title) and [site](https://example.org).|")
    (str "notty") 40 80 24.

(** A document of a hundred lines in a window of ten, and the same with a
    scroll to line 37 requested. *)
Definition hundred_lines : model :=
  load plain_render (List.concat (repeat (nl "line|") 100)) (str "notty")
    0 80 12.

Definition scrolling : model := fst (startScrollTo hundred_lines 37).

(** A renderer whose output is empty: no needle is found in it. *)
Definition blank_render (raw : gostring) (width : Z) (style : gostring)
  : gostring + gostring := inl [].

Definition unresolved_links : model :=
  load blank_render (nl "# Title||See [here](#nowhere).|") (str "notty")
    0 80 24.

(** The heading of the specification's example, on line 5 of a document of a
    hundred lines, and a link to an anchor with no resolved line of its own. *)
Definition intro_heading : heading :=
  mkHeading (str "Introduction") (str "intro") 5.

Definition intro_model : model :=
  set_indexes hundred_lines [intro_heading] [] (-1).

Definition anchor_link (target : string) : link :=
  mkLink (str "see") (str target) (-1).



Definition KeyTabs (n : nat) : list Msg := repeat (KeyMsg KeyTab) n.

(** ** More definitions for the properties of the code *)

(** The lines a scroll key asks to move by. *)
Definition key_delta (k : Key) (m : model) : option Z :=
  match k with
  | KeyUp => Some (-1)
  | KeyDown => Some 1
  | KeyPgUp | KeyCtrlB => Some (- height m)
  | KeyPgDown | KeyCtrlF => Some (height m)
  | _ => None
  end.

(** A target brought into the legal offsets, as [startScrollTo] does. *)
Definition legal (m : model) (target : Z) : Z :=
  Z.min (Z.max target 0) (maxOffset m).

(** Line [line] is one of the lines the window shows. *)
Definition visible (m : model) (line : Z) : Prop :=
  offset m <= line < offset m + height m.

(** The messages that ask for an animated scroll, or carry one on. *)
Definition scrolls (msg : Msg) : bool :=
  match msg with
  | KeyMsg (KeyUp | KeyDown | KeyPgUp | KeyCtrlB | KeyPgDown | KeyCtrlF) =>
      true
  | scrollTick => true
  | _ => false
  end.

(** The keys that end the program. *)
Definition quits (msg : Msg) : bool :=
  match msg with
  | KeyMsg KeyEsc => true
  | KeyMsg k => key_is k (str "q") || key_is k (str "Q")
  | _ => false
  end.

Definition is_resize (msg : Msg) : bool :=
  match msg with
  | WindowSizeMsg _ _ => true
  | _ => false
  end.

Definition key_is_home (k : Key) : bool :=
  match k with
  | KeyHome => true
  | _ => false
  end.

(** The lines, the sizes and the two indexes are those of the rendered text
    and of the source. *)
Definition indexed (m : model) : Prop :=
  renderedLines m = strings.Split (strings.TrimRight (rendered m) LF) LF
  /\ totalLines m = Z.of_nat (List.length (renderedLines m))
  /\ viewport.lines (view m)
     = Z.of_nat (List.length (strings.Split (rendered m) LF))
  /\ headings m
     = map (heading_of (stripANSI (rendered m)))
         (filter (fun txt => negb (is_empty txt))
            (map strings.TrimSpace
               (reHeading_FindAll 0 true (rawMarkdown m))))
  /\ links m
     = map (link_of (stripANSI (rendered m)))
         (reLink_FindAll 0 (rawMarkdown m)).

(** What only a new rendering changes. *)
Definition same_document (m m' : model) : Prop :=
  rawMarkdown m' = rawMarkdown m
  /\ rendered m' = rendered m
  /\ renderedLines m' = renderedLines m
  /\ totalLines m' = totalLines m
  /\ links m' = links m
  /\ headings m' = headings m
  /\ theme m' = theme m
  /\ wrapWidth m' = wrapWidth m
  /\ viewport.lines (view m') = viewport.lines (view m)
  /\ viewport.Height (view m') = viewport.Height (view m)
  /\ viewport.Width (view m') = viewport.Width (view m).

(** Text without escape sequences, and text without line feeds. *)
Definition no_ESC (s : gostring) : bool :=
  forallb (fun c => negb (is_byte 27 c)) s.

Definition no_LF (s : gostring) : bool :=
  forallb (fun c => negb (is_LF c)) s.

(** A link as the source writes it. *)
Definition link_source (text dest : gostring) : gostring :=
  str "[" ++ text ++ str "](" ++ dest ++ str ")".

Definition no_byte (b : Z) (s : gostring) : bool :=
  forallb (fun c => negb (is_byte b c)) s.

Definition ascii_only (s : gostring) : bool := forallb (in_class 0 127) s.

(** The needle [buildIndexes] looks for to place a link. *)
Definition link_needle (l : link) : gostring :=
  if strings.HasPrefix (link_target l) (str "#")
  then link_text l else link_target l.

(** * Properties *)

#[local] Arguments Z.pow : simpl never.
#[local] Arguments Z.quot : simpl never.
#[local] Arguments Z.rem : simpl never.
#[local] Arguments Z.modulo : simpl never.
#[local] Arguments Z.sub : simpl nomatch.

(** ** The scroll ticks *)

Lemma wrap_id z : - 2 ^ 63 <= z < 2 ^ 63 -> GoInt.wrap z = z.
Proof.
  unfold GoInt.wrap. intros H. rewrite Z.mod_small; lia.
Qed.

Lemma ease_step_pos d : 0 < d -> 1 <= ease_step d <= d.
Proof.
  intros H. unfold ease_step.
  destruct (Z.eqb_spec (Z.quot d 5) 0) as [E|E].
  - lia.
  - Z.to_euclidean_division_equations. lia.
Qed.

Lemma ease_step_neg d : d < 0 -> d <= ease_step d <= -1.
Proof.
  intros H. unfold ease_step.
  destruct (Z.eqb_spec (Z.quot d 5) 0) as [E|E].
  - lia.
  - Z.to_euclidean_division_equations. lia.
Qed.

Lemma max_Zmax a b : max a b = Z.max a b.
Proof. unfold max. destruct (Z.gtb_spec a b); lia. Qed.

Ltac bool_cases :=
  repeat match goal with
    | |- context [?a =? ?b] => destruct (Z.eqb_spec a b)
    | |- context [?a <? ?b] => destruct (Z.ltb_spec a b)
    | |- context [?a >? ?b] => destruct (Z.gtb_spec a b)
    | |- context [?a <=? ?b] => destruct (Z.leb_spec a b)
    | |- context [?a >=? ?b] => destruct (Z.geb_spec a b)
    end; simpl.

Lemma tick_moving m :
  moving m -> offset m <> targetOffset m ->
  let o' := offset m + ease_step (targetOffset m - offset m) in
  offset (fst (tick m)) = o'
  /\ targetOffset (fst (tick m)) = targetOffset m
  /\ height (fst (tick m)) = height m
  /\ totalLines (fst (tick m)) = totalLines m
  /\ viewport.lines (view (fst (tick m))) = viewport.lines (view m)
  /\ animating (fst (tick m)) = negb (o' =? targetOffset m)
  /\ snd (tick m) = (if o' =? targetOffset m then CmdNil else scrollTicker).
Proof.
  unfold moving, sized, maxOffset, offset, height, viewport.maxYOffset.
  destruct m as [raw [W H Y L] rd rl T ls hs li th ww e a tgt]; simpl.
  rewrite max_Zmax.
  intros (Hs & Ha & Ho & Ht) Hne. subst a.
  assert (Hw : GoInt.sub L H = L - H) by (apply wrap_id; lia).
  rewrite Hw in Ho.
  unfold tick; simpl.
  destruct (Z.eqb_spec Y tgt) as [|_]; [contradiction|].
  assert (Hd : GoInt.sub tgt Y = tgt - Y) by (apply wrap_id; lia).
  rewrite Hd.
  assert (Hq : GoInt.quot (tgt - Y) 5 = Z.quot (tgt - Y) 5).
  { apply wrap_id. Z.to_euclidean_division_equations. lia. }
  rewrite Hq.
  set (st := if Z.quot (tgt - Y) 5 =? 0 then if tgt - Y >? 0 then 1 else -1
             else Z.quot (tgt - Y) 5).
  assert (Hst : st = ease_step (tgt - Y)).
  { unfold st, ease_step. destruct (Z.eqb_spec (Z.quot (tgt - Y) 5) 0); auto.
    destruct (Z.gtb_spec (tgt - Y) 0); lia. }
  rewrite Hst. clear st Hst.
  pose proof (ease_step_pos (tgt - Y)) as Hp.
  pose proof (ease_step_neg (tgt - Y)) as Hn.
  set (s := ease_step (tgt - Y)) in *.
  assert (Hadd : GoInt.add Y s = Y + s) by (apply wrap_id; lia).
  rewrite Hadd.
  assert (Hno : (((tgt - Y >? 0) && (Y + s >? tgt))
                 || ((tgt - Y <? 0) && (Y + s <? tgt))) = false).
  { destruct (Z.gtb_spec (tgt - Y) 0), (Z.gtb_spec (Y + s) tgt),
      (Z.ltb_spec (tgt - Y) 0), (Z.ltb_spec (Y + s) tgt); simpl; auto; lia. }
  rewrite Hno.
  unfold viewport.SetYOffset, viewport.maxYOffset; simpl.
  rewrite Hw, max_Zmax.
  assert (Hc : clamp (Y + s) 0 (Z.max 0 (L - H)) = Y + s).
  { unfold clamp. bool_cases; lia. }
  rewrite Hc.
  destruct (Z.eqb_spec (Y + s) tgt); simpl; auto 10.
Qed.

Lemma tick_idle m : animating m = false -> tick m = (m, CmdNil).
Proof. intros H. unfold tick. rewrite H. reflexivity. Qed.

Lemma tick_arrived m :
  animating m = true -> offset m = targetOffset m ->
  tick m = (set_animating m false, CmdNil).
Proof.
  unfold offset. intros Ha He. unfold tick. rewrite Ha, He, Z.eqb_refl.
  reflexivity.
Qed.

Lemma viewport_maxYOffset_eq v :
  0 <= viewport.Height v < 2 ^ 63 -> 0 <= viewport.lines v < 2 ^ 63 ->
  viewport.maxYOffset v = Z.max 0 (viewport.lines v - viewport.Height v).
Proof.
  intros Hh Hl. unfold viewport.maxYOffset, GoInt.sub.
  rewrite max_Zmax, wrap_id by lia. reflexivity.
Qed.

Lemma tick_settling m :
  settling m ->
  settling (fst (tick m))
  /\ targetOffset (fst (tick m)) = targetOffset m
  /\ (offset m <= targetOffset m ->
      offset m <= offset (fst (tick m)) <= targetOffset m)
  /\ (targetOffset m <= offset m ->
      targetOffset m <= offset (fst (tick m)) <= offset m)
  /\ (animating m = true ->
      animating (fst (tick m)) = false
      \/ (offset (fst (tick m)) <> targetOffset m
          /\ Z.abs (targetOffset m - offset (fst (tick m)))
             < Z.abs (targetOffset m - offset m))).
Proof.
  intros (Hs & Ho & Ht & Hi).
  destruct (animating m) eqn:Ha.
  - destruct (Z.eq_dec (offset m) (targetOffset m)) as [He|Hne].
    + rewrite (tick_arrived m Ha He). cbn [fst].
      unfold settling, sized, maxOffset, offset, height in *.
      destruct m; cbn in *. repeat split; auto; lia.
    + destruct (tick_moving m) as (E1 & E2 & E3 & E4 & E5 & E6 & _); auto.
      { unfold moving; auto. }
      pose proof (ease_step_pos (targetOffset m - offset m)) as Hp.
      pose proof (ease_step_neg (targetOffset m - offset m)) as Hn.
      destruct Hs as (Hh & HT & HL).
      unfold settling, sized.
      rewrite !viewport_maxYOffset_eq in *;
        fold (height m) (height (fst (tick m))) in *;
        rewrite ?E3, ?E5; try lia.
      unfold maxOffset in *. rewrite E2, E3, E4, E6, E1.
      destruct (Z.eqb_spec (offset m + ease_step (targetOffset m - offset m))
                  (targetOffset m)); cbn [negb];
        repeat split; intros; try discriminate; try lia; auto;
        right; lia.
  - rewrite (tick_idle m Ha). cbn [fst]. specialize (Hi eq_refl).
    unfold settling. rewrite Ha. unfold sized in *.
    repeat split; auto; try lia; intros; try discriminate; lia.
Qed.

Lemma ticks_settling k : forall m,
  settling m ->
  settling (ticks k m)
  /\ targetOffset (ticks k m) = targetOffset m
  /\ (offset m <= targetOffset m -> offset m <= offset (ticks k m))
  /\ (targetOffset m <= offset m -> offset (ticks k m) <= offset m).
Proof.
  induction k as [|k IH]; intros m Hm; cbn [ticks].
  - split; [exact Hm|]. repeat split; auto; lia.
  - destruct (tick_settling m Hm) as (H1 & H2 & H3 & H4 & _).
    destruct (IH _ H1) as (I1 & I2 & I3 & I4).
    rewrite H2 in *. split; [exact I1|]. repeat split; auto; lia.
Qed.

Lemma ticks_arrive n : forall m,
  settling m -> (Z.to_nat (ticks_left m) <= n)%nat ->
  offset (ticks n m) = targetOffset m /\ animating (ticks n m) = false.
Proof.
  induction n as [|n IH]; intros m Hm Hn.
  - cbn [ticks]. unfold ticks_left in Hn.
    destruct (animating m) eqn:Ha; [lia|].
    split; auto. apply Hm; auto.
  - cbn [ticks].
    destruct (tick_settling m Hm) as (H1 & H2 & _ & _ & H5).
    rewrite <- H2. apply IH; auto.
    unfold ticks_left in *. rewrite H2.
    destruct (animating m) eqn:Ha.
    + destruct (H5 eq_refl) as [E|E].
      * rewrite E. lia.
      * destruct (animating (fst (tick m))); lia.
    + rewrite (tick_idle m Ha). cbn [fst]. rewrite Ha. lia.
Qed.

(** C1.  While animating, a tick moves the offset by a fifth of the distance
    to the target, truncated toward zero, or by one line when that is zero, and
    never past the target; from every offset of the viewport and for every
    legal target the ticks move the offset monotonically, never beyond the
    target, and after at most [max 1 |targetOffset - offset|] of them the
    offset is the target and the animation has stopped. *)
Theorem scroll_ticks_reach_target (m : model) :
  sized m ->
  animating m = true ->
  0 <= offset m <= viewport.maxYOffset (view m) ->
  0 <= targetOffset m <= maxOffset m ->
  let tgt := targetOffset m in
  (offset m <> tgt ->
   let o' := offset m + ease_step (tgt - offset m) in
   offset (fst (tick m)) = o'
   /\ Z.min (offset m) tgt <= o' <= Z.max (offset m) tgt
   /\ Z.abs (tgt - o') < Z.abs (tgt - offset m)
   /\ animating (fst (tick m)) = negb (o' =? tgt)
   /\ snd (tick m) = (if o' =? tgt then CmdNil else scrollTicker))
  /\ (forall k,
        targetOffset (ticks k m) = tgt
        /\ (offset m <= tgt ->
            offset (ticks k m) <= offset (ticks (S k) m) <= tgt)
        /\ (tgt <= offset m ->
            tgt <= offset (ticks (S k) m) <= offset (ticks k m)))
  /\ (forall n,
        (Z.to_nat (Z.max 1 (Z.abs (tgt - offset m))) <= n)%nat ->
        offset (ticks n m) = tgt /\ animating (ticks n m) = false).
Proof.
  intros Hs Ha Ho Ht tgt.
  assert (Hm : settling m).
  { unfold settling. repeat split; try apply Hs; try lia.
    rewrite Ha. discriminate. }
  split; [|split].
  - intros Hne o'.
    destruct (tick_moving m) as (E1 & E2 & E3 & E4 & E5 & E6 & E7); auto.
    { unfold moving; auto. }
    pose proof (ease_step_pos (tgt - offset m)) as Hp.
    pose proof (ease_step_neg (tgt - offset m)) as Hn.
    fold tgt in E1, E6, E7. fold o' in E1, E6, E7.
    repeat split; auto; unfold o'; lia.
  - intros k.
    destruct (ticks_settling k m Hm) as (K1 & K2 & K3 & K4).
    destruct (tick_settling _ K1) as (_ & _ & T3 & T4 & _).
    assert (E : ticks (S k) m = fst (tick (ticks k m))).
    { clear. revert m. induction k as [|k IH]; intros m; [reflexivity|].
      change (ticks (S (S k)) m) with (ticks (S k) (fst (tick m))).
      rewrite IH. reflexivity. }
    rewrite E, K2 in *. fold tgt in T3, T4, K3, K4 |- *.
    assert (Hle : offset m <= tgt -> offset (ticks k m) <= tgt).
    { intros Hle. clear - Hm Hle. subst tgt. revert m Hm Hle.
      induction k as [|k IH]; intros m Hm Hle; cbn [ticks]; auto.
      destruct (tick_settling m Hm) as (H1 & H2 & H3 & _).
      rewrite <- H2. apply IH; auto. rewrite H2. apply H3; auto. }
    assert (Hge : tgt <= offset m -> tgt <= offset (ticks k m)).
    { intros Hge. clear - Hm Hge. subst tgt. revert m Hm Hge.
      induction k as [|k IH]; intros m Hm Hge; cbn [ticks]; auto.
      destruct (tick_settling m Hm) as (H1 & H2 & _ & H4 & _).
      rewrite <- H2. apply IH; auto. rewrite H2. apply H4; auto. }
    repeat split; auto; intros; lia.
  - intros n Hn. apply ticks_arrive; auto.
    unfold ticks_left. rewrite Ha. exact Hn.
Qed.

Lemma scroll_ticks_reach_target_witness :
  sized scrolling
  /\ animating scrolling = true
  /\ 0 <= offset scrolling <= viewport.maxYOffset (view scrolling)
  /\ 0 <= targetOffset scrolling <= maxOffset scrolling
  /\ offset (ticks 37 scrolling) = 37
  /\ animating (ticks 37 scrolling) = false.
Proof.
  assert (Hs : sized scrolling) by (vm_compute; intuition discriminate).
  assert (Ha : animating scrolling = true) by reflexivity.
  assert (Ho : 0 <= offset scrolling <= viewport.maxYOffset (view scrolling))
    by (vm_compute; intuition discriminate).
  assert (Ht : 0 <= targetOffset scrolling <= maxOffset scrolling)
    by (vm_compute; intuition discriminate).
  repeat (split; [assumption|]).
  destruct (scroll_ticks_reach_target scrolling Hs Ha Ho Ht) as (_ & _ & H).
  apply (H 37%nat). vm_compute. lia.
Defined.

(** ** The offset stays within its bounds *)

Lemma clamp_bounds v lo hi : lo <= hi -> lo <= clamp v lo hi <= hi.
Proof. intros H. unfold clamp. bool_cases; lia. Qed.

(** [SetYOffset] with a legal offset leaves a legal offset, whatever the
    number of lines the viewport holds. *)
Lemma SetYOffset_bounds v n hi :
  0 <= n <= hi ->
  0 <= viewport.YOffset (viewport.SetYOffset v n) <= hi
  /\ viewport.Height (viewport.SetYOffset v n) = viewport.Height v.
Proof.
  intros H. unfold viewport.SetYOffset, viewport.maxYOffset. cbn.
  rewrite max_Zmax. unfold clamp. bool_cases; lia.
Qed.

Lemma maxOffset_code m :
  0 <= height m < 2 ^ 63 -> 0 <= totalLines m < 2 ^ 63 ->
  max 0 (GoInt.sub (totalLines m) (viewport.Height (view m))) = maxOffset m.
Proof.
  intros Hh Ht. unfold maxOffset, height in *. unfold GoInt.sub.
  rewrite max_Zmax, wrap_id by lia. reflexivity.
Qed.

Lemma in_bounds_set_view m v n :
  in_bounds m -> 0 <= n <= maxOffset m ->
  v = viewport.SetYOffset (view m) n ->
  in_bounds (set_view m v)
  /\ totalLines (set_view m v) = totalLines m
  /\ height (set_view m v) = height m.
Proof.
  intros (Hh & Ht & Ho & Ha) Hn ->.
  destruct (SetYOffset_bounds (view m) n (maxOffset m) Hn) as (B1 & B2).
  unfold in_bounds, maxOffset, offset, height in *. cbn in B1 |- *.
  repeat split; auto; try lia; apply Ha; auto.
Qed.

Lemma startScrollTo_in_bounds m target :
  in_bounds m ->
  in_bounds (fst (startScrollTo m target))
  /\ totalLines (fst (startScrollTo m target)) = totalLines m
  /\ height (fst (startScrollTo m target)) = height m.
Proof.
  intros (Hh & Ht & Ho & Ha).
  unfold startScrollTo. rewrite maxOffset_code by auto.
  set (t1 := if target <? 0 then 0 else target).
  set (t2 := if t1 >? maxOffset m then maxOffset m else t1).
  assert (H2 : 0 <= t2 <= maxOffset m).
  { unfold t2, t1, maxOffset. bool_cases; lia. }
  clearbody t2. clear t1.
  unfold in_bounds, maxOffset, offset, height in *.
  destruct m as [raw v rd rl T ls hs li th ww e a tgt]; cbn in *.
  destruct (viewport.YOffset v =? t2); cbn; repeat split; auto; try lia;
    discriminate.
Qed.

Lemma tick_in_bounds m :
  in_bounds m ->
  in_bounds (fst (tick m))
  /\ totalLines (fst (tick m)) = totalLines m
  /\ height (fst (tick m)) = height m.
Proof.
  intros Hb. pose proof Hb as (Hh & Ht & Ho & Ha).
  unfold tick. destruct (animating m) eqn:Ea; cbn [negb fst]; auto.
  specialize (Ha eq_refl).
  fold (offset m).
  destruct (Z.eqb_spec (offset m) (targetOffset m)) as [E|E]; cbn [fst].
  - unfold in_bounds, maxOffset, offset, height in *.
    destruct m; cbn in *. repeat split; auto; try lia; discriminate.
  - assert (Hd : GoInt.sub (targetOffset m) (offset m)
                 = targetOffset m - offset m).
    { apply wrap_id. unfold maxOffset in *. lia. }
    rewrite Hd.
    assert (Hq : GoInt.quot (targetOffset m - offset m) 5
                 = Z.quot (targetOffset m - offset m) 5).
    { apply wrap_id. unfold maxOffset in *.
      Z.to_euclidean_division_equations. lia. }
    rewrite Hq.
    set (d := targetOffset m - offset m) in *.
    set (st := if Z.quot d 5 =? 0 then if d >? 0 then 1 else -1
               else Z.quot d 5).
    assert (Hst : st = ease_step d).
    { unfold st, ease_step. destruct (Z.eqb_spec (Z.quot d 5) 0); auto.
      destruct (Z.gtb_spec d 0); lia. }
    pose proof (ease_step_pos d) as Hp.
    pose proof (ease_step_neg d) as Hn.
    rewrite <- Hst in Hp, Hn. clearbody st.
    assert (Hadd : GoInt.add (offset m) st = offset m + st).
    { apply wrap_id. unfold maxOffset in *. lia. }
    rewrite Hadd.
    set (new := if ((d >? 0) && (offset m + st >? targetOffset m))
                  || ((d <? 0) && (offset m + st <? targetOffset m))
                then targetOffset m else offset m + st).
    assert (Hnew : 0 <= new <= maxOffset m).
    { unfold new. destruct (_ || _); unfold maxOffset in *; lia. }
    clearbody new.
    destruct (in_bounds_set_view m _ new Hb Hnew eq_refl) as (I1 & I2 & I3).
    destruct (new =? targetOffset m); cbn [negb fst]; auto.
    set (m' := set_view m (viewport.SetYOffset (view m) new)) in *.
    clearbody m'.
    unfold in_bounds, maxOffset, offset, height in *.
    destruct m'; cbn in *. repeat split; auto; try lia; discriminate.
Qed.

Lemma index_in_range {A} (xs : list A) i :
  0 <= i < Z.of_nat (List.length xs) -> exists x, index xs i = Ok x.
Proof.
  intros H. unfold index.
  destruct (Z.ltb_spec i 0); [lia|].
  destruct (Z.geb_spec i (Z.of_nat (List.length xs))); [lia|]. cbn.
  destruct (nth_error xs (Z.to_nat i)) eqn:E; eauto.
  apply nth_error_None in E. lia.
Qed.

Lemma scrollToLink_in_bounds m :
  in_bounds m ->
  exists m', scrollToLink m = Ok m'
             /\ in_bounds m'
             /\ totalLines m' = totalLines m /\ height m' = height m
             /\ links m' = links m /\ linkIndex m' = linkIndex m.
Proof.
  intros Hb. pose proof Hb as (Hh & Ht & Ho & Ha).
  unfold scrollToLink.
  destruct (Z.ltb_spec (linkIndex m) 0); cbn [orb]; [eauto 10|].
  destruct (Z.geb_spec (linkIndex m) (nlinks m)); [eauto 10|].
  destruct (index_in_range (links m) (linkIndex m)) as (l & El).
  { unfold nlinks in *. lia. }
  rewrite El. cbn [bind].
  destruct (link_renderedLine l <? 0); [eauto 10|].
  fold (height m).
  assert (Hs : GoInt.sub (totalLines m) (height m) = totalLines m - height m).
  { apply wrap_id. lia. }
  rewrite Hs.
  set (t0 := GoInt.sub (link_renderedLine l) (GoInt.quot (height m) 2)).
  clearbody t0.
  set (t1 := if t0 <? 0 then 0 else t0).
  set (t2 := if t1 >? totalLines m - height m
             then totalLines m - height m else t1).
  set (t3 := if t2 <? 0 then 0 else t2).
  assert (H3 : 0 <= t3 <= maxOffset m).
  { unfold t3, t2, t1, maxOffset. bool_cases; lia. }
  clearbody t3.
  destruct (in_bounds_set_view m _ t3 Hb H3 eq_refl) as (I1 & I2 & I3).
  eexists. split; [reflexivity|]. split; [exact I1|]. auto.
Qed.

Lemma jump_in_bounds m line :
  in_bounds m ->
  in_bounds (jump m line)
  /\ totalLines (jump m line) = totalLines m
  /\ height (jump m line) = height m.
Proof.
  intros Hb. pose proof Hb as (Hh & Ht & Ho & Ha).
  unfold jump. rewrite maxOffset_code by auto.
  apply in_bounds_set_view with (n := clamp line 0 (maxOffset m)); auto.
  apply clamp_bounds. unfold maxOffset. lia.
Qed.

Lemma followLink_in_bounds m l :
  in_bounds m ->
  in_bounds (fst (followLink m l))
  /\ totalLines (fst (followLink m l)) = totalLines m
  /\ height (fst (followLink m l)) = height m.
Proof.
  intros Hb. unfold followLink.
  destruct (is_empty _); cbn [fst]; auto.
  destruct (strings.HasPrefix _ _); cbn [fst]; auto.
  destruct (followLink_loop _ _); cbn [fst].
  - apply jump_in_bounds; auto.
  - destruct (_ >=? 0); cbn [fst]; auto. apply jump_in_bounds; auto.
Qed.

Lemma in_bounds_set_linkIndex m i :
  in_bounds m ->
  in_bounds (set_linkIndex m i)
  /\ totalLines (set_linkIndex m i) = totalLines m
  /\ height (set_linkIndex m i) = height m.
Proof. intros H. split; [exact H|]. split; reflexivity. Qed.

Lemma select_in_bounds m (ri : result Z) :
  in_bounds m -> (exists i, ri = Ok i) ->
  exists s,
    bind ri (fun i => bind (scrollToLink (set_linkIndex m i)) still) = Ok s
    /\ in_bounds (next s)
    /\ totalLines (next s) = totalLines m /\ height (next s) = height m.
Proof.
  intros Hb (i & ->). cbn [bind].
  destruct (in_bounds_set_linkIndex m i Hb) as (B1 & B2 & B3).
  destruct (scrollToLink_in_bounds _ B1) as (m' & E & I1 & I2 & I3 & _).
  rewrite E. cbn [bind]. unfold still. eexists. split; [reflexivity|].
  cbn [next]. rewrite I2, I3. auto.
Qed.

Lemma modulo_ok a b : b > 0 -> exists i, modulo a b = Ok i.
Proof.
  intros H. unfold modulo. destruct (Z.eqb_spec b 0); [lia|]. eauto.
Qed.

Lemma Update_navigation render m msg :
  in_bounds m -> navigation msg = true ->
  exists s, Update render m msg = Ok s
            /\ in_bounds (next s)
            /\ totalLines (next s) = totalLines m
            /\ height (next s) = height m.
Proof.
  intros Hb Hn.
  assert (Hstill : exists s, still m = Ok s /\ in_bounds (next s)
                    /\ totalLines (next s) = totalLines m
                    /\ height (next s) = height m).
  { unfold still. eexists. split; [reflexivity|]. cbn [next]. auto. }
  assert (Hscroll : forall t, exists s, scroll m t = Ok s /\ in_bounds (next s)
                    /\ totalLines (next s) = totalLines m
                    /\ height (next s) = height m).
  { intros t. unfold scroll.
    pose proof (startScrollTo_in_bounds m t Hb) as H.
    destruct (startScrollTo m t) as [m' c]. cbn [fst] in H.
    eexists. split; [reflexivity|]. exact H. }
  destruct msg as [w h|k|]; cbn [navigation] in Hn; try discriminate.
  - unfold Update.
    destruct (key_is k (str "q") || key_is k (str "Q")).
    { eexists. split; [reflexivity|]. cbn [next]. auto. }
    destruct k; try discriminate; auto;
      try (eexists; split; [reflexivity|]; cbn [next]; now auto).
    + (* Tab *)
      destruct (Z.gtb_spec (nlinks m) 0); auto.
      apply select_in_bounds; auto.
      destruct (linkIndex m =? -1); eauto. apply modulo_ok. lia.
    + (* Shift-Tab *)
      destruct (Z.gtb_spec (nlinks m) 0); auto.
      apply select_in_bounds; auto.
      destruct (linkIndex m =? -1); eauto. apply modulo_ok. lia.
    + (* Enter *)
      destruct (Z.geb_spec (linkIndex m) 0); cbn [andb]; auto.
      destruct (Z.ltb_spec (linkIndex m) (nlinks m)); auto.
      destruct (index_in_range (links m) (linkIndex m)) as (l & El).
      { unfold nlinks in *. lia. }
      rewrite El. cbn [bind].
      pose proof (followLink_in_bounds m l Hb) as Hf.
      destruct (followLink m l) as [m' u]. cbn [fst] in Hf.
      eexists. split; [reflexivity|]. exact Hf.
  - unfold Update.
    pose proof (tick_in_bounds m Hb) as Hf.
    destruct (tick m) as [m' c]. cbn [fst] in Hf.
    eexists. split; [reflexivity|]. exact Hf.
Qed.

(** C2.  From a model whose offset is legal (and whose animation, if one is
    under way, has a legal target), every sequence of scroll requests, ticks,
    link selections and link follows runs without a panic, leaves the number
    of lines [T] and the height [H] as they are, and ends with
    [0 <= offset <= max(0, T - H)]. *)
Theorem offset_stays_in_bounds
  (render : gostring -> Z -> gostring -> gostring + gostring)
  (m : model) (msgs : list Msg) :
  in_bounds m ->
  forallb navigation msgs = true ->
  exists m',
    run render m msgs = Ok m'
    /\ totalLines m' = totalLines m
    /\ height m' = height m
    /\ 0 <= offset m' <= Z.max 0 (totalLines m - height m).
Proof.
  revert m. induction msgs as [|msg rest IH]; intros m Hb Hn.
  - exists m. cbn [run]. repeat split; auto; apply Hb.
  - cbn [forallb] in Hn. apply andb_prop in Hn. destruct Hn as [Hn Hr].
    destruct (Update_navigation render m msg Hb Hn) as (s & E & B & ET & EH).
    destruct (IH (next s) B Hr) as (m' & R & RT & RH & RO).
    exists m'. cbn [run]. rewrite E. cbn [bind].
    rewrite <- ET, <- EH. auto.
Qed.

Lemma offset_stays_in_bounds_witness :
  in_bounds hundred_lines
  /\ exists m',
       run plain_render hundred_lines
         [KeyMsg KeyPgDown; scrollTick; scrollTick; KeyMsg KeyTab;
          KeyMsg KeyEnter; KeyMsg KeyUp; scrollTick] = Ok m'
       /\ 0 <= offset m' <= 90.
Proof.
  assert (Hb : in_bounds hundred_lines) by (vm_compute; intuition discriminate).
  split; [exact Hb|].
  destruct (offset_stays_in_bounds plain_render hundred_lines
              [KeyMsg KeyPgDown; scrollTick; scrollTick; KeyMsg KeyTab;
               KeyMsg KeyEnter; KeyMsg KeyUp; scrollTick] Hb eq_refl)
    as (m' & R & _ & _ & O).
  exists m'. split; [exact R|exact O].
Defined.

(** ** Link selection *)

Lemma same_index_refl m : same_index m m.
Proof. repeat split. Qed.

Lemma same_index_trans m1 m2 m3 :
  same_index m1 m2 -> same_index m2 m3 -> same_index m1 m3.
Proof.
  unfold same_index. intros (A1 & A2 & A3 & A4) (B1 & B2 & B3 & B4).
  repeat split; congruence.
Qed.

Lemma startScrollTo_same m t : same_index m (fst (startScrollTo m t)).
Proof.
  unfold startScrollTo. cbv zeta.
  match goal with |- context [if ?b then _ else _] => destruct b end;
    repeat split.
Qed.

Lemma tick_same m : same_index m (fst (tick m)).
Proof.
  unfold tick. cbv zeta.
  repeat match goal with
         | |- context [if ?b then _ else _] => destruct b
         end; repeat split.
Qed.

Lemma scrollToLink_ok m :
  exists m', scrollToLink m = Ok m' /\ same_index m m'.
Proof.
  unfold scrollToLink.
  destruct (Z.ltb_spec (linkIndex m) 0); cbn [orb].
  { eexists; split; [reflexivity|apply same_index_refl]. }
  destruct (Z.geb_spec (linkIndex m) (nlinks m)).
  { eexists; split; [reflexivity|apply same_index_refl]. }
  destruct (index_in_range (links m) (linkIndex m)) as (l & El).
  { unfold nlinks in *. lia. }
  rewrite El. cbn [bind].
  destruct (link_renderedLine l <? 0);
    eexists; (split; [reflexivity|]); repeat split.
Qed.

Lemma followLink_same m l : same_index m (fst (followLink m l)).
Proof.
  unfold followLink.
  repeat match goal with
         | |- context [if ?b then _ else _] => destruct b
         | |- context [match ?o with Some _ => _ | None => _ end] => destruct o
         end; repeat split.
Qed.

(** One step of the selection: the index [Update] computes, then the jump. *)
Lemma select_ok m i :
  exists s,
    bind (scrollToLink (set_linkIndex m i)) still = Ok s
    /\ linkIndex (next s) = i
    /\ links (next s) = links m
    /\ rawMarkdown (next s) = rawMarkdown m
    /\ headings (next s) = headings m
    /\ cmd s = CmdNil /\ opened s = None.
Proof.
  destruct (scrollToLink_ok (set_linkIndex m i)) as (m' & E & S1 & S2 & S3 & S4).
  rewrite E. cbn [bind]. unfold still. eexists. split; [reflexivity|].
  cbn [next cmd opened]. cbn in S1, S2, S3, S4. auto 10.
Qed.

Lemma Update_Tab render m :
  0 < nlinks m < 2 ^ 62 -> linkIndex_ok m ->
  exists s,
    Update render m (KeyMsg KeyTab) = Ok s
    /\ linkIndex (next s)
       = (if linkIndex m =? -1 then 0 else (linkIndex m + 1) mod nlinks m)
    /\ links (next s) = links m
    /\ rawMarkdown (next s) = rawMarkdown m.
Proof.
  intros HN Hi. cbn [Update key_is orb].
  destruct (Z.gtb_spec (nlinks m) 0); [|lia].
  destruct (Z.eqb_spec (linkIndex m) (-1)) as [E|E]; cbn [bind].
  - destruct (select_ok m 0) as (s & Es & I1 & I2 & I3 & _). eauto.
  - unfold modulo. destruct (Z.eqb_spec (nlinks m) 0); [lia|]. cbn [bind].
    destruct (select_ok m (GoInt.rem (GoInt.add (linkIndex m) 1) (nlinks m)))
      as (s & Es & I1 & I2 & I3 & _).
    exists s. split; [exact Es|]. split; [|split; [exact I2|exact I3]].
    rewrite I1. unfold GoInt.rem, GoInt.add. destruct Hi as [Hi|Hi]; [lia|].
    rewrite wrap_id by lia. rewrite Z.rem_mod_nonneg by lia. reflexivity.
Qed.

Lemma Update_ShiftTab render m :
  0 < nlinks m < 2 ^ 62 -> linkIndex_ok m ->
  exists s,
    Update render m (KeyMsg KeyShiftTab) = Ok s
    /\ linkIndex (next s)
       = (if linkIndex m =? -1 then nlinks m - 1
          else (linkIndex m - 1) mod nlinks m)
    /\ links (next s) = links m
    /\ rawMarkdown (next s) = rawMarkdown m.
Proof.
  intros HN Hi. cbn [Update key_is orb].
  destruct (Z.gtb_spec (nlinks m) 0); [|lia].
  destruct (Z.eqb_spec (linkIndex m) (-1)) as [E|E]; cbn [bind].
  - destruct (select_ok m (GoInt.sub (nlinks m) 1))
      as (s & Es & I1 & I2 & I3 & _).
    exists s. split; [exact Es|]. split; [|split; [exact I2|exact I3]].
    rewrite I1. apply wrap_id. lia.
  - unfold modulo. destruct (Z.eqb_spec (nlinks m) 0); [lia|]. cbn [bind].
    destruct (select_ok m
                (GoInt.rem (GoInt.add (GoInt.sub (linkIndex m) 1) (nlinks m))
                   (nlinks m))) as (s & Es & I1 & I2 & I3 & _).
    exists s. split; [exact Es|]. split; [|split; [exact I2|exact I3]].
    rewrite I1. unfold GoInt.rem, GoInt.add, GoInt.sub.
    destruct Hi as [Hi|Hi]; [lia|].
    rewrite (wrap_id (linkIndex m - 1)) by lia.
    rewrite wrap_id by lia. rewrite Z.rem_mod_nonneg by lia.
    replace (linkIndex m - 1 + nlinks m)
      with (linkIndex m - 1 + 1 * nlinks m) by lia.
    apply Z.mod_add. lia.
Qed.

Lemma Update_no_links render m k :
  nlinks m = 0 -> k = KeyTab \/ k = KeyShiftTab ->
  Update render m (KeyMsg k) = Ok (mkStep m CmdNil None).
Proof.
  intros HN [-> | ->]; cbn [Update key_is orb]; rewrite HN; reflexivity.
Qed.

Lemma run_app render msgs1 : forall m msgs2,
  run render m (msgs1 ++ msgs2)
  = bind (run render m msgs1) (fun m' => run render m' msgs2).
Proof.
  induction msgs1 as [|msg rest IH]; intros m msgs2; cbn [run app bind]; auto.
  destruct (Update render m msg) as [s|]; cbn [bind]; auto.
Qed.

Lemma KeyTabs_from_selected render n : forall m,
  0 < nlinks m < 2 ^ 62 -> 0 <= linkIndex m < nlinks m ->
  exists m',
    run render m (KeyTabs n) = Ok m'
    /\ linkIndex m' = (linkIndex m + Z.of_nat n) mod nlinks m
    /\ links m' = links m.
Proof.
  induction n as [|n IH]; intros m HN Hi.
  - exists m. cbn. rewrite Z.add_0_r, Z.mod_small by lia. auto.
  - destruct (Update_Tab render m HN (or_intror Hi)) as (s & E & I1 & I2 & _).
    destruct (Z.eqb_spec (linkIndex m) (-1)); [lia|].
    assert (HN' : nlinks (next s) = nlinks m) by (unfold nlinks; rewrite I2; auto).
    destruct (IH (next s)) as (m' & R & J1 & J2).
    { rewrite HN'. exact HN. }
    { rewrite HN', I1. apply Z.mod_pos_bound. lia. }
    exists m'. cbn [KeyTabs repeat run]. rewrite E. cbn [bind].
    split; [exact R|]. split; [|congruence].
    rewrite J1, HN', I1, Z.add_mod_idemp_l by lia. f_equal. lia.
Qed.

Lemma KeyTabs_from_none render n m :
  0 < nlinks m < 2 ^ 62 -> linkIndex m = -1 ->
  exists m',
    run render m (KeyTabs (S n)) = Ok m'
    /\ linkIndex m' = Z.of_nat n mod nlinks m.
Proof.
  intros HN Hi.
  destruct (Update_Tab render m HN (or_introl Hi)) as (s & E & I1 & I2 & _).
  rewrite Hi in I1. cbn in I1.
  assert (HN' : nlinks (next s) = nlinks m) by (unfold nlinks; rewrite I2; auto).
  destruct (KeyTabs_from_selected render n (next s)) as (m' & R & J1 & _).
  { rewrite HN'. exact HN. }
  { rewrite HN', I1. lia. }
  exists m'. cbn [KeyTabs repeat run]. rewrite E. cbn [bind].
  split; [exact R|]. rewrite J1, HN', I1. reflexivity.
Qed.

(** C6, as the code has it.  With no links, Tab and Shift-Tab change nothing.
    With [N > 0] links, Tab from "none selected" selects index 0 and Shift-Tab
    selects index [N - 1]; from a selected index they go to the next and to
    the previous index modulo [N].  From "none selected", [N] Tabs in a row end
    on index [N - 1], and it takes [N + 1] of them to be back on index 0. *)
Theorem link_cycling
  (render : gostring -> Z -> gostring -> gostring + gostring) (m : model) :
  nlinks m < 2 ^ 62 ->
  linkIndex_ok m ->
  let N := nlinks m in
  (N = 0 ->
   Update render m (KeyMsg KeyTab) = Ok (mkStep m CmdNil None)
   /\ Update render m (KeyMsg KeyShiftTab) = Ok (mkStep m CmdNil None))
  /\ (0 < N ->
      (exists s, Update render m (KeyMsg KeyTab) = Ok s
                 /\ linkIndex (next s)
                    = if linkIndex m =? -1 then 0
                      else (linkIndex m + 1) mod N)
      /\ (exists s, Update render m (KeyMsg KeyShiftTab) = Ok s
                    /\ linkIndex (next s)
                       = if linkIndex m =? -1 then N - 1
                         else (linkIndex m - 1) mod N)
      /\ (linkIndex m = -1 ->
          (exists m', run render m (KeyTabs (Z.to_nat N)) = Ok m'
                      /\ linkIndex m' = N - 1)
          /\ (exists m', run render m (KeyTabs (S (Z.to_nat N))) = Ok m'
                         /\ linkIndex m' = 0))).
Proof.
  intros HN Hi N. subst N. split.
  - intros H0. split; apply Update_no_links; auto.
  - intros Hpos.
    assert (HN' : 0 < nlinks m < 2 ^ 62) by lia.
    split; [|split].
    + destruct (Update_Tab render m HN' Hi) as (s & E & I & _). eauto.
    + destruct (Update_ShiftTab render m HN' Hi) as (s & E & I & _). eauto.
    + intros Hnone. split.
      * destruct (KeyTabs_from_none render (Z.to_nat (nlinks m - 1)) m HN' Hnone)
          as (m' & R & I).
        replace (S (Z.to_nat (nlinks m - 1))) with (Z.to_nat (nlinks m)) in R
          by lia.
        exists m'. split; [exact R|]. rewrite I, Z2Nat.id by lia.
        apply Z.mod_small. lia.
      * destruct (KeyTabs_from_none render (Z.to_nat (nlinks m)) m HN' Hnone)
          as (m' & R & I).
        exists m'. split; [exact R|]. rewrite I, Z2Nat.id by lia.
        apply Z.mod_same. lia.
Qed.

(** C6 as stated fails: with two links, two Tabs from "none selected" end on
    index 1, not on index 0. *)
Lemma link_cycling_counterexample :
  nlinks two_links = 2 /\ linkIndex two_links = -1
  /\ exists m', run plain_render two_links (KeyTabs 2) = Ok m'
                /\ linkIndex m' = 1 /\ linkIndex m' <> 0.
Proof.
  split; [reflexivity|]. split; [reflexivity|].
  eexists. split; [vm_compute; reflexivity|]. cbn. split; [reflexivity|lia].
Qed.

Lemma link_cycling_witness :
  nlinks two_links < 2 ^ 62 /\ linkIndex_ok two_links
  /\ exists m', run plain_render two_links (KeyTabs 3) = Ok m'
                /\ linkIndex m' = 0.
Proof.
  assert (HN : nlinks two_links < 2 ^ 62) by (vm_compute; reflexivity).
  assert (Hi : linkIndex_ok two_links) by (left; reflexivity).
  split; [exact HN|]. split; [exact Hi|].
  destruct (link_cycling plain_render two_links HN Hi) as (_ & H).
  destruct H as (_ & _ & H); [vm_compute; reflexivity|].
  destruct (H eq_refl) as (_ & H3). exact H3.
Defined.

(** ** Unresolved positions *)

Lemma index_Ok_range {A} (xs : list A) i x :
  index xs i = Ok x -> 0 <= i < Z.of_nat (List.length xs).
Proof.
  unfold index. destruct (Z.ltb_spec i 0); cbn [orb]; [discriminate|].
  destruct (Z.geb_spec i (Z.of_nat (List.length xs))); [discriminate|]. lia.
Qed.

Lemma scrollToLink_unresolved m l :
  index (links m) (linkIndex m) = Ok l -> link_renderedLine l < 0 ->
  scrollToLink m = Ok m.
Proof.
  intros El Hl. pose proof (index_Ok_range _ _ _ El) as Hr.
  unfold scrollToLink, nlinks.
  destruct (Z.ltb_spec (linkIndex m) 0); [lia|].
  destruct (Z.geb_spec (linkIndex m) (Z.of_nat (List.length (links m))));
    [lia|].
  cbn [orb]. rewrite El. cbn [bind].
  destruct (Z.ltb_spec (link_renderedLine l) 0); [reflexivity|lia].
Qed.

Lemma followLink_loop_none hs anc :
  (forall h, In h hs -> anchor_matches h anc = false) ->
  followLink_loop hs anc = None.
Proof.
  induction hs as [|h rest IH]; intros H; cbn [followLink_loop]; auto.
  rewrite (H h) by (left; auto). apply IH. intros h' Hin. apply H. right; auto.
Qed.

Lemma HasPrefix_not_empty s p :
  strings.HasPrefix s (p :: nil) = true -> is_empty s = false.
Proof. destruct s; cbn; [discriminate|auto]. Qed.

Lemma Update_total render m msg : exists s, Update render m msg = Ok s.
Proof.
  destruct msg as [w h|k|].
  - cbn [Update]. unfold still. eauto.
  - unfold Update.
    destruct (key_is k (str "q") || key_is k (str "Q")); [eauto|].
    destruct k; unfold still, scroll;
      try (match goal with
           | |- context [startScrollTo ?m ?t] => destruct (startScrollTo m t)
           end); eauto.
    + destruct (nlinks m >? 0) eqn:E; [|eauto].
      destruct (linkIndex m =? -1); cbn [bind].
      * destruct (select_ok m 0) as (s & Es & _). eauto.
      * unfold modulo. destruct (Z.eqb_spec (nlinks m) 0); [lia|]. cbn [bind].
        match goal with
        | |- context [set_linkIndex m ?i] =>
            destruct (select_ok m i) as (s & Es & _)
        end. eauto.
    + destruct (nlinks m >? 0) eqn:E; [|eauto].
      destruct (linkIndex m =? -1); cbn [bind].
      * match goal with
        | |- context [set_linkIndex m ?i] =>
            destruct (select_ok m i) as (s & Es & _)
        end. eauto.
      * unfold modulo. destruct (Z.eqb_spec (nlinks m) 0); [lia|]. cbn [bind].
        match goal with
        | |- context [set_linkIndex m ?i] =>
            destruct (select_ok m i) as (s & Es & _)
        end. eauto.
    + destruct (Z.geb_spec (linkIndex m) 0); cbn [andb]; [|eauto].
      destruct (Z.ltb_spec (linkIndex m) (nlinks m)); [|eauto].
      destruct (index_in_range (links m) (linkIndex m)) as (l & El).
      { unfold nlinks in *. lia. }
      rewrite El. cbn [bind]. destruct (followLink m l). eauto.
  - cbn [Update]. destruct (tick m). eauto.
Qed.

(** C7.  A selection whose link has no resolved line leaves the viewport as
    it is; following an anchor link that matches no heading and has no resolved
    line of its own changes nothing; and no message makes [Update] panic. *)
Theorem unresolved_is_quiet
  (render : gostring -> Z -> gostring -> gostring + gostring) (m : model) :
  (forall k s l,
      k = KeyTab \/ k = KeyShiftTab ->
      Update render m (KeyMsg k) = Ok s ->
      index (links (next s)) (linkIndex (next s)) = Ok l ->
      link_renderedLine l < 0 ->
      view (next s) = view m /\ cmd s = CmdNil)
  /\ (forall l,
        index (links m) (linkIndex m) = Ok l ->
        link_renderedLine l < 0 ->
        let dest := strings.TrimSpace (link_target l) in
        strings.HasPrefix dest (str "#") = true ->
        (forall h, In h (headings m) ->
                   anchor_matches h (strings.TrimPrefix dest (str "#")) = false) ->
        scrollToLink m = Ok m
        /\ followLink m l = (m, None)
        /\ Update render m (KeyMsg KeyEnter) = Ok (mkStep m CmdNil None))
  /\ (forall msg, exists s, Update render m msg = Ok s).
Proof.
  split; [|split].
  - intros k s l Hk E El Hl.
    assert (Hsel : forall ri,
      bind ri (fun i => bind (scrollToLink (set_linkIndex m i)) still) = Ok s ->
      view (next s) = view m /\ cmd s = CmdNil).
    { intros [i|]; cbn [bind]; [|discriminate].
      destruct (scrollToLink_ok (set_linkIndex m i)) as (m' & E' & S1 & S2 & S3 & S4).
      rewrite E'. cbn [bind]. unfold still. intros [= <-]. cbn [next cmd] in *.
      rewrite S2, S4 in El.
      rewrite (scrollToLink_unresolved _ l El Hl) in E'.
      injection E' as <-. auto. }
    destruct Hk as [-> | ->]; cbn [Update key_is orb] in E;
      destruct (nlinks m >? 0); try (apply Hsel in E; exact E);
      unfold still in E; injection E as <-; auto.
  - intros l El Hl dest Hp Hnone.
    pose proof (index_Ok_range _ _ _ El) as Hr.
    assert (Hf : followLink m l = (m, None)).
    { unfold followLink. fold dest.
      rewrite (HasPrefix_not_empty _ _ Hp), Hp.
      rewrite (followLink_loop_none _ _ Hnone).
      destruct (Z.geb_spec (link_renderedLine l) 0); [lia|reflexivity]. }
    split; [apply (scrollToLink_unresolved m l El Hl)|].
    split; [exact Hf|].
    cbn [Update key_is orb]. unfold nlinks.
    destruct (Z.geb_spec (linkIndex m) 0); [|lia].
    destruct (Z.ltb_spec (linkIndex m) (Z.of_nat (List.length (links m))));
      [|lia].
    cbn [andb]. rewrite El. cbn [bind]. rewrite Hf. reflexivity.
  - apply Update_total.
Qed.

Lemma unresolved_is_quiet_witness :
  exists l,
    index (links unresolved_links) 0 = Ok l
    /\ link_renderedLine l < 0
    /\ (forall s,
          Update blank_render unresolved_links (KeyMsg KeyTab) = Ok s ->
          view (next s) = view unresolved_links).
Proof.
  exists (mkLink (str "here") (str "#nowhere") (-1)).
  split; [vm_compute; reflexivity|]. split; [reflexivity|].
  intros s E.
  destruct (unresolved_is_quiet blank_render unresolved_links) as (H & _).
  apply (H KeyTab s (mkLink (str "here") (str "#nowhere") (-1))
           (or_introl eq_refl) E); [|reflexivity].
  revert E. vm_compute. intros [= <-]. reflexivity.
Defined.

(** ** The selected link stays an index of the list *)








Lemma Update_other_keys render m k s :
  k <> KeyTab -> k <> KeyShiftTab ->
  Update render m (KeyMsg k) = Ok s -> same_index m (next s).
Proof.
  intros H1 H2 E. unfold Update in E.
  destruct (key_is k (str "q") || key_is k (str "Q")).
  { injection E as <-. apply same_index_refl. }
  destruct k; try congruence; unfold still, scroll in E;
    try (injection E as <-; apply same_index_refl);
    try (match type of E with
         | context [startScrollTo ?m ?t] =>
             pose proof (startScrollTo_same m t) as Hs;
             destruct (startScrollTo m t); injection E as <-; exact Hs
         end).
  - injection E as <-. repeat split.
  - injection E as <-. repeat split.
  - destruct ((linkIndex m >=? 0) && (linkIndex m <? nlinks m));
      [|injection E as <-; apply same_index_refl].
    destruct (index (links m) (linkIndex m)) as [l|]; [|discriminate].
    cbn [bind] in E. pose proof (followLink_same m l) as Hs.
    destruct (followLink m l). injection E as <-. exact Hs.
Qed.

Lemma Key_select_dec k : {k = KeyTab} + {k = KeyShiftTab}
                         + {k <> KeyTab /\ k <> KeyShiftTab}.
Proof.
  destruct k; try (right; split; discriminate);
    [left; left; reflexivity | left; right; reflexivity].
Qed.






(** ** Slugs *)

Lemma byte_of_inj c d : byte_of c = byte_of d -> c = d.
Proof.
  unfold byte_of. intros H. apply N2Z.inj in H.
  rewrite <- (ascii_N_embedding c), <- (ascii_N_embedding d). congruence.
Qed.

Lemma eqb_is_byte c d : Ascii.eqb c d = is_byte (byte_of d) c.
Proof.
  unfold is_byte. destruct (Ascii.eqb_spec c d) as [->|N].
  - symmetry. apply Z.eqb_refl.
  - symmetry. apply Z.eqb_neq. intros H. apply N, byte_of_inj, H.
Qed.

(** Tests on a byte become arithmetic on its value. *)
Ltac byte_cases :=
  unfold slug_rune, slug_byte, strings.asciiSpace, re_space, is_LF,
    in_class, is_byte in *;
  repeat match goal with
    | H : context [Ascii.eqb ?c ?d] |- _ => rewrite (eqb_is_byte c d) in H;
        unfold is_byte in H; cbn [byte_of] in H
    | |- context [Ascii.eqb ?c ?d] => rewrite (eqb_is_byte c d);
        unfold is_byte
    end;
  repeat match goal with
    | H : context [?a =? ?b] |- _ => destruct (Z.eqb_spec a b)
    | H : context [?a <=? ?b] |- _ => destruct (Z.leb_spec a b)
    | |- context [?a =? ?b] => destruct (Z.eqb_spec a b)
    | |- context [?a <=? ?b] => destruct (Z.leb_spec a b)
    end;
  cbn in *; try reflexivity; try discriminate; try lia.

Lemma slug_byte_not_space c : slug_byte c = true -> strings.asciiSpace c = false.
Proof. intros H. byte_cases. Qed.

Lemma slug_rune_replaced c :
  slug_rune c = true ->
  slug_byte (if Ascii.eqb c " " then "-"%char else c) = true.
Proof.
  intros H. destruct (Ascii.eqb_spec c " ") as [->|N]; [reflexivity|].
  assert (byte_of c <> 32).
  { intros E. apply N, byte_of_inj. exact E. }
  byte_cases.
Qed.

Lemma Fields_from_no_space r : forall cur,
  forallb slug_byte r = true ->
  strings.Fields_from cur r
  = if is_empty (rev cur ++ r) then [] else [rev cur ++ r].
Proof.
  induction r as [|c t IH]; intros cur H; cbn [strings.Fields_from].
  - rewrite app_nil_r. destruct cur as [|x cur]; [reflexivity|].
    cbn [rev]. destruct (rev cur); reflexivity.
  - cbn [forallb] in H. apply andb_prop in H. destruct H as [Hc Ht].
    rewrite (slug_byte_not_space c Hc), (IH _ Ht). cbn [rev].
    rewrite <- app_assoc. cbn [app]. destruct (rev cur); reflexivity.
Qed.

Lemma Join_Fields_no_space r :
  forallb slug_byte r = true ->
  strings.Join (strings.Fields r) (str "-") = r.
Proof.
  intros H. unfold strings.Fields. rewrite Fields_from_no_space by auto.
  cbn [rev app]. destruct r; reflexivity.
Qed.

Lemma replaced_slug_bytes s :
  forallb slug_byte
    (strings.ReplaceAll (filter slug_rune s) " "%char "-"%char) = true.
Proof.
  unfold strings.ReplaceAll. induction s as [|c t IH]; [reflexivity|].
  cbn [filter]. destruct (slug_rune c) eqn:E; [|exact IH].
  cbn [map forallb]. rewrite (slug_rune_replaced c E), IH. reflexivity.
Qed.

(** [Fields] finds no white space to split at, since the spaces have been
    replaced before it runs. *)
Lemma slugify_unfold s :
  slugify s
  = strings.Trim
      (strings.ReplaceAll (filter slug_rune (strings.ToLower s))
         " "%char "-"%char) "-"%char.
Proof.
  unfold slugify. rewrite Join_Fields_no_space; [reflexivity|].
  apply replaced_slug_bytes.
Qed.

Lemma TrimLeftBytes_split p s :
  exists pre, s = pre ++ strings.TrimLeftBytes p s.
Proof.
  induction s as [|c t (pre & IH)]; [exists []; reflexivity|].
  cbn [strings.TrimLeftBytes]. destruct (p c).
  - exists (c :: pre). cbn [app]. f_equal. exact IH.
  - exists []. reflexivity.
Qed.

Lemma TrimLeftBytes_head p s c t :
  strings.TrimLeftBytes p s = c :: t -> p c = false.
Proof.
  induction s as [|x s IH]; cbn [strings.TrimLeftBytes]; [discriminate|].
  destruct (p x) eqn:E; [exact IH|]. intros [= <- <-]. exact E.
Qed.

Lemma TrimRightBytes_split p s :
  exists post, s = strings.TrimRightBytes p s ++ post.
Proof.
  unfold strings.TrimRightBytes.
  destruct (TrimLeftBytes_split p (rev s)) as (pre & E).
  exists (rev pre). rewrite <- rev_app_distr, <- E, rev_involutive. reflexivity.
Qed.

Lemma forallb_app_l {A} (f : A -> bool) a b :
  forallb f (a ++ b) = true -> forallb f a = true.
Proof. rewrite forallb_app. intros H. apply andb_prop in H. apply H. Qed.

Lemma forallb_app_r {A} (f : A -> bool) a b :
  forallb f (a ++ b) = true -> forallb f b = true.
Proof. rewrite forallb_app. intros H. apply andb_prop in H. apply H. Qed.

Lemma Trim_forallb f s cut :
  forallb f s = true -> forallb f (strings.Trim s cut) = true.
Proof.
  intros H. unfold strings.Trim.
  destruct (TrimLeftBytes_split (Ascii.eqb cut) s) as (pre & E1).
  destruct (TrimRightBytes_split (Ascii.eqb cut)
              (strings.TrimLeftBytes (Ascii.eqb cut) s)) as (post & E2).
  rewrite E1 in H. apply forallb_app_r in H. rewrite E2 in H.
  apply forallb_app_l in H. exact H.
Qed.

Lemma Trim_ends s cut :
  strings.HasPrefix (strings.Trim s cut) [cut] = false
  /\ HasSuffix (strings.Trim s cut) [cut] = false.
Proof.
  unfold strings.Trim, HasSuffix. split.
  - destruct (TrimRightBytes_split (Ascii.eqb cut)
                (strings.TrimLeftBytes (Ascii.eqb cut) s)) as (post & E).
    destruct (strings.TrimRightBytes _ _) as [|c t] eqn:Ev; [reflexivity|].
    cbn [app] in E. apply TrimLeftBytes_head in E.
    cbn [strings.HasPrefix]. rewrite Ascii.eqb_sym, E. reflexivity.
  - unfold strings.TrimRightBytes. rewrite rev_involutive. cbn [rev app].
    destruct (strings.TrimLeftBytes _ (rev _)) as [|c t] eqn:Ev; [reflexivity|].
    apply TrimLeftBytes_head in Ev.
    cbn [strings.HasPrefix]. rewrite Ascii.eqb_sym, Ev. reflexivity.
Qed.

Lemma ToLower_slug_bytes s :
  forallb slug_byte s = true -> strings.ToLower s = s.
Proof.
  induction s as [|c t IH]; [reflexivity|]. cbn [forallb]. intros H.
  apply andb_prop in H. destruct H as [Hc Ht]. cbn [strings.ToLower].
  rewrite (IH Ht).
  assert (E1 : in_class 65 90 c = false) by byte_cases.
  assert (E2 : is_byte 0xC4 c = false) by byte_cases.
  assert (E3 : is_byte 0xE2 c = false) by byte_cases.
  rewrite E1. destruct t as [|c2 [|c3 t3]]; rewrite ?E2, ?E3; reflexivity.
Qed.

Lemma filter_slug_bytes s :
  forallb slug_byte s = true ->
  strings.ReplaceAll (filter slug_rune s) " "%char "-"%char = s.
Proof.
  unfold strings.ReplaceAll. induction s as [|c t IH]; [reflexivity|].
  cbn [forallb]. intros H. apply andb_prop in H. destruct H as [Hc Ht].
  cbn [filter].
  assert (E1 : slug_rune c = true) by byte_cases.
  assert (E2 : Ascii.eqb c " " = false) by byte_cases.
  rewrite E1. cbn [map]. rewrite E2, (IH Ht). reflexivity.
Qed.




(** ** Following an anchor link *)

Lemma gostring_eqb_eq a : forall b, gostring_eqb a b = true <-> a = b.
Proof.
  induction a as [|x a IH]; intros [|y b]; cbn [gostring_eqb];
    try (split; [discriminate|discriminate]); [tauto|].
  rewrite andb_true_iff, IH. destruct (Ascii.eqb_spec x y) as [->|N].
  - split; [intros [_ ->]; reflexivity|intros [= ->]; auto].
  - split; [intros [H _]; discriminate|intros [= E _]; contradiction].
Qed.

Lemma followLink_loop_first hs anc :
  followLink_loop hs anc = first_resolved hs anc.
Proof.
  unfold first_resolved. induction hs as [|h rest IH]; [reflexivity|].
  cbn [followLink_loop find].
  destruct (anchor_matches h anc); cbn [andb]; [|exact IH].
  destruct (heading_renderedLine h >=? 0); [reflexivity|exact IH].
Qed.

(** C3, as the code has it.  For a link whose target, white space trimmed,
    begins with a number sign, the anchor is the rest of the target; a heading
    matches when its anchor is the anchor of the link, or the slug of its text
    is, or its anchor is the slug of the anchor of the link; the viewport
    jumps to the first heading of the list that matches and has a resolved
    line, else to the line of the link if resolved, else nowhere.  A heading
    with anchor "intro" and text "Introduction" matches "#intro" and
    "#INTRO"; it does not match "#Introduction". *)
Theorem anchor_resolution (m : model) (l : link) :
  let dest := strings.TrimSpace (link_target l) in
  let anc := strings.TrimPrefix dest (str "#") in
  strings.HasPrefix dest (str "#") = true ->
  followLink m l
  = match first_resolved (headings m) anc with
    | Some h => (jump m (heading_renderedLine h), None)
    | None =>
        if link_renderedLine l >=? 0
        then (jump m (link_renderedLine l), None)
        else (m, None)
    end
  /\ (forall h,
        anchor_matches h anc = true
        <-> heading_anchor h = anc
            \/ slugify (heading_text h) = anc
            \/ slugify anc = heading_anchor h)
  /\ (forall line,
        let h := mkHeading (str "Introduction") (str "intro") line in
        anchor_matches h (str "intro") = true
        /\ anchor_matches h (str "INTRO") = true
        /\ anchor_matches h (str "Introduction") = false).
Proof.
  intros dest anc Hp. split; [|split].
  - unfold followLink. fold dest. fold anc.
    rewrite (HasPrefix_not_empty _ _ Hp), Hp, followLink_loop_first.
    reflexivity.
  - intros h. unfold anchor_matches.
    rewrite !orb_true_iff, !gostring_eqb_eq. tauto.
  - intros line h. repeat split; reflexivity.
Qed.

(** C3 as stated fails: "#Introduction" does not resolve to the heading with
    anchor "intro" and text "Introduction", while "#intro" and "#INTRO" do. *)
Lemma anchor_resolution_counterexample :
  headings intro_model = [intro_heading]
  /\ followLink intro_model (anchor_link "#Introduction") = (intro_model, None)
  /\ followLink intro_model (anchor_link "#intro") = (jump intro_model 5, None)
  /\ followLink intro_model (anchor_link "#INTRO") = (jump intro_model 5, None)
  /\ offset (jump intro_model 5) = 5
  /\ offset intro_model = 0.
Proof. repeat split; vm_compute; reflexivity. Qed.

Lemma anchor_resolution_witness :
  strings.HasPrefix
    (strings.TrimSpace (link_target (anchor_link "#INTRO"))) (str "#") = true
  /\ followLink intro_model (anchor_link "#INTRO") = (jump intro_model 5, None).
Proof.
  assert (Hp : strings.HasPrefix
                 (strings.TrimSpace (link_target (anchor_link "#INTRO")))
                 (str "#") = true) by reflexivity.
  split; [exact Hp|].
  destruct (anchor_resolution intro_model (anchor_link "#INTRO") Hp) as (E & _).
  rewrite E. reflexivity.
Defined.

(** ** The position resolver *)

Lemma HasPrefix_app s p :
  strings.HasPrefix s p = true <-> exists t, s = p ++ t.
Proof.
  revert s. induction p as [|x p IH]; intros s; cbn [strings.HasPrefix].
  - split; [intros _; exists s; reflexivity|destruct s; reflexivity].
  - destruct s as [|c s].
    + cbn [strings.HasPrefix].
      split; [discriminate|intros (t & E); discriminate].
    + cbn [strings.HasPrefix]. rewrite andb_true_iff, IH. split.
      * intros (Ec & t & ->). apply Ascii.eqb_eq in Ec. subst.
        exists t. reflexivity.
      * intros (t & E). injection E as -> ->.
        split; [apply Ascii.eqb_refl|exists t; reflexivity].
Qed.

(** [strings.Index] gives the start of the first occurrence, or -1. *)
Lemma Index_from_spec needle hay : forall pos,
  (strings.Index_from pos hay needle = -1
   /\ forall pre post, hay <> pre ++ needle ++ post)
  \/ (exists pre post,
        hay = pre ++ needle ++ post
        /\ strings.Index_from pos hay needle = pos + len pre
        /\ forall pre' post',
             hay = pre' ++ needle ++ post' ->
             (List.length pre <= List.length pre')%nat).
Proof.
  induction hay as [|c t IH]; intros pos; cbn [strings.Index_from].
  - destruct (strings.HasPrefix [] needle) eqn:E.
    + right. apply HasPrefix_app in E. destruct E as (t & E).
      exists [], t. unfold len. cbn [app List.length].
      repeat split; auto; try lia; intros; apply Nat.le_0_l.
    + left. split; [reflexivity|]. intros pre post H.
      destruct pre; [|discriminate]. cbn [app] in H.
      assert (strings.HasPrefix [] needle = true)
        by (apply HasPrefix_app; eauto).
      congruence.
  - destruct (strings.HasPrefix (c :: t) needle) eqn:E.
    + right. apply HasPrefix_app in E. destruct E as (t' & E).
      exists [], t'. unfold len. cbn [app List.length].
      repeat split; auto; try lia; intros; apply Nat.le_0_l.
    + assert (Hno : forall post, c :: t <> needle ++ post).
      { intros post H.
        assert (strings.HasPrefix (c :: t) needle = true)
          by (apply HasPrefix_app; eauto).
        congruence. }
      destruct (IH (pos + 1)) as [(R & N) | (pre & post & Eh & R & F)].
      * left. split; [exact R|]. intros [|x pre] post H.
        -- apply (Hno post H).
        -- injection H as _ H. apply (N _ _ H).
      * right. exists (c :: pre), post. split; [cbn [app]; congruence|].
        split.
        -- rewrite R. unfold len. cbn [List.length]. lia.
        -- intros [|x pre'] post' H.
           ++ exfalso. apply (Hno post' H).
           ++ injection H as _ H. specialize (F _ _ H). cbn [List.length]. lia.
Qed.

Lemma firstn_len_app {A} (a b : list A) :
  firstn (Z.to_nat (Z.of_nat (List.length a))) (a ++ b) = a.
Proof.
  rewrite Nat2Z.id, firstn_app, Nat.sub_diag, firstn_all. cbn [firstn].
  apply app_nil_r.
Qed.

Lemma app_same_length {A} (a : list A) : forall a' b b',
  List.length a = List.length a' -> a ++ b = a' ++ b' -> a = a'.
Proof.
  induction a as [|x a IH]; intros [|y a'] b b' L E; try discriminate;
    [reflexivity|].
  injection L as L. injection E as -> E. f_equal. eapply IH; eauto.
Qed.

Lemma indexLineOf_spec hay needle :
  (needle = [] -> indexLineOf hay needle = -1)
  /\ ((forall pre post, hay <> pre ++ needle ++ post) ->
      indexLineOf hay needle = -1)
  /\ (forall pre post,
        needle <> [] ->
        hay = pre ++ needle ++ post ->
        (forall pre' post',
            hay = pre' ++ needle ++ post' ->
            (List.length pre <= List.length pre')%nat) ->
        indexLineOf hay needle = bytes_Count pre LF).
Proof.
  split; [intros ->; reflexivity|]. split.
  - intros N. unfold indexLineOf. destruct needle; [reflexivity|].
    unfold strings.Index.
    destruct (Index_from_spec (a :: needle) hay 0)
      as [(R & _) | (pre & post & E & _)].
    + rewrite R. reflexivity.
    + exfalso. apply (N _ _ E).
  - intros pre post Hne E F. unfold indexLineOf.
    destruct needle as [|a needle]; [contradiction|].
    unfold strings.Index.
    destruct (Index_from_spec (a :: needle) hay 0)
      as [(_ & N) | (pre1 & post1 & E1 & R & F1)].
    + exfalso. apply (N _ _ E).
    + rewrite R. cbn [Z.add].
      assert (L : List.length pre1 = List.length pre).
      { specialize (F _ _ E1). specialize (F1 _ _ E). lia. }
      assert (P : pre1 = pre).
      { rewrite E in E1. symmetry. eapply app_same_length; eauto. }
      subst pre1. unfold len.
      destruct (Z.ltb_spec (Z.of_nat (List.length pre)) 0); [lia|].
      rewrite E, firstn_len_app. reflexivity.
Qed.

(** C5.  After the indexes are built, the line of every heading is that of
    its text and the line of every link is that of its text when the target
    begins with a number sign and of its target otherwise, in the rendered
    text without its control sequences; that line is -1 when the needle is
    empty or does not occur, and else the number of line feeds before the
    first occurrence. *)
Theorem position_resolver (m : model) :
  let plain := stripANSI (rendered m) in
  Forall (fun h => heading_renderedLine h = indexLineOf plain (heading_text h))
    (headings (buildIndexes m))
  /\ Forall (fun l =>
               link_renderedLine l
               = indexLineOf plain
                   (if strings.HasPrefix (link_target l) (str "#")
                    then link_text l else link_target l))
       (links (buildIndexes m))
  /\ (forall hay needle : gostring,
        (needle = [] -> indexLineOf hay needle = -1)
        /\ ((forall pre post, hay <> pre ++ needle ++ post) ->
            indexLineOf hay needle = -1)
        /\ (forall pre post,
              needle <> [] ->
              hay = pre ++ needle ++ post ->
              (forall pre' post',
                  hay = pre' ++ needle ++ post' ->
                  (List.length pre <= List.length pre')%nat) ->
              indexLineOf hay needle = bytes_Count pre LF)).
Proof.
  intros plain. split; [|split].
  - unfold buildIndexes. cbv zeta. cbn [headings set_indexes].
    apply Forall_forall. intros h Hin. apply in_map_iff in Hin.
    destruct Hin as (txt & <- & _). reflexivity.
  - unfold buildIndexes. cbv zeta. cbn [links set_indexes].
    apply Forall_forall. intros l Hin. apply in_map_iff in Hin.
    destruct Hin as ([text dest] & <- & _). unfold link_of.
    cbn [link_renderedLine link_target link_text].
    destruct (strings.HasPrefix dest (str "#")); reflexivity.
  - apply indexLineOf_spec.
Qed.

Lemma position_resolver_witness :
  rendered two_links
  = nl "# Title||See [here](#title) and [site](https://example.org).|"
  /\ map link_renderedLine (links two_links) = [2; 2]
  /\ map heading_renderedLine (headings two_links) = [0]
  /\ indexLineOf (rendered two_links) (str "here") = bytes_Count (nl "# Title||See [") LF.
Proof.
  split; [reflexivity|]. split; [reflexivity|]. split; [reflexivity|].
  destruct (position_resolver two_links) as (_ & _ & H).
  destruct (H (rendered two_links) (str "here")) as (_ & _ & H3).
  apply (H3 (nl "# Title||See [")
            (nl "](#title) and [site](https://example.org).|"));
    [discriminate|reflexivity|].
  intros pre' post' E.
  destruct (Nat.le_gt_cases 14 (List.length pre')) as [Hle|Hgt];
    [exact Hle|exfalso].
  do 14 (destruct pre' as [|? pre']; [discriminate E|]);
    cbn [List.length] in Hgt; lia.
Defined.

(** ** Heading extraction *)

(** C8 fails on the code: [\s] in [reHeading] matches a line feed, so a line
    with a number sign alone takes the next line as its text. *)
Example heading_extraction_crosses_lines :
  reHeading_FindAll 0 true (nl "#|foo") = [str "foo"]
  /\ map heading_text
       (headings (load plain_render (nl "#|foo") (str "notty") 0 80 24))
     = [str "foo"]
  /\ reHeading_FindAll 0 true (nl "# |# B") = [str "# B"].
Proof. repeat split; reflexivity. Qed.

(** ** The footer *)

#[local] Arguments Z.div : simpl never.
#[local] Arguments Z.mul : simpl nomatch.
#[local] Arguments Z.add : simpl nomatch.














Lemma overlay_length bar : forall start label,
  List.length (overlay bar start label) = List.length bar.
Proof.
  induction bar as [|r bar IH]; intros start label; [reflexivity|].
  cbn [overlay]. destruct start as [|k]; [|cbn [List.length]; auto].
  destruct label as [|x label]; [reflexivity|]. cbn [List.length]. auto.
Qed.

Lemma bar_cells_length width fill :
  0 <= fill <= width -> len_runes (bar_cells width fill) = width.
Proof.
  intros H. unfold len_runes, bar_cells.
  rewrite length_app, !repeat_length. lia.
Qed.

Lemma drawProgressBar_narrow width ratio label :
  0 <= width < 3 ->
  drawProgressBar width ratio label
  = Ok (repeat FULL_BLOCK (Z.to_nat width)).
Proof.
  intros H. unfold drawProgressBar, Repeat.
  destruct (Z.ltb_spec width 3); [|lia].
  destruct (Z.ltb_spec width 0); [lia|reflexivity].
Qed.

Lemma drawProgressBar_wide width ratio label :
  3 <= width < 2 ^ 63 -> 0 < len label ->
  let fill :=
    Z.min width
      (Z.max 0
         (float64.to_int (float64.mul (float64.of_int width) ratio))) in
  drawProgressBar width ratio label
  = Ok (if len label <? width
        then overlay (bar_cells width fill)
               (Z.to_nat ((width - len label) / 2)) (runes label)
        else bar_cells width fill).
Proof.
  intros Hw Hl fill. unfold drawProgressBar.
  destruct (Z.ltb_spec width 3); [lia|].
  set (f0 := float64.to_int _) in *.
  set (f1 := if f0 <? 0 then 0 else f0).
  set (f2 := if f1 >? width then width else f1).
  assert (E : f2 = fill).
  { unfold f2, f1, fill. bool_cases; lia. }
  rewrite E. clear f1 f2 E.
  assert (Hf : 0 <= fill <= width) by (unfold fill; lia).
  unfold Repeat. destruct (Z.ltb_spec fill 0); [lia|]. cbn [bind].
  assert (R : (if fill <? width
               then if GoInt.sub width fill <? 0 then Panic
                    else Ok (repeat LIGHT_SHADE
                               (Z.to_nat (GoInt.sub width fill)))
               else Ok [])
              = Ok (repeat LIGHT_SHADE (Z.to_nat (width - fill)))).
  { unfold GoInt.sub. rewrite wrap_id by lia.
    destruct (Z.ltb_spec fill width).
    - destruct (Z.ltb_spec (width - fill) 0); [lia|reflexivity].
    - replace (width - fill) with 0 by lia. reflexivity. }
  rewrite R. cbn [bind]. fold (bar_cells width fill).
  destruct (Z.gtb_spec (len label) 0); [|lia]. cbn [andb].
  destruct (Z.ltb_spec (len label) width); [|reflexivity].
  unfold GoInt.quot, GoInt.sub.
  rewrite (wrap_id (width - len label)) by lia.
  rewrite Z.quot_div_nonneg by lia.
  rewrite wrap_id; [reflexivity|].
  assert (0 <= (width - len label) / 2 <= width - len label).
  { split; [apply Z.div_pos; lia|].
    apply Z.div_le_upper_bound; lia. }
  lia.
Qed.








(** ** The sizes of the models the program reaches

    The hypotheses of the scroll properties hold in the program: the viewport
    holds the rendered text, whose lines [totalLines] counts after the
    trailing line feeds are cut, so it never has fewer lines. *)

Lemma Split_from_length sep s : forall cur,
  List.length (strings.Split_from cur s sep)
  = S (List.length (filter (Ascii.eqb sep) s)).
Proof.
  induction s as [|c t IH]; intros cur; cbn [strings.Split_from filter];
    [reflexivity|].
  rewrite (Ascii.eqb_sym sep c). destruct (Ascii.eqb c sep).
  - cbn [List.length]. rewrite IH. reflexivity.
  - apply IH.
Qed.

Lemma Split_TrimRight_length out :
  (List.length (strings.Split (strings.TrimRight out LF) LF)
   <= List.length (strings.Split out LF))%nat.
Proof.
  unfold strings.Split, strings.TrimRight. rewrite !Split_from_length.
  destruct (TrimRightBytes_split (Ascii.eqb LF) out) as (post & E).
  rewrite E at 2. rewrite filter_app, length_app. lia.
Qed.

Lemma SetYOffset_sizes v n :
  viewport.lines (viewport.SetYOffset v n) = viewport.lines v
  /\ viewport.Height (viewport.SetYOffset v n) = viewport.Height v.
Proof. split; reflexivity. Qed.

Lemma recalcRendered_sizes render m w h :
  0 <= totalLines m <= viewport.lines (view m) ->
  0 <= height m < 2 ^ 63 ->
  let m' := recalcRendered render m w h in
  0 <= totalLines m' <= viewport.lines (view m')
  /\ 0 <= height m' < 2 ^ 63.
Proof.
  intros HT Hh m'. unfold m', recalcRendered. cbv zeta.
  destruct (render _ _ _) as [out|e]; [|split; assumption].
  unfold buildIndexes. cbv zeta. unfold height.
  cbn [totalLines view set_indexes set_view set_rendered rendered].
  set (bh := if GoInt.sub h 2 <? 1 then 1 else GoInt.sub h 2).
  assert (Hb : 1 <= bh < 2 ^ 63).
  { unfold bh, GoInt.sub, GoInt.wrap.
    pose proof (Z.mod_pos_bound (h - 2 + 2 ^ 63) (2 ^ 64) ltac:(lia)).
    destruct (Z.ltb_spec ((h - 2 + 2 ^ 63) mod 2 ^ 64 - 2 ^ 63) 1); lia. }
  set (v := if negb (viewport.Width (view m) =? w)
               || negb (viewport.Height (view m) =? bh)
            then viewport.resize (view m) w bh else view m).
  assert (Hv : viewport.Height v = bh).
  { unfold v. destruct (Z.eqb_spec (viewport.Width (view m)) w);
      destruct (Z.eqb_spec (viewport.Height (view m)) bh); cbn; auto. }
  pose proof (Split_TrimRight_length out) as HL.
  unfold viewport.SetContent. cbv zeta. cbn [viewport.lines viewport.YOffset].
  match goal with |- context [if ?b then _ else _] => destruct b end;
    unfold viewport.GotoBottom;
    rewrite ?(proj1 (SetYOffset_sizes _ _)), ?(proj2 (SetYOffset_sizes _ _));
    cbn [viewport.lines viewport.Height]; rewrite Hv; lia.
Qed.

Lemma startScrollTo_sizes m t : same_sizes m (fst (startScrollTo m t)).
Proof.
  unfold startScrollTo. cbv zeta.
  match goal with |- context [if ?b then _ else _] => destruct b end;
    repeat split.
Qed.

Lemma tick_sizes m : same_sizes m (fst (tick m)).
Proof.
  unfold tick. cbv zeta.
  repeat match goal with
         | |- context [if ?b then _ else _] => destruct b
         end; repeat split.
Qed.

Lemma scrollToLink_sizes m m' : scrollToLink m = Ok m' -> same_sizes m m'.
Proof.
  unfold scrollToLink.
  destruct (_ || _); [intros [= <-]; repeat split|].
  destruct (index _ _) as [l|]; [|discriminate]. cbn [bind].
  destruct (_ <? 0); intros [= <-]; repeat split.
Qed.

Lemma followLink_sizes m l : same_sizes m (fst (followLink m l)).
Proof.
  unfold followLink.
  repeat match goal with
         | |- context [if ?b then _ else _] => destruct b
         | |- context [match ?o with Some _ => _ | None => _ end] => destruct o
         end; repeat split.
Qed.

Lemma Update_sizes render m k s :
  Update render m (KeyMsg k) = Ok s -> same_sizes m (next s).
Proof.
  intros E. unfold Update in E.
  destruct (key_is k (str "q") || key_is k (str "Q")).
  { injection E as <-. repeat split. }
  assert (Hsel : forall ri,
            bind ri (fun i => bind (scrollToLink (set_linkIndex m i)) still)
            = Ok s -> same_sizes m (next s)).
  { intros [i|]; cbn [bind]; [|discriminate].
    destruct (scrollToLink (set_linkIndex m i)) as [m'|] eqn:E';
      [|discriminate].
    cbn [bind]. unfold still. intros [= <-].
    apply scrollToLink_sizes in E'. exact E'. }
  destruct k; unfold still, scroll in E;
    try (injection E as <-; repeat split; fail);
    try (match type of E with
         | context [startScrollTo ?m ?t] =>
             pose proof (startScrollTo_sizes m t) as Hs;
             destruct (startScrollTo m t); injection E as <-; exact Hs
         end).
  - injection E as <-. unfold viewport.GotoTop.
    destruct (_ <=? 0); repeat split.
  - destruct (nlinks m >? 0); [apply Hsel in E; exact E|].
    injection E as <-. repeat split.
  - destruct (nlinks m >? 0); [apply Hsel in E; exact E|].
    injection E as <-. repeat split.
  - destruct ((linkIndex m >=? 0) && (linkIndex m <? nlinks m));
      [|injection E as <-; repeat split].
    destruct (index (links m) (linkIndex m)) as [l|]; [|discriminate].
    cbn [bind] in E. pose proof (followLink_sizes m l) as Hs.
    destruct (followLink m l). injection E as <-. exact Hs.
Qed.

(** In every model the program reaches, the viewport has at least
    [totalLines] lines and the height is a non-negative Go integer. *)
Lemma reachable_sizes render m :
  reachable render m ->
  0 <= totalLines m <= viewport.lines (view m) /\ 0 <= height m < 2 ^ 63.
Proof.
  induction 1 as [raw theme wrap w h | m msg s Hr IH E].
  - unfold load. apply recalcRendered_sizes; cbn; lia.
  - destruct IH as (HT & Hh). destruct msg as [w h|k|].
    + cbn [Update] in E. unfold still in E. injection E as <-. cbn [next].
      apply recalcRendered_sizes; auto.
    + destruct (Update_sizes render m k s E) as (S1 & S2 & S3).
      unfold height in *. rewrite S1, S2, S3. auto.
    + cbn [Update] in E. pose proof (tick_sizes m) as (S1 & S2 & S3).
      destruct (tick m). injection E as <-. cbn [fst next] in *.
      unfold height in *. rewrite S1, S2, S3. auto.
Qed.

Lemma SetContent_at_top v s :
  viewport.YOffset v = 0 ->
  Z.of_nat (List.length (strings.Split s LF)) < 2 ^ 63 ->
  viewport.YOffset (viewport.SetContent v s) = 0
  /\ viewport.Height (viewport.SetContent v s) = viewport.Height v.
Proof.
  intros Y0 HL. unfold viewport.SetContent. cbv zeta.
  cbn [viewport.YOffset viewport.lines]. rewrite Y0.
  pose proof (Split_from_length LF s []) as SL.
  fold (strings.Split s LF) in SL.
  unfold GoInt.sub. rewrite wrap_id by lia.
  destruct (Z.gtb_spec 0 (Z.of_nat (List.length (strings.Split s LF)) - 1));
    [lia|]. cbn. auto.
Qed.

(** The model [main] loads is within the bounds of C2, the lines of the
    rendered text being a Go slice. *)
Lemma load_in_bounds render raw style wrap w h :
  (forall wr out,
      render raw wr style = inl out ->
      Z.of_nat (List.length (strings.Split out LF)) < 2 ^ 63) ->
  in_bounds (load render raw style wrap w h).
Proof.
  intros Hout.
  destruct (reachable_sizes render _ (reachable_load render raw style wrap w h))
    as (HL & Hh).
  revert HL Hh. unfold load, recalcRendered. cbv zeta.
  cbn [rawMarkdown theme wrapWidth initialModel].
  destruct (render raw _ style) as [out|e] eqn:Er.
  - specialize (Hout _ _ Er).
    unfold buildIndexes. cbv zeta.
    unfold in_bounds, maxOffset, offset, height.
    cbn [view animating totalLines set_indexes set_view set_rendered
           rendered initialModel].
    match goal with
    | |- context [viewport.SetContent ?x out] => set (v := x)
    end.
    assert (Y0 : viewport.YOffset v = 0).
    { unfold v. destruct (_ || _); reflexivity. }
    destruct (SetContent_at_top v out Y0 Hout) as (E1 & E2).
    rewrite E1. intros HL Hh.
    assert (HT : viewport.lines (viewport.SetContent v out)
                 = Z.of_nat (List.length (strings.Split out LF))).
    { unfold viewport.SetContent. cbv zeta. cbn [viewport.lines].
      match goal with |- context [if ?b then _ else _] => destruct b end;
        reflexivity. }
    rewrite HT in HL. repeat split; try lia; discriminate.
  - intros _ _. unfold in_bounds, maxOffset, offset, height. cbn.
    repeat split; try lia; discriminate.
Qed.

(** The bound of C2 is that of the scroll engine and of the link navigator:
    [End] asks the viewport for its last offset, which counts the empty line
    after the final line feed of the rendered text. *)
Example End_uses_the_lines_of_the_viewport :
  exists s,
    Update plain_render hundred_lines (KeyMsg KeyEnd) = Ok s
    /\ totalLines (next s) = 100 /\ height (next s) = 10
    /\ viewport.lines (view (next s)) = 101
    /\ offset (next s) = 91.
Proof. eexists. split; [vm_compute; reflexivity|]. repeat split. Qed.

(** * Further properties of the code *)

(** ** Scroll requests *)

Lemma startScrollTo_fields m target :
  0 <= height m < 2 ^ 63 -> 0 <= totalLines m < 2 ^ 63 ->
  let m' := fst (startScrollTo m target) in
  targetOffset m' = legal m target
  /\ view m' = view m
  /\ animating m' = negb (offset m =? legal m target)
  /\ snd (startScrollTo m target)
     = (if offset m =? legal m target then CmdNil else scrollTicker).
Proof.
  intros Hh Ht. unfold startScrollTo. rewrite maxOffset_code by auto.
  set (t1 := if target <? 0 then 0 else target).
  set (t2 := if t1 >? maxOffset m then maxOffset m else t1).
  assert (E : t2 = legal m target).
  { unfold t2, t1, legal, maxOffset. bool_cases; lia. }
  rewrite E. clear t1 t2 E. cbv zeta.
  cbn [set_scroll view targetOffset]. fold (offset m).
  destruct (offset m =? legal m target); cbn; auto.
Qed.

(** X1.  A scroll request keeps the offset, sets the target to the request
    brought into [0, max(0, totalLines - height)], and starts the animation
    and the ticker exactly when that target is not the current offset: at the
    top a request to go up, and at the bottom a request to go down, start
    nothing. *)
Theorem startScrollTo_contract (m : model) (target : Z) :
  0 <= height m < 2 ^ 63 ->
  0 <= totalLines m < 2 ^ 63 ->
  let m' := fst (startScrollTo m target) in
  let c := snd (startScrollTo m target) in
  offset m' = offset m
  /\ targetOffset m' = Z.min (Z.max target 0) (Z.max 0 (totalLines m - height m))
  /\ 0 <= targetOffset m' <= maxOffset m
  /\ (animating m' = true <-> offset m <> targetOffset m')
  /\ (c = scrollTicker <-> offset m <> targetOffset m')
  /\ (c = scrollTicker \/ c = CmdNil)
  /\ (offset m = 0 -> target <= 0 -> animating m' = false /\ c = CmdNil)
  /\ (offset m = maxOffset m -> maxOffset m <= target ->
      animating m' = false /\ c = CmdNil).
Proof.
  intros Hh Ht m' c.
  destruct (startScrollTo_fields m target Hh Ht) as (E1 & E2 & E3 & E4).
  fold m' in E1, E2, E3. fold c in E4.
  assert (EO : offset m' = offset m) by (unfold offset; rewrite E2; auto).
  rewrite E1, E3, E4. unfold legal, maxOffset in *.
  split; [exact EO|]. split; [reflexivity|]. split; [lia|].
  set (t := Z.min (Z.max target 0) (Z.max 0 (totalLines m - height m))) in *.
  destruct (Z.eqb_spec (offset m) t) as [E|N]; cbn [negb].
  - repeat split; intros; auto; try congruence; try discriminate.
  - repeat split; intros; auto; try discriminate; exfalso; apply N; lia.
Qed.

Lemma startScrollTo_contract_witness :
  0 <= height hundred_lines < 2 ^ 63
  /\ 0 <= totalLines hundred_lines < 2 ^ 63
  /\ targetOffset (fst (startScrollTo hundred_lines 1000)) = 90
  /\ animating (fst (startScrollTo hundred_lines (-5))) = false.
Proof.
  assert (Hh : 0 <= height hundred_lines < 2 ^ 63)
    by (vm_compute; intuition discriminate).
  assert (Ht : 0 <= totalLines hundred_lines < 2 ^ 63)
    by (vm_compute; intuition discriminate).
  split; [exact Hh|]. split; [exact Ht|]. split.
  - destruct (startScrollTo_contract hundred_lines 1000 Hh Ht)
      as (_ & E & _). rewrite E. reflexivity.
  - destruct (startScrollTo_contract hundred_lines (-5) Hh Ht)
      as (_ & _ & _ & _ & _ & _ & H & _).
    apply H; [reflexivity|lia].
Defined.

Lemma run_scrollTicks render n : forall m,
  run render m (repeat scrollTick n) = Ok (ticks n m).
Proof.
  induction n as [|n IH]; intros m; [reflexivity|].
  cbn [repeat run Update ticks]. destruct (tick m) as [m' c]. cbn [bind next fst].
  apply IH.
Qed.

Lemma Update_scroll_key render m k d :
  key_delta k m = Some d ->
  Update render m (KeyMsg k)
  = scroll m (GoInt.wrap (offset m + d)).
Proof.
  unfold offset, height, key_delta, GoInt.add, GoInt.sub.
  destruct k; intros [= <-]; cbn [Update key_is orb]; try reflexivity;
    rewrite <- Z.add_opp_r; reflexivity.
Qed.

(** X2.  A scroll key followed by enough ticks moves the offset by one line
    (the arrows) or by one window (the page keys), stopping at the first and
    at the last legal offset, and leaves the animation stopped. *)
Theorem scroll_keys_arrive
  (render : gostring -> Z -> gostring -> gostring + gostring)
  (m : model) (k : Key) (d : Z) (n : nat) :
  sized m ->
  1 <= height m ->
  0 <= offset m <= maxOffset m ->
  key_delta k m = Some d ->
  (Z.to_nat (Z.max 1 (Z.abs d)) <= n)%nat ->
  exists m',
    run render m (KeyMsg k :: repeat scrollTick n) = Ok m'
    /\ offset m' = Z.min (Z.max (offset m + d) 0) (maxOffset m)
    /\ animating m' = false
    /\ totalLines m' = totalLines m /\ height m' = height m.
Proof.
  intros Hs H1 Ho Hk Hn. pose proof Hs as (Hh & HT & HL).
  assert (Hd : - 2 ^ 63 <= offset m + d < 2 ^ 63).
  { unfold maxOffset in Ho. unfold key_delta in Hk.
    destruct k; inversion Hk; subst; lia. }
  cbn [run]. rewrite (Update_scroll_key render m k d Hk), wrap_id by exact Hd.
  unfold scroll.
  destruct (startScrollTo_fields m (offset m + d)) as (E1 & E2 & E3 & _);
    try lia.
  destruct (startScrollTo_sizes m (offset m + d)) as (S1 & S2 & S3).
  destruct (startScrollTo m (offset m + d)) as [m1 c]. cbn [fst bind next] in *.
  rewrite run_scrollTicks.
  assert (EO : offset m1 = offset m) by (unfold offset; rewrite E2; auto).
  assert (EH : height m1 = height m) by (unfold height; rewrite E2; auto).
  assert (EM : maxOffset m1 = maxOffset m)
    by (unfold maxOffset; rewrite S1, EH; auto).
  assert (Hset : settling m1).
  { unfold settling, sized. rewrite EH, S1, S2, EO, E1, EM, E2.
    rewrite viewport_maxYOffset_eq by (unfold height in *; lia).
    fold (height m). unfold legal, maxOffset in *.
    repeat split; try lia.
    rewrite E3. intros Hf. apply negb_false_iff, Z.eqb_eq in Hf. exact Hf. }
  destruct (ticks_arrive n m1 Hset) as (A1 & A2).
  { unfold ticks_left. rewrite E1, EO. unfold legal, maxOffset in *.
    destruct (animating m1); lia. }
  destruct (ticks_settling n m1 Hset) as ((Hs' & _) & _).
  exists (ticks n m1). split; [reflexivity|].
  rewrite A1, E1. split; [reflexivity|]. split; [exact A2|].
  clear - S1 EH. revert m1 S1 EH. induction n as [|n IH]; intros m1 S1 EH;
    cbn [ticks]; [auto|].
  destruct (tick_sizes m1) as (T1 & T2 & T3).
  apply IH; [congruence|]. unfold height in *. congruence.
Qed.

Lemma scroll_keys_arrive_witness :
  sized hundred_lines
  /\ 1 <= height hundred_lines
  /\ 0 <= offset hundred_lines <= maxOffset hundred_lines
  /\ exists m',
       run plain_render hundred_lines
         (KeyMsg KeyPgDown :: repeat scrollTick 10) = Ok m'
       /\ offset m' = 10.
Proof.
  assert (Hs : sized hundred_lines) by (vm_compute; intuition discriminate).
  assert (Ho : 0 <= offset hundred_lines <= maxOffset hundred_lines)
    by (vm_compute; intuition discriminate).
  assert (H1 : 1 <= height hundred_lines) by (vm_compute; discriminate).
  split; [exact Hs|]. split; [exact H1|]. split; [exact Ho|].
  destruct (scroll_keys_arrive plain_render hundred_lines KeyPgDown 10 10
              Hs H1 Ho eq_refl) as (m' & R & O & _).
  { vm_compute. lia. }
  exists m'. split; [exact R|]. rewrite O. reflexivity.
Defined.

(** ** Jumps to a link and to a heading *)

Lemma SetYOffset_legal m n :
  sized m -> 0 <= n <= maxOffset m ->
  viewport.YOffset (viewport.SetYOffset (view m) n) = n.
Proof.
  intros (Hh & HT & HL) Hn. unfold viewport.SetYOffset. cbn [viewport.YOffset].
  rewrite viewport_maxYOffset_eq by (unfold height in *; lia).
  unfold clamp, maxOffset, height in *. bool_cases; lia.
Qed.

(** X3.  Selecting a link whose line is resolved puts the window half a window
    above that line, or at the nearest legal offset, and the line is then one
    of the lines shown. *)
Theorem selected_link_is_shown (m : model) (l : link) :
  sized m ->
  1 <= height m ->
  index (links m) (linkIndex m) = Ok l ->
  0 <= link_renderedLine l < totalLines m ->
  exists m',
    scrollToLink m = Ok m'
    /\ offset m'
       = Z.max 0
           (Z.min (link_renderedLine l - height m / 2)
              (totalLines m - height m))
    /\ visible m' (link_renderedLine l)
    /\ 0 <= offset m' <= maxOffset m
    /\ totalLines m' = totalLines m /\ height m' = height m
    /\ animating m' = animating m /\ targetOffset m' = targetOffset m.
Proof.
  intros Hs H1 El Hl. pose proof Hs as (Hh & HT & HL).
  pose proof (index_Ok_range _ _ _ El) as Hr.
  unfold scrollToLink, nlinks.
  destruct (Z.ltb_spec (linkIndex m) 0); [lia|].
  destruct (Z.geb_spec (linkIndex m) (Z.of_nat (List.length (links m))));
    [lia|].
  cbn [orb]. rewrite El. cbn [bind].
  destruct (Z.ltb_spec (link_renderedLine l) 0); [lia|].
  fold (height m). set (line := link_renderedLine l) in *.
  assert (Hq : GoInt.quot (height m) 2 = height m / 2).
  { unfold GoInt.quot. rewrite Z.quot_div_nonneg by lia.
    apply wrap_id. assert (0 <= height m / 2 <= height m); [|lia].
    split; [apply Z.div_pos; lia|apply Z.div_le_upper_bound; lia]. }
  assert (Hhalf : 0 <= height m / 2 < height m).
  { split; [apply Z.div_pos; lia|apply Z.div_lt_upper_bound; lia]. }
  rewrite Hq. unfold GoInt.sub.
  rewrite (wrap_id (line - height m / 2)) by lia.
  rewrite (wrap_id (totalLines m - height m)) by lia.
  set (t1 := if line - height m / 2 <? 0 then 0 else line - height m / 2).
  set (t2 := if t1 >? totalLines m - height m
             then totalLines m - height m else t1).
  set (t3 := if t2 <? 0 then 0 else t2).
  assert (E3 : t3 = Z.max 0 (Z.min (line - height m / 2)
                               (totalLines m - height m))).
  { unfold t3, t2, t1.
    destruct (Z.ltb_spec (line - height m / 2) 0);
      destruct (Z.gtb_spec 0 (totalLines m - height m));
      destruct (Z.gtb_spec (line - height m / 2) (totalLines m - height m));
      try destruct (Z.ltb_spec (totalLines m - height m) 0);
      try destruct (Z.ltb_spec 0 0);
      try destruct (Z.ltb_spec (line - height m / 2) 0); lia. }
  rewrite E3. clear t1 t2 t3 E3.
  set (t := Z.max 0 (Z.min (line - height m / 2) (totalLines m - height m))).
  assert (Ht : 0 <= t <= maxOffset m) by (unfold t, maxOffset; lia).
  eexists. split; [reflexivity|].
  unfold visible, offset, height. cbn [view set_view].
  rewrite (SetYOffset_legal m t Hs Ht).
  cbn [viewport.SetYOffset viewport.Height totalLines animating targetOffset
         set_view].
  fold (height m). unfold t in *. repeat split; try lia.
Qed.

Lemma selected_link_is_shown_witness :
  exists m1,
    Update plain_render two_links (KeyMsg KeyTab)
    = Ok (mkStep m1 CmdNil None)
    /\ sized m1 /\ 1 <= height m1
    /\ index (links m1) (linkIndex m1)
       = Ok (mkLink (str "here") (str "#title") 2)
    /\ visible m1 2.
Proof.
  eexists. split; [vm_compute; reflexivity|].
  match goal with |- sized ?x /\ _ => set (m1 := x) end.
  assert (Hs : sized m1) by (vm_compute; intuition discriminate).
  assert (H1 : 1 <= height m1) by (vm_compute; discriminate).
  assert (El : index (links m1) (linkIndex m1)
               = Ok (mkLink (str "here") (str "#title") 2)) by reflexivity.
  split; [exact Hs|]. split; [exact H1|]. split; [exact El|].
  destruct (selected_link_is_shown m1 _ Hs H1 El) as (m' & E & _ & V & _).
  { vm_compute. intuition discriminate. }
  replace m1 with m'; [exact V|].
  assert (E' : scrollToLink m1 = Ok m1) by (vm_compute; reflexivity).
  congruence.
Defined.

(** X4.  Following an anchor link puts the line of the heading it resolves to
    at the top of the window, or the window at the last legal offset when the
    heading is nearer to the end; the line is then one of the lines shown and
    no URL is opened. *)
Theorem followed_heading_is_shown (m : model) (l : link) (h : heading) :
  sized m ->
  1 <= height m ->
  strings.HasPrefix (strings.TrimSpace (link_target l)) (str "#") = true ->
  first_resolved (headings m)
    (strings.TrimPrefix (strings.TrimSpace (link_target l)) (str "#"))
  = Some h ->
  heading_renderedLine h < totalLines m ->
  exists m',
    followLink m l = (m', None)
    /\ offset m' = Z.min (heading_renderedLine h) (maxOffset m)
    /\ visible m' (heading_renderedLine h)
    /\ totalLines m' = totalLines m /\ height m' = height m
    /\ linkIndex m' = linkIndex m.
Proof.
  intros Hs H1 Hp Hf Hl. pose proof Hs as (Hh & HT & HL).
  assert (H0 : 0 <= heading_renderedLine h).
  { unfold first_resolved in Hf. apply find_some in Hf. destruct Hf as (_ & Hf).
    apply andb_prop in Hf. destruct Hf as (_ & Hf).
    destruct (Z.geb_spec (heading_renderedLine h) 0); [lia|discriminate]. }
  unfold followLink.
  rewrite (HasPrefix_not_empty _ _ Hp), Hp, followLink_loop_first, Hf.
  eexists. split; [reflexivity|]. unfold jump.
  rewrite maxOffset_code by lia.
  set (t := clamp (heading_renderedLine h) 0 (maxOffset m)).
  assert (Et : t = Z.min (heading_renderedLine h) (maxOffset m)).
  { unfold t, clamp, maxOffset. bool_cases; lia. }
  assert (Ht : 0 <= t <= maxOffset m) by (rewrite Et; unfold maxOffset; lia).
  unfold visible, offset, height. cbn [view set_view].
  rewrite (SetYOffset_legal m t Hs Ht).
  cbn [viewport.SetYOffset viewport.Height totalLines linkIndex set_view].
  fold (height m). rewrite Et. unfold maxOffset.
  repeat split; try lia.
Qed.

Lemma followed_heading_is_shown_witness :
  sized two_links /\ 1 <= height two_links
  /\ followLink two_links (mkLink (str "here") (str "#title") 2)
     = (two_links, None)
  /\ visible two_links 0.
Proof.
  assert (Hs : sized two_links) by (vm_compute; intuition discriminate).
  assert (H1 : 1 <= height two_links) by (vm_compute; discriminate).
  split; [exact Hs|]. split; [exact H1|].
  destruct (followed_heading_is_shown two_links
              (mkLink (str "here") (str "#title") 2)
              (mkHeading (str "Title") (str "title") 0) Hs H1 eq_refl eq_refl)
    as (m' & E & _ & V & _).
  { vm_compute. reflexivity. }
  assert (E' : followLink two_links (mkLink (str "here") (str "#title") 2)
               = (two_links, None)) by (vm_compute; reflexivity).
  split; [exact E'|]. rewrite E' in E. injection E as <-. exact V.
Defined.

(** X5.  Following a link whose target does not begin with a number sign hands
    the target, white space trimmed, to [openURL] and leaves the model as it
    is; a target of white space only does nothing; an anchor link never opens
    a URL. *)
Theorem external_links_are_opened
  (render : gostring -> Z -> gostring -> gostring + gostring)
  (m : model) (l : link) :
  let dest := strings.TrimSpace (link_target l) in
  (strings.HasPrefix dest (str "#") = false ->
   followLink m l = (m, if is_empty dest then None else Some dest))
  /\ (strings.HasPrefix dest (str "#") = true ->
      snd (followLink m l) = None)
  /\ (index (links m) (linkIndex m) = Ok l ->
      strings.HasPrefix dest (str "#") = false ->
      Update render m (KeyMsg KeyEnter)
      = Ok (mkStep m CmdNil (if is_empty dest then None else Some dest))).
Proof.
  intros dest.
  assert (H1 : strings.HasPrefix dest (str "#") = false ->
               followLink m l = (m, if is_empty dest then None else Some dest)).
  { intros Hp. unfold followLink. fold dest. rewrite Hp.
    destruct (is_empty dest); reflexivity. }
  split; [exact H1|]. split.
  - intros Hp. unfold followLink. fold dest.
    rewrite (HasPrefix_not_empty _ _ Hp), Hp.
    destruct (followLink_loop _ _); [reflexivity|].
    destruct (_ >=? 0); reflexivity.
  - intros El Hp. pose proof (index_Ok_range _ _ _ El) as Hr.
    cbn [Update key_is orb]. unfold nlinks.
    destruct (Z.geb_spec (linkIndex m) 0); [|lia].
    destruct (Z.ltb_spec (linkIndex m) (Z.of_nat (List.length (links m))));
      [|lia].
    cbn [andb]. rewrite El. cbn [bind]. rewrite (H1 Hp). reflexivity.
Qed.

Lemma external_links_are_opened_witness :
  strings.HasPrefix
    (strings.TrimSpace (str " https://example.org ")) (str "#") = false
  /\ followLink two_links (mkLink (str "site") (str " https://example.org ") 2)
     = (two_links, Some (str "https://example.org")).
Proof.
  split; [reflexivity|].
  destruct (external_links_are_opened plain_render two_links
              (mkLink (str "site") (str " https://example.org ") 2))
    as (H & _).
  rewrite (H eq_refl). reflexivity.
Defined.

(** ** What a message leaves alone *)

Lemma startScrollTo_ticker m t :
  err (fst (startScrollTo m t)) = err m
  /\ (animating (fst (startScrollTo m t)) = true
      <-> snd (startScrollTo m t) = scrollTicker)
  /\ snd (startScrollTo m t) <> CmdQuit.
Proof.
  unfold startScrollTo. cbv zeta.
  match goal with
  | |- context [if ?b then (set_animating _ false, _) else _] => destruct b
  end; cbn; intuition congruence.
Qed.

Lemma tick_ticker m :
  err (fst (tick m)) = err m
  /\ (animating (fst (tick m)) = true <-> snd (tick m) = scrollTicker)
  /\ snd (tick m) <> CmdQuit.
Proof.
  unfold tick. cbv zeta. destruct (animating m) eqn:Ha; cbn [negb].
  - destruct (viewport.YOffset (view m) =? targetOffset m).
    { cbn. intuition congruence. }
    match goal with
    | |- context [if negb ?b then _ else _] => destruct b
    end; cbn; rewrite ?Ha; intuition congruence.
  - cbn. rewrite Ha. intuition congruence.
Qed.

Lemma scrollToLink_frame m m' :
  scrollToLink m = Ok m' ->
  err m' = err m /\ animating m' = animating m
  /\ targetOffset m' = targetOffset m.
Proof.
  unfold scrollToLink.
  destruct (_ || _); [intros [= <-]; auto|].
  destruct (index _ _) as [l|]; [|discriminate]. cbn [bind].
  destruct (_ <? 0); intros [= <-]; auto.
Qed.

Lemma followLink_frame m l :
  err (fst (followLink m l)) = err m
  /\ animating (fst (followLink m l)) = animating m
  /\ targetOffset (fst (followLink m l)) = targetOffset m.
Proof.
  unfold followLink.
  repeat match goal with
         | |- context [if ?b then _ else _] => destruct b
         | |- context [match ?o with Some _ => _ | None => _ end] => destruct o
         end; repeat split.
Qed.

Lemma recalcRendered_frame render m w h :
  animating (recalcRendered render m w h) = animating m
  /\ targetOffset (recalcRendered render m w h) = targetOffset m
  /\ (err (recalcRendered render m w h) = err m
      \/ exists e, err (recalcRendered render m w h) = Some e
                   /\ render (rawMarkdown m)
                        (if wrapWidth m <=? 0 then w else wrapWidth m)
                        (theme m) = inr e).
Proof.
  unfold recalcRendered. cbv zeta.
  destruct (render _ _ _) as [out|e] eqn:E.
  - repeat split. left. reflexivity.
  - repeat split. right. exists e. split; reflexivity.
Qed.

Lemma select_frame m i s :
  bind (scrollToLink (set_linkIndex m i)) still = Ok s ->
  err (next s) = err m /\ animating (next s) = animating m
  /\ targetOffset (next s) = targetOffset m /\ cmd s = CmdNil.
Proof.
  destruct (scrollToLink (set_linkIndex m i)) as [m'|] eqn:E; [|discriminate].
  cbn [bind]. unfold still. intros [= <-].
  destruct (scrollToLink_frame _ _ E) as (H1 & H2 & H3). cbn [next cmd].
  rewrite H1, H2, H3. repeat split.
Qed.

Lemma quits_keys k :
  quits (KeyMsg k) = true
  <-> k = KeyEsc \/ k = KeyRunes (str "q") \/ k = KeyRunes (str "Q").
Proof.
  destruct k; cbn [quits key_is orb];
    try (split; [discriminate|intros [H|[H|H]]; discriminate]).
  - rewrite orb_true_iff, !gostring_eqb_eq.
    split; [intros [->| ->]; auto|intros [H|[H|H]]; try discriminate].
    + injection H as ->. auto.
    + injection H as ->. auto.
  - split; auto.
Qed.

(** What [Update] does to the error, the animation and the command, message
    by message. *)
Lemma Update_frame render m msg s :
  Update render m msg = Ok s ->
  (is_resize msg = false -> err (next s) = err m)
  /\ (if scrolls msg
      then (animating (next s) = true <-> cmd s = scrollTicker)
           /\ cmd s <> CmdQuit
      else animating (next s) = animating m
           /\ targetOffset (next s) = targetOffset m
           /\ cmd s = (if quits msg then CmdQuit else CmdNil)
           /\ (quits msg = true -> next s = m /\ opened s = None)).
Proof.
  intros E. destruct msg as [w h|k|].
  - cbn [Update] in E. unfold still in E. injection E as <-.
    cbn [is_resize scrolls quits next cmd].
    destruct (recalcRendered_frame render m w h) as (H1 & H2 & _).
    split; [discriminate|]. repeat split; auto. discriminate.
  - cbn [is_resize]. cbn [Update] in E.
    destruct (key_is k (str "q") || key_is k (str "Q")) eqn:Q.
    { injection E as <-. cbn [next cmd opened].
      assert (Hq : quits (KeyMsg k) = true) by (destruct k; auto).
      rewrite Hq. destruct k; try discriminate Q. cbn [scrolls].
      repeat split; auto. }
    assert (Hq : quits (KeyMsg k) = match k with KeyEsc => true | _ => false end).
    { destruct k; auto. }
    rewrite Hq. clear Hq.
    destruct k; cbn [scrolls]; unfold still, scroll in E;
      try (injection E as <-; cbn [next cmd opened];
           repeat split; auto; discriminate);
      try (match type of E with
           | context [startScrollTo ?m ?t] =>
               pose proof (startScrollTo_ticker m t) as (H1 & H2 & H3);
               destruct (startScrollTo m t); injection E as <-;
               cbn [next cmd fst snd] in *; auto
           end).
    + destruct (nlinks m >? 0);
        [|injection E as <-; cbn [next cmd]; repeat split; auto; discriminate].
      destruct (if linkIndex m =? -1 then Ok 0 else _) as [i|];
        [|discriminate].
      cbn [bind] in E. destruct (select_frame m i s E) as (H1 & H2 & H3 & H4).
      repeat split; auto; discriminate.
    + destruct (nlinks m >? 0);
        [|injection E as <-; cbn [next cmd]; repeat split; auto; discriminate].
      destruct (if linkIndex m =? -1 then _ else _) as [i|]; [|discriminate].
      cbn [bind] in E. destruct (select_frame m i s E) as (H1 & H2 & H3 & H4).
      repeat split; auto; discriminate.
    + destruct ((linkIndex m >=? 0) && (linkIndex m <? nlinks m));
        [|injection E as <-; cbn [next cmd]; repeat split; auto; discriminate].
      destruct (index (links m) (linkIndex m)) as [l|]; [|discriminate].
      cbn [bind] in E. pose proof (followLink_frame m l) as (H1 & H2 & H3).
      destruct (followLink m l). injection E as <-.
      cbn [next cmd fst] in *. repeat split; auto; discriminate.
  - cbn [Update] in E. cbn [is_resize scrolls].
    pose proof (tick_ticker m) as (H1 & H2 & H3).
    destruct (tick m). injection E as <-. cbn [next cmd fst snd] in *. auto.
Qed.

(** X6.  The timer of the animation is set exactly when an animation is under
    way after a scroll key or a tick, and by no other message; a message that
    is neither a scroll key nor a tick leaves a running animation and its
    target as they are. *)
Theorem scroll_timer_follows_the_animation
  (render : gostring -> Z -> gostring -> gostring + gostring)
  (m : model) (msg : Msg) (s : Step) :
  Update render m msg = Ok s ->
  (cmd s = scrollTicker -> scrolls msg = true /\ animating (next s) = true)
  /\ (scrolls msg = true -> animating (next s) = true ->
      cmd s = scrollTicker)
  /\ (scrolls msg = false ->
      animating (next s) = animating m
      /\ targetOffset (next s) = targetOffset m).
Proof.
  intros E. destruct (Update_frame render m msg s E) as (_ & H).
  destruct (scrolls msg).
  - destruct H as (H1 & H2). split; [|split].
    + intros Hc. split; [reflexivity|]. apply H1, Hc.
    + intros _ Ha. apply H1, Ha.
    + discriminate.
  - destruct H as (H1 & H2 & H3 & _). split; [|split].
    + intros Hc. rewrite Hc in H3. destruct (quits msg); discriminate.
    + discriminate.
    + intros _. split; assumption.
Qed.

Lemma scroll_timer_follows_the_animation_witness :
  exists s,
    Update plain_render hundred_lines (KeyMsg KeyDown) = Ok s
    /\ cmd s = scrollTicker /\ animating (next s) = true.
Proof.
  eexists. split; [vm_compute; reflexivity|].
  match goal with |- cmd ?x = _ /\ _ => set (s := x) end.
  assert (E : Update plain_render hundred_lines (KeyMsg KeyDown) = Ok s)
    by (vm_compute; reflexivity).
  destruct (scroll_timer_follows_the_animation plain_render _ _ s E)
    as (H & _).
  assert (C : cmd s = scrollTicker) by reflexivity.
  split; [exact C|]. exact (proj2 (H C)).
Defined.

(** X7.  The program ends on q, Q and Esc and on no other message; the model
    is then returned as it was and no URL is opened. *)
Theorem quit_keys
  (render : gostring -> Z -> gostring -> gostring + gostring)
  (m : model) (msg : Msg) (s : Step) :
  Update render m msg = Ok s ->
  (cmd s = CmdQuit
   <-> exists k, msg = KeyMsg k
                 /\ (k = KeyEsc \/ k = KeyRunes (str "q")
                     \/ k = KeyRunes (str "Q")))
  /\ (cmd s = CmdQuit -> next s = m /\ opened s = None).
Proof.
  intros E. destruct (Update_frame render m msg s E) as (_ & H).
  assert (Hq : cmd s = CmdQuit <-> quits msg = true).
  { destruct (scrolls msg) eqn:Sc.
    - destruct H as (_ & H).
      split; [intros; contradiction|].
      destruct msg as [w h|k|]; try discriminate.
      destruct k; discriminate.
    - destruct H as (_ & _ & H & _). rewrite H.
      destruct (quits msg); split; auto; discriminate. }
  split.
  - rewrite Hq. destruct msg as [w h|k|].
    + split; [discriminate|intros (k & [=] & _)].
    + rewrite quits_keys. split.
      * intros Hk. exists k. auto.
      * intros (k' & [= <-] & Hk). exact Hk.
    + split; [discriminate|intros (k & [=] & _)].
  - intros Hc. destruct (scrolls msg).
    + destruct H as (_ & H). contradiction.
    + destruct H as (_ & _ & _ & H). apply H, Hq, Hc.
Qed.

Lemma quit_keys_witness :
  exists s,
    Update plain_render two_links (KeyMsg (KeyRunes (str "q"))) = Ok s
    /\ cmd s = CmdQuit /\ next s = two_links.
Proof.
  eexists. split; [reflexivity|].
  match goal with |- cmd ?x = _ /\ _ => set (s := x) end.
  assert (E : Update plain_render two_links (KeyMsg (KeyRunes (str "q")))
              = Ok s) by reflexivity.
  destruct (quit_keys plain_render _ _ s E) as (_ & H).
  assert (C : cmd s = CmdQuit) by reflexivity.
  split; [exact C|]. exact (proj1 (H C)).
Defined.

Lemma Update_err render m msg s :
  Update render m msg = Ok s ->
  err (next s) = err m
  \/ exists e w h, err (next s) = Some e /\ msg = WindowSizeMsg w h
                   /\ render (rawMarkdown m)
                        (if wrapWidth m <=? 0 then w else wrapWidth m)
                        (theme m) = inr e.
Proof.
  intros E. destruct msg as [w h|k|].
  - cbn [Update] in E. unfold still in E. injection E as <-. cbn [next].
    destruct (recalcRendered_frame render m w h) as (_ & _ & [H|(e & H1 & H2)]).
    + left. exact H.
    + right. exists e, w, h. auto.
  - left. apply (Update_frame render m _ s E). reflexivity.
  - left. apply (Update_frame render m _ s E). reflexivity.
Qed.

(** X8.  An error of the renderer is never cleared: once [err] is set, every
    later model has an error, also after a resize whose rendering succeeds,
    and [View] shows the error instead of the text. An error appears only at a
    resize at which the renderer fails. *)
Theorem error_is_never_cleared
  (render : gostring -> Z -> gostring -> gostring + gostring)
  (msgs : list Msg) (m m' : model) :
  run render m msgs = Ok m' ->
  (err m <> None -> err m' <> None /\ View_progress m' = None)
  /\ (err m = None -> err m' <> None ->
      exists w h, In (WindowSizeMsg w h) msgs).
Proof.
  revert m. induction msgs as [|msg rest IH]; intros m E.
  - cbn [run] in E. injection E as <-. split.
    + intros H. split; [exact H|]. unfold View_progress.
      destruct (err m); [reflexivity|contradiction].
    + intros H1 H2. contradiction.
  - cbn [run] in E.
    destruct (Update render m msg) as [s|] eqn:Es; [|discriminate].
    cbn [bind] in E. destruct (IH _ E) as (IH1 & IH2).
    destruct (Update_err render m msg s Es) as [H|(e & w & h & H & -> & _)].
    + rewrite H in *. split; [exact IH1|].
      intros H1 H2. destruct (IH2 H1 H2) as (w & h & Hin).
      exists w, h. right. exact Hin.
    + split.
      * intros _. apply IH1. rewrite H. discriminate.
      * intros _ _. exists w, h. left. reflexivity.
Qed.

Lemma error_is_never_cleared_witness :
  exists m m',
    err m <> None
    /\ run plain_render m [WindowSizeMsg 80 24; KeyMsg KeyDown] = Ok m'
    /\ err m' <> None.
Proof.
  exists (set_err two_links (str "no style")). eexists.
  assert (H0 : err (set_err two_links (str "no style")) <> None)
    by discriminate.
  split; [exact H0|]. split; [vm_compute; reflexivity|].
  match goal with |- err ?x <> None => set (m' := x) end.
  assert (E : run plain_render (set_err two_links (str "no style"))
                [WindowSizeMsg 80 24; KeyMsg KeyDown] = Ok m')
    by (vm_compute; reflexivity).
  destruct (error_is_never_cleared plain_render _ _ m' E) as (H & _).
  exact (proj1 (H H0)).
Defined.

(** ** Home and End *)

(** X9.  Home puts the window at the first line and End at the last offset of
    the viewport, at once and without a timer; neither stops a scroll that is
    under way: the ticks that follow bring the window to the target of that
    scroll. *)
Theorem home_and_end_do_not_stop_a_scroll
  (render : gostring -> Z -> gostring -> gostring + gostring)
  (m : model) (k : Key) (n : nat) :
  moving m ->
  k = KeyHome \/ k = KeyEnd ->
  (Z.to_nat (Z.max 1 (viewport.lines (view m))) <= n)%nat ->
  exists m1 m',
    Update render m (KeyMsg k) = Ok (mkStep m1 CmdNil None)
    /\ offset m1
       = (if key_is_home k then 0
          else Z.max 0 (viewport.lines (view m) - height m))
    /\ animating m1 = true /\ targetOffset m1 = targetOffset m
    /\ run render m (KeyMsg k :: repeat scrollTick n) = Ok m'
    /\ offset m' = targetOffset m /\ animating m' = false.
Proof.
  intros (Hs & Ha & Ho & Ht) Hk Hn. pose proof Hs as (Hh & HT & HL).
  assert (Hmax : viewport.maxYOffset (view m)
                 = Z.max 0 (viewport.lines (view m) - height m)).
  { apply viewport_maxYOffset_eq; unfold height in *; lia. }
  set (v1 := match k with
             | KeyHome => viewport.GotoTop (view m)
             | _ => viewport.GotoBottom (view m)
             end).
  assert (E1 : Update render m (KeyMsg k) = Ok (mkStep (set_view m v1) CmdNil None)).
  { destruct Hk as [-> | ->]; reflexivity. }
  assert (Hv : viewport.Height v1 = viewport.Height (view m)
               /\ viewport.lines v1 = viewport.lines (view m)
               /\ viewport.YOffset v1
                  = (if key_is_home k then 0
                     else Z.max 0 (viewport.lines (view m) - height m))).
  { unfold v1. destruct Hk as [-> | ->]; cbn [key_is_home].
    - unfold viewport.GotoTop, offset in *.
      destruct (Z.leb_spec (viewport.YOffset (view m)) 0).
      + repeat split. lia.
      + unfold viewport.SetYOffset. cbn [viewport.Height viewport.lines
                                          viewport.YOffset].
        repeat split. rewrite Hmax. unfold clamp. bool_cases; lia.
    - unfold viewport.GotoBottom, viewport.SetYOffset.
      cbn [viewport.Height viewport.lines viewport.YOffset].
      repeat split. rewrite Hmax. unfold clamp. bool_cases; lia. }
  destruct Hv as (Hv1 & Hv2 & Hv3).
  set (m1 := set_view m v1) in *.
  assert (Hset : settling m1).
  { unfold settling, sized, maxOffset, offset, height in *.
    cbn [m1 view set_view totalLines targetOffset animating].
    unfold viewport.maxYOffset in *. rewrite Hv1, Hv2, Hv3.
    unfold height in *. rewrite Hmax.
    repeat split; try lia.
    - destruct (key_is_home k); lia.
    - destruct (key_is_home k); lia.
    - rewrite Ha. discriminate. }
  destruct (ticks_arrive n m1 Hset) as (A1 & A2).
  { unfold ticks_left. cbn [m1 animating set_view targetOffset]. rewrite Ha.
    unfold offset. cbn [m1 view set_view]. rewrite Hv3.
    unfold maxOffset, offset, height in *.
    destruct (key_is_home k); lia. }
  exists m1, (ticks n m1). split; [exact E1|].
  split; [exact Hv3|]. split; [exact Ha|]. split; [reflexivity|].
  split; [|split; assumption].
  cbn [run]. rewrite E1. cbn [bind next]. apply run_scrollTicks.
Qed.

Lemma home_and_end_do_not_stop_a_scroll_witness :
  moving scrolling
  /\ exists m',
       run plain_render scrolling (KeyMsg KeyEnd :: repeat scrollTick 101)
       = Ok m'
       /\ offset m' = 37 /\ animating m' = false.
Proof.
  assert (Hm : moving scrolling) by (vm_compute; intuition discriminate).
  split; [exact Hm|].
  destruct (home_and_end_do_not_stop_a_scroll plain_render scrolling KeyEnd
              101%nat Hm (or_intror eq_refl))
    as (m1 & m' & _ & _ & _ & _ & E & O & A).
  { apply Nat.leb_le. vm_compute. reflexivity. }
  exists m'. split; [exact E|]. split; [exact O|exact A].
Defined.

(** ** The document and its indexes *)

Lemma same_document_refl m : same_document m m.
Proof. repeat split. Qed.

Lemma startScrollTo_document m t : same_document m (fst (startScrollTo m t)).
Proof.
  unfold startScrollTo. cbv zeta.
  match goal with
  | |- context [if ?b then (set_animating _ false, _) else _] => destruct b
  end; repeat split.
Qed.

Lemma tick_document m : same_document m (fst (tick m)).
Proof.
  unfold tick. cbv zeta.
  repeat match goal with
         | |- context [if ?b then _ else _] => destruct b
         end; repeat split.
Qed.

Lemma scrollToLink_document m m' :
  scrollToLink m = Ok m' -> same_document m m'.
Proof.
  unfold scrollToLink.
  destruct (_ || _); [intros [= <-]; apply same_document_refl|].
  destruct (index _ _) as [l|]; [|discriminate]. cbn [bind].
  destruct (_ <? 0); intros [= <-]; repeat split.
Qed.

Lemma followLink_document m l : same_document m (fst (followLink m l)).
Proof.
  unfold followLink.
  repeat match goal with
         | |- context [if ?b then _ else _] => destruct b
         | |- context [match ?o with Some _ => _ | None => _ end] => destruct o
         end; repeat split.
Qed.

Lemma select_document m i s :
  bind (scrollToLink (set_linkIndex m i)) still = Ok s ->
  same_document m (next s).
Proof.
  destruct (scrollToLink (set_linkIndex m i)) as [m'|] eqn:E; [|discriminate].
  cbn [bind]. unfold still. intros [= <-]. cbn [next].
  apply (scrollToLink_document _ _ E).
Qed.

Lemma Update_document render m msg s :
  is_resize msg = false ->
  Update render m msg = Ok s -> same_document m (next s).
Proof.
  intros R E. destruct msg as [w h|k|]; [discriminate| |].
  - cbn [Update] in E.
    destruct (key_is k (str "q") || key_is k (str "Q")).
    { injection E as <-. apply same_document_refl. }
    destruct k; unfold still, scroll in E;
      try (injection E as <-; cbn [next]; repeat split);
      try (match type of E with
           | context [startScrollTo ?m ?t] =>
               pose proof (startScrollTo_document m t) as Hs;
               destruct (startScrollTo m t); injection E as <-; exact Hs
           end).
    + unfold viewport.GotoTop. destruct (_ <=? 0); reflexivity.
    + unfold viewport.GotoTop. destruct (_ <=? 0); reflexivity.
    + unfold viewport.GotoTop. destruct (_ <=? 0); reflexivity.
    + destruct (nlinks m >? 0);
        [|injection E as <-; apply same_document_refl].
      destruct (if linkIndex m =? -1 then Ok 0 else _) as [i|];
        [|discriminate].
      cbn [bind] in E. apply (select_document m i s E).
    + destruct (nlinks m >? 0);
        [|injection E as <-; apply same_document_refl].
      destruct (if linkIndex m =? -1 then _ else _) as [i|]; [|discriminate].
      cbn [bind] in E. apply (select_document m i s E).
    + destruct ((linkIndex m >=? 0) && (linkIndex m <? nlinks m));
        [|injection E as <-; apply same_document_refl].
      destruct (index (links m) (linkIndex m)) as [l|]; [|discriminate].
      cbn [bind] in E. pose proof (followLink_document m l) as Hs.
      destruct (followLink m l). injection E as <-. exact Hs.
  - cbn [Update] in E. pose proof (tick_document m) as Hs.
    destruct (tick m). injection E as <-. exact Hs.
Qed.

Lemma indexed_same_document m m' :
  same_document m m' -> indexed m -> indexed m'.
Proof.
  intros (H1 & H2 & H3 & H4 & H5 & H6 & _ & _ & H9 & _) I.
  unfold indexed in *. rewrite H1, H2, H3, H4, H5, H6, H9. exact I.
Qed.

Lemma Split_not_empty s sep : (1 <= List.length (strings.Split s sep))%nat.
Proof. unfold strings.Split. rewrite Split_from_length. lia. Qed.

Lemma SetContent_sizes v s :
  viewport.lines (viewport.SetContent v s)
  = Z.of_nat (List.length (strings.Split s LF))
  /\ viewport.Height (viewport.SetContent v s) = viewport.Height v
  /\ viewport.Width (viewport.SetContent v s) = viewport.Width v.
Proof.
  unfold viewport.SetContent. cbv zeta.
  match goal with |- context [if ?b then _ else _] => destruct b end;
    repeat split.
Qed.

(** A rendering that succeeds: the fields [recalcRendered] writes. *)
Lemma recalcRendered_indexed render m w h out :
  render (rawMarkdown m) (if wrapWidth m <=? 0 then w else wrapWidth m)
    (theme m) = inl out ->
  let m' := recalcRendered render m w h in
  rendered m' = out
  /\ indexed m'
  /\ 1 <= totalLines m' <= viewport.lines (view m')
  /\ 1 <= height m' < 2 ^ 63
  /\ height m' = Z.max 1 (GoInt.sub h 2)
  /\ viewport.Width (view m') = w
  /\ err m' = err m /\ rawMarkdown m' = rawMarkdown m
  /\ theme m' = theme m /\ wrapWidth m' = wrapWidth m.
Proof.
  intros Er m'. unfold m', recalcRendered. cbv zeta. rewrite Er.
  unfold buildIndexes. cbv zeta. unfold indexed, height.
  cbn [totalLines view set_indexes set_view set_rendered rendered
         renderedLines headings links rawMarkdown err theme wrapWidth].
  set (bh := if GoInt.sub h 2 <? 1 then 1 else GoInt.sub h 2).
  assert (Hb : 1 <= bh < 2 ^ 63 /\ bh = Z.max 1 (GoInt.sub h 2)).
  { unfold bh, GoInt.sub, GoInt.wrap.
    pose proof (Z.mod_pos_bound (h - 2 + 2 ^ 63) (2 ^ 64) ltac:(lia)).
    destruct (Z.ltb_spec ((h - 2 + 2 ^ 63) mod 2 ^ 64 - 2 ^ 63) 1); lia. }
  set (v := if negb (viewport.Width (view m) =? w)
               || negb (viewport.Height (view m) =? bh)
            then viewport.resize (view m) w bh else view m).
  assert (Hv : viewport.Height v = bh /\ viewport.Width v = w).
  { unfold v. destruct (Z.eqb_spec (viewport.Width (view m)) w);
      destruct (Z.eqb_spec (viewport.Height (view m)) bh); cbn; auto. }
  destruct (SetContent_sizes v out) as (S1 & S2 & S3).
  rewrite S1, S2, S3.
  pose proof (Split_TrimRight_length out) as HL.
  pose proof (Split_not_empty (strings.TrimRight out LF) LF) as H1.
  destruct Hv as (Hv1 & Hv2). destruct Hb as (Hb1 & Hb2).
  rewrite Hv1, Hv2, <- Hb2.
  repeat split; try reflexivity; lia.
Qed.

Lemma reachable_indexed render m :
  reachable render m -> err m = None ->
  indexed m
  /\ 1 <= totalLines m <= viewport.lines (view m)
  /\ 1 <= height m < 2 ^ 63
  /\ exists w, render (rawMarkdown m) w (theme m) = inl (rendered m).
Proof.
  induction 1 as [raw style wrap w h | m msg s Hr IH E]; intros He.
  - unfold load in *.
    set (m0 := initialModel raw style wrap) in *.
    destruct (render (rawMarkdown m0)
                (if wrapWidth m0 <=? 0 then w else wrapWidth m0) (theme m0))
      as [out|e] eqn:Er.
    + destruct (recalcRendered_indexed render m0 w h out Er)
        as (R & I & T & H & _ & _ & _ & R1 & R2 & R3).
      split; [exact I|]. split; [exact T|]. split; [exact H|].
      rewrite R, R1, R2. eexists. exact Er.
    + exfalso. revert He. unfold recalcRendered. cbv zeta. rewrite Er.
      discriminate.
  - destruct msg as [w h|k|].
    + cbn [Update] in E. unfold still in E. injection E as <-.
      cbn [next] in *.
      destruct (render (rawMarkdown m)
                  (if wrapWidth m <=? 0 then w else wrapWidth m) (theme m))
        as [out|e] eqn:Er.
      * destruct (recalcRendered_indexed render m w h out Er)
          as (R & I & T & H & _ & _ & _ & R1 & R2 & R3).
        split; [exact I|]. split; [exact T|]. split; [exact H|].
        rewrite R, R1, R2. eexists. exact Er.
      * exfalso. revert He. unfold recalcRendered. cbv zeta. rewrite Er.
        discriminate.
    + pose proof (Update_document render m (KeyMsg k) s eq_refl E) as D.
      destruct (Update_frame render m _ s E) as (F & _).
      rewrite (F eq_refl) in He.
      destruct (IH He) as (I & T & H & w & Er).
      pose proof (indexed_same_document _ _ D I) as I'.
      destruct D as (D1 & D2 & D3 & D4 & D5 & D6 & D7 & D8 & D9 & D10 & D11).
      unfold height in *. rewrite D1, D2, D4, D7, D9, D10.
      split; [exact I'|]. split; [exact T|]. split; [exact H|].
      exists w. exact Er.
    + pose proof (Update_document render m scrollTick s eq_refl E) as D.
      destruct (Update_frame render m _ s E) as (F & _).
      rewrite (F eq_refl) in He.
      destruct (IH He) as (I & T & H & w & Er).
      pose proof (indexed_same_document _ _ D I) as I'.
      destruct D as (D1 & D2 & D3 & D4 & D5 & D6 & D7 & D8 & D9 & D10 & D11).
      unfold height in *. rewrite D1, D2, D4, D7, D9, D10.
      split; [exact I'|]. split; [exact T|]. split; [exact H|].
      exists w. exact Er.
Qed.

(** X10.  In every model the program reaches without an error of the renderer,
    the text shown is what the renderer returns for the source, the lines and
    the two indexes are those of that text, there is at least one line, the
    viewport holds at least as many, and the window is at least one line high. *)
Theorem reachable_model_is_indexed
  (render : gostring -> Z -> gostring -> gostring + gostring) (m : model) :
  reachable render m ->
  err m = None ->
  (exists w, render (rawMarkdown m) w (theme m) = inl (rendered m))
  /\ renderedLines m = strings.Split (strings.TrimRight (rendered m) LF) LF
  /\ totalLines m = Z.of_nat (List.length (renderedLines m))
  /\ headings m
     = map (heading_of (stripANSI (rendered m)))
         (filter (fun txt => negb (is_empty txt))
            (map strings.TrimSpace
               (reHeading_FindAll 0 true (rawMarkdown m))))
  /\ links m
     = map (link_of (stripANSI (rendered m)))
         (reLink_FindAll 0 (rawMarkdown m))
  /\ 1 <= totalLines m <= viewport.lines (view m)
  /\ 1 <= height m < 2 ^ 63.
Proof.
  intros Hr He.
  destruct (reachable_indexed render m Hr He)
    as ((I1 & I2 & I3 & I4 & I5) & T & H & Er).
  repeat split; try assumption; lia.
Qed.

Lemma reachable_model_is_indexed_witness :
  reachable plain_render two_links
  /\ err two_links = None
  /\ 1 <= totalLines two_links <= viewport.lines (view two_links)
  /\ 1 <= height two_links < 2 ^ 63.
Proof.
  assert (R : reachable plain_render two_links)
    by (unfold two_links; apply reachable_load).
  assert (He : err two_links = None) by (vm_compute; reflexivity).
  split; [exact R|]. split; [exact He|].
  destruct (reachable_model_is_indexed plain_render two_links R He)
    as (_ & _ & _ & _ & _ & T & H).
  split; [exact T|exact H].
Defined.

Lemma link_of_text plain l :
  map link_text (map (link_of plain) l) = map fst l
  /\ map link_target (map (link_of plain) l) = map snd l.
Proof.
  rewrite !map_map. split; apply map_ext; intros [text dest]; reflexivity.
Qed.

Lemma heading_of_text plain l :
  map heading_text (map (heading_of plain) l) = l
  /\ map heading_anchor (map (heading_of plain) l) = map slugify l.
Proof.
  rewrite !map_map. split; [|apply map_ext; reflexivity].
  rewrite <- (map_id l) at 2. apply map_ext. reflexivity.
Qed.

(** X11.  A resize renders the source again and rebuilds the two indexes, and
    the selection survives it: the link index, the texts and targets of the
    links and the texts and anchors of the headings are what they were; only
    their lines are found again. A scroll under way goes on. *)
Theorem resize_keeps_the_selection
  (render : gostring -> Z -> gostring -> gostring + gostring)
  (m : model) (w h : Z) :
  indexed m ->
  linkIndex_ok m ->
  exists m',
    Update render m (WindowSizeMsg w h) = Ok (mkStep m' CmdNil None)
    /\ linkIndex m' = linkIndex m
    /\ map link_text (links m') = map link_text (links m)
    /\ map link_target (links m') = map link_target (links m)
    /\ map heading_text (headings m') = map heading_text (headings m)
    /\ map heading_anchor (headings m') = map heading_anchor (headings m)
    /\ animating m' = animating m /\ targetOffset m' = targetOffset m.
Proof.
  intros (_ & _ & _ & Ih & Il) Hi.
  eexists. split; [reflexivity|].
  unfold recalcRendered. cbv zeta.
  destruct (render _ _ _) as [out|e]; [|repeat split].
  unfold buildIndexes. cbv zeta.
  cbn [linkIndex links headings animating targetOffset set_indexes set_view
         set_rendered rawMarkdown rendered].
  rewrite Ih, Il.
  destruct (link_of_text (stripANSI out) (reLink_FindAll 0 (rawMarkdown m)))
    as (L1 & L2).
  destruct (link_of_text (stripANSI (rendered m))
              (reLink_FindAll 0 (rawMarkdown m))) as (L3 & L4).
  set (hs := filter (fun txt => negb (is_empty txt))
               (map strings.TrimSpace
                  (reHeading_FindAll 0 true (rawMarkdown m)))).
  destruct (heading_of_text (stripANSI out) hs) as (G1 & G2).
  destruct (heading_of_text (stripANSI (rendered m)) hs) as (G3 & G4).
  rewrite L1, L2, L3, L4, G1, G2, G3, G4.
  split; [|repeat split].
  unfold linkIndex_ok, nlinks in Hi. rewrite Il in Hi.
  rewrite !length_map in Hi. unfold len_links_is_zero.
  rewrite !length_map.
  destruct (Z.eqb_spec
              (Z.of_nat (List.length (reLink_FindAll 0 (rawMarkdown m)))) 0);
    [lia|].
  destruct (Z.geb_spec (linkIndex m)
              (Z.of_nat (List.length (reLink_FindAll 0 (rawMarkdown m)))));
    [lia|reflexivity].
Qed.

Lemma resize_keeps_the_selection_witness :
  exists m1,
    Update plain_render two_links (KeyMsg KeyTab) = Ok (mkStep m1 CmdNil None)
    /\ indexed m1 /\ linkIndex_ok m1
    /\ exists m',
         Update plain_render m1 (WindowSizeMsg 40 10)
         = Ok (mkStep m' CmdNil None)
         /\ linkIndex m' = 0.
Proof.
  eexists. split; [vm_compute; reflexivity|].
  match goal with |- indexed ?x /\ _ => set (m1 := x) end.
  assert (I : indexed m1) by (repeat split).
  assert (L : linkIndex_ok m1) by (right; vm_compute; intuition discriminate).
  split; [exact I|]. split; [exact L|].
  destruct (resize_keeps_the_selection plain_render m1 40 10 I L)
    as (m' & E & Hi & _).
  exists m'. split; [exact E|]. rewrite Hi. reflexivity.
Defined.

(** ** Slugs and anchors *)

Lemma TrimLeftBytes_idem p s :
  strings.TrimLeftBytes p (strings.TrimLeftBytes p s)
  = strings.TrimLeftBytes p s.
Proof.
  destruct (strings.TrimLeftBytes p s) as [|c t] eqn:E; [reflexivity|].
  cbn [strings.TrimLeftBytes]. rewrite (TrimLeftBytes_head p s c t E).
  reflexivity.
Qed.

Lemma TrimLeftBytes_fixed p s :
  match s with [] => True | c :: _ => p c = false end ->
  strings.TrimLeftBytes p s = s.
Proof.
  destruct s as [|c t]; [reflexivity|]. cbn [strings.TrimLeftBytes].
  intros ->. reflexivity.
Qed.

Lemma Trim_idem s cut :
  strings.Trim (strings.Trim s cut) cut = strings.Trim s cut.
Proof.
  assert (H : strings.TrimLeftBytes (Ascii.eqb cut) (strings.Trim s cut)
              = strings.Trim s cut).
  { apply TrimLeftBytes_fixed.
    destruct (Trim_ends s cut) as (H & _).
    destruct (strings.Trim s cut) as [|c t]; [exact I|].
    rewrite Ascii.eqb_sym. destruct (Ascii.eqb c cut) eqn:E; [|reflexivity].
    revert H. cbn [strings.HasPrefix]. rewrite E. destruct t; discriminate. }
  unfold strings.Trim at 1. rewrite H.
  unfold strings.Trim, strings.TrimRightBytes.
  rewrite rev_involutive, TrimLeftBytes_idem. reflexivity.
Qed.

Lemma slugify_slug_bytes s : forallb slug_byte (slugify s) = true.
Proof.
  rewrite slugify_unfold. apply Trim_forallb, replaced_slug_bytes.
Qed.

Lemma slugify_idem s : slugify (slugify s) = slugify s.
Proof.
  rewrite (slugify_unfold (slugify s)).
  rewrite ToLower_slug_bytes by apply slugify_slug_bytes.
  rewrite filter_slug_bytes by apply slugify_slug_bytes.
  rewrite slugify_unfold. apply Trim_idem.
Qed.

(** X12.  A slug is its own slug; so for a heading as [buildIndexes] makes it,
    with the slug of its text as anchor, the three tests of [followLink]
    amount to one: the slug of the target is the anchor. A target that is the
    text of the heading, or its anchor, matches it. *)
Theorem anchor_tests_are_one (plain txt anc : gostring) :
  slugify (slugify anc) = slugify anc
  /\ anchor_matches (heading_of plain txt) anc
     = gostring_eqb (slugify anc) (slugify txt)
  /\ anchor_matches (heading_of plain txt) txt = true
  /\ anchor_matches (heading_of plain txt) (slugify txt) = true.
Proof.
  assert (H : forall a, anchor_matches (heading_of plain txt) a
                        = gostring_eqb (slugify a) (slugify txt)).
  { intros a. unfold anchor_matches, heading_of.
    cbn [heading_anchor heading_text].
    destruct (gostring_eqb (slugify txt) a) eqn:E.
    - apply gostring_eqb_eq in E. subst a. cbn [orb]. symmetry.
      apply gostring_eqb_eq. apply slugify_idem.
    - reflexivity. }
  split; [apply slugify_idem|]. split; [apply H|].
  rewrite !H. split; apply gostring_eqb_eq; [reflexivity|apply slugify_idem].
Qed.

(** ** Stripping the escape sequences *)

Lemma span_spec p s a b :
  span p s = (a, b) ->
  s = a ++ b /\ forallb p a = true
  /\ match b with [] => True | c :: _ => p c = false end.
Proof.
  revert a b. induction s as [|c t IH]; intros a b; cbn [span].
  - intros [= <- <-]. auto.
  - destruct (p c) eqn:E.
    + destruct (span p t) as [a' b'] eqn:E'. intros [= <- <-].
      destruct (IH _ _ eq_refl) as (H1 & H2 & H3).
      cbn [app forallb]. rewrite E, H2, <- H1. auto.
    + intros [= <- <-]. auto.
Qed.

Lemma no_LF_app a b : no_LF (a ++ b) = no_LF a && no_LF b.
Proof. apply forallb_app. Qed.

Lemma osc_tail_spec s n :
  osc_tail s = Some n ->
  (2 <= n <= List.length s)%nat /\ no_LF (firstn n s) = true.
Proof.
  revert n. induction s as [|c t IH]; intros n; cbn [osc_tail];
    [discriminate|].
  destruct (is_byte 27 c && _) eqn:E.
  - intros [= <-]. apply andb_prop in E. destruct E as (E1 & E2).
    destruct t as [|c2 t]; [discriminate|].
    split; [cbn [List.length]; lia|].
    cbn [firstn no_LF forallb]. unfold is_LF, is_byte in *.
    apply Z.eqb_eq in E1, E2. rewrite E1, E2. reflexivity.
  - destruct (is_LF c) eqn:EL; [discriminate|].
    destruct (osc_tail t) as [k|]; [|discriminate].
    cbn [option_map]. intros [= <-].
    destruct (IH k eq_refl) as (H1 & H2).
    split; [cbn [List.length]; lia|].
    cbn [firstn no_LF forallb]. rewrite EL. exact H2.
Qed.

Lemma HasPrefix_split s p :
  strings.HasPrefix s p = true -> s = p ++ skipn (List.length p) s.
Proof.
  revert s. induction p as [|x p IH]; intros s; [reflexivity|].
  destruct s as [|c s]; [discriminate|]. cbn [strings.HasPrefix].
  intros H. apply andb_prop in H. destruct H as (H1 & H2).
  apply Ascii.eqb_eq in H1. subst x. cbn [List.length skipn app].
  f_equal. apply IH, H2.
Qed.

Lemma letter_not_LF f :
  in_class 65 90 f || in_class 97 122 f = true -> is_LF f = false.
Proof. intros H. byte_cases. Qed.

Lemma param_not_LF x :
  in_class 48 57 x || is_byte 59 x = true -> is_LF x = false.
Proof. intros H. byte_cases. Qed.

Lemma no_LF_firstn_cons n c t :
  no_LF (firstn (S n) (c :: t)) = negb (is_LF c) && no_LF (firstn n t).
Proof. reflexivity. Qed.

Lemma firstn_S_app (a : gostring) x b :
  firstn (S (List.length a)) (a ++ x :: b) = a ++ [x].
Proof.
  induction a as [|y a IH]; [reflexivity|].
  cbn [List.length app]. rewrite firstn_cons, IH. reflexivity.
Qed.

(** A match of [ansiRE] starts with ESC, has at least two bytes, all of them
    of the text, and no line feed among them. *)
Lemma ansiRE_at_spec s n :
  ansiRE_at s = Some n ->
  (2 <= n <= List.length s)%nat
  /\ no_LF (firstn n s) = true
  /\ match s with c :: _ => is_byte 27 c = true | [] => False end.
Proof.
  unfold ansiRE_at. destruct s as [|c [|c1 t]]; try discriminate.
  destruct (is_byte 27 c) eqn:E0; [|discriminate].
  assert (L0 : is_LF c = false).
  { unfold is_LF, is_byte in *. apply Z.eqb_eq in E0. rewrite E0.
    reflexivity. }
  destruct (is_byte 91 c1) eqn:E1.
  { destruct (span _ t) as [params rest] eqn:Es.
    destruct rest as [|f rest]; [discriminate|].
    destruct (in_class 65 90 f || in_class 97 122 f) eqn:Ef; [|discriminate].
    intros [= <-]. destruct (span_spec _ _ _ _ Es) as (-> & Hp & _).
    split; [cbn [List.length]; rewrite length_app; cbn [List.length]; lia|].
    split; [|reflexivity].
    assert (L1 : is_LF c1 = false).
    { unfold is_LF, is_byte in *. apply Z.eqb_eq in E1. rewrite E1.
      reflexivity. }
    pose proof (letter_not_LF f Ef) as Lf.
    assert (Lp : no_LF params = true).
    { unfold no_LF. rewrite forallb_forall in *. intros x Hx.
      rewrite (param_not_LF x (Hp x Hx)). reflexivity. }
    change (3 + List.length params)%nat
      with (S (S (S (List.length params)))).
    rewrite 2 no_LF_firstn_cons, firstn_S_app, L0, L1, no_LF_app, Lp.
    cbn [no_LF forallb]. rewrite Lf. reflexivity. }
  destruct (is_byte 93 c1) eqn:E2.
  { destruct (strings.HasPrefix t (str "8;;")) eqn:Ep; [|discriminate].
    destruct (osc_tail (skipn 3 t)) as [k|] eqn:Eo; [|discriminate].
    cbn [option_map]. intros [= <-].
    destruct (osc_tail_spec _ _ Eo) as (H1 & H2).
    apply HasPrefix_split in Ep. change (List.length (str "8;;")) with 3%nat in Ep.
    set (t' := skipn 3 t) in *.
    assert (L1 : is_LF c1 = false).
    { unfold is_LF, is_byte in *. apply Z.eqb_eq in E2. rewrite E2.
      reflexivity. }
    rewrite Ep.
    split; [cbn [List.length]; rewrite length_app;
            change (List.length (str "8;;")) with 3%nat; lia|].
    split; [|reflexivity].
    change (5 + k)%nat with (S (S (S (S (S k))))).
    change (str "8;;" ++ t') with ("8"%char :: ";"%char :: ";"%char :: t').
    rewrite 5 no_LF_firstn_cons, L0, L1. exact H2. }
  destruct (is_byte 92 c1) eqn:E3; [|discriminate].
  intros [= <-]. split; [cbn [List.length]; lia|]. split; [|reflexivity].
  rewrite 2 no_LF_firstn_cons, L0. cbn [firstn no_LF forallb].
  unfold is_LF, is_byte in *. apply Z.eqb_eq in E3. rewrite E3. reflexivity.
Qed.

Lemma Count_cons c t :
  bytes_Count (c :: t) LF = (if is_LF c then 1 else 0) + bytes_Count t LF.
Proof.
  unfold bytes_Count, len. cbn [filter].
  assert (E : Ascii.eqb LF c = is_LF c).
  { rewrite Ascii.eqb_sym, eqb_is_byte. reflexivity. }
  rewrite E. destruct (is_LF c); cbn [List.length]; lia.
Qed.

Lemma stripANSI_from_lines s : forall skip,
  no_LF (firstn skip s) = true ->
  bytes_Count (stripANSI_from skip s) LF = bytes_Count s LF
  /\ (List.length (stripANSI_from skip s) <= List.length s)%nat.
Proof.
  induction s as [|c t IH]; intros skip H; [split; reflexivity|].
  cbn [stripANSI_from]. destruct skip as [|k].
  - destruct (ansiRE_at (c :: t)) as [n|] eqn:E.
    + destruct (ansiRE_at_spec _ _ E) as (H1 & H2 & _).
      destruct n as [|n]; [lia|]. rewrite no_LF_firstn_cons in H2.
      apply andb_prop in H2. destruct H2 as (Hc & Ht).
      cbn [Nat.pred]. destruct (IH n Ht) as (I1 & I2).
      rewrite Count_cons. destruct (is_LF c); [discriminate|].
      split; [rewrite I1; lia|cbn [List.length]; lia].
    + destruct (IH 0%nat eq_refl) as (I1 & I2).
      rewrite !Count_cons, I1. split; [reflexivity|cbn [List.length]; lia].
  - rewrite no_LF_firstn_cons in H. apply andb_prop in H.
    destruct H as (Hc & Ht). destruct (IH k Ht) as (I1 & I2).
    rewrite Count_cons. destruct (is_LF c); [discriminate|].
    split; [rewrite I1; lia|cbn [List.length]; lia].
Qed.

Lemma stripANSI_from_plain s :
  no_ESC s = true -> stripANSI_from 0 s = s.
Proof.
  induction s as [|c t IH]; [reflexivity|]. cbn [no_ESC forallb].
  intros H. apply andb_prop in H. destruct H as (Hc & Ht).
  cbn [stripANSI_from].
  destruct (ansiRE_at (c :: t)) as [n|] eqn:E.
  - destruct (ansiRE_at_spec _ _ E) as (_ & _ & H). rewrite H in Hc.
    discriminate.
  - rewrite (IH Ht). reflexivity.
Qed.

(** X13.  [stripANSI] never removes a line feed: the plain text has the lines
    of the rendered text, so a line counted in the one is the same line of the
    other. It makes no text longer, and leaves a text without ESC as it is. *)
Theorem stripANSI_keeps_the_lines (s : gostring) :
  bytes_Count (stripANSI s) LF = bytes_Count s LF
  /\ List.length (strings.Split (stripANSI s) LF)
     = List.length (strings.Split s LF)
  /\ (List.length (stripANSI s) <= List.length s)%nat
  /\ (no_ESC s = true -> stripANSI s = s).
Proof.
  destruct (stripANSI_from_lines s 0 eq_refl) as (H1 & H2).
  unfold stripANSI. split; [exact H1|]. split; [|split].
  - unfold strings.Split. rewrite !Split_from_length.
    unfold bytes_Count, len in H1. lia.
  - exact H2.
  - apply stripANSI_from_plain.
Qed.

Lemma stripANSI_keeps_the_lines_witness :
  no_ESC (str "plain text") = true
  /\ stripANSI (str "plain text") = str "plain text".
Proof.
  split; [reflexivity|].
  destruct (stripANSI_keeps_the_lines (str "plain text")) as (_ & _ & _ & H).
  exact (H eq_refl).
Defined.

(** ** The links of the source *)

Lemma is_byte_char c d : is_byte (byte_of d) c = true -> c = d.
Proof.
  rewrite <- eqb_is_byte. apply Ascii.eqb_eq.
Qed.

Lemma span_app p (a : gostring) c b :
  forallb p a = true -> p c = false -> span p (a ++ c :: b) = (a, c :: b).
Proof.
  intros Ha Hc. induction a as [|x a IH]; cbn [app span].
  - rewrite Hc. reflexivity.
  - cbn [forallb] in Ha. apply andb_prop in Ha. destruct Ha as (Hx & Ha).
    rewrite Hx, (IH Ha). reflexivity.
Qed.

Lemma reLink_at_spec s text dest n :
  reLink_at s = Some (text, dest, n) ->
  text <> [] /\ dest <> []
  /\ no_byte 93 text = true /\ no_byte 41 dest = true
  /\ n = List.length (link_source text dest)
  /\ exists post, s = link_source text dest ++ post.
Proof.
  unfold reLink_at. destruct s as [|c t]; [discriminate|].
  destruct (is_byte 91 c) eqn:E0; [|discriminate].
  destruct (span _ t) as [tx r1] eqn:E1.
  destruct tx as [|x tx]; [discriminate|].
  destruct r1 as [|q [|p r2]]; try discriminate.
  destruct (is_byte 40 p) eqn:Ep; [|discriminate].
  destruct (span _ r2) as [ds r3] eqn:E2.
  destruct ds as [|y ds]; [discriminate|].
  destruct r3 as [|z r3]; [discriminate|].
  intros [= <- <- <-].
  destruct (span_spec _ _ _ _ E1) as (-> & H1 & Hq).
  destruct (span_spec _ _ _ _ E2) as (-> & H2 & Hz).
  apply negb_false_iff in Hq, Hz.
  apply (is_byte_char c "["%char) in E0.
  apply (is_byte_char q "]"%char) in Hq.
  apply (is_byte_char p "("%char) in Ep.
  apply (is_byte_char z ")"%char) in Hz. subst c q p z.
  split; [discriminate|]. split; [discriminate|].
  split; [exact H1|]. split; [exact H2|]. split.
  - unfold link_source. cbn [str list_ascii_of_string app List.length].
    rewrite !length_app. cbn [List.length]. rewrite length_app.
    cbn [List.length]. lia.
  - exists r3. unfold link_source. cbn [str list_ascii_of_string app].
    rewrite <- !app_assoc. cbn [app]. rewrite <- !app_assoc. reflexivity.
Qed.

Lemma reLink_at_link text dest rest :
  text <> [] -> dest <> [] ->
  no_byte 93 text = true -> no_byte 41 dest = true ->
  reLink_at (link_source text dest ++ rest)
  = Some (text, dest, List.length (link_source text dest)).
Proof.
  intros Ht Hd Nt Nd. unfold link_source.
  cbn [str list_ascii_of_string app]. unfold reLink_at.
  change (is_byte 91 "["%char) with true. cbv iota.
  rewrite <- !app_assoc. cbn [app].
  rewrite (span_app _ text "]"%char _ Nt eq_refl).
  destruct text as [|x text]; [contradiction|].
  change (is_byte 40 "("%char) with true. cbv iota.
  rewrite <- !app_assoc. cbn [app].
  rewrite (span_app _ dest ")"%char _ Nd eq_refl).
  destruct dest as [|y dest]; [contradiction|].
  repeat f_equal. cbn [List.length]. rewrite !length_app.
  cbn [List.length]. rewrite length_app. cbn [List.length]. lia.
Qed.

Lemma reLink_FindAll_skip pre rest :
  reLink_FindAll (List.length pre) (pre ++ rest) = reLink_FindAll 0 rest.
Proof.
  induction pre as [|c pre IH]; [reflexivity|]. exact IH.
Qed.

Lemma reLink_FindAll_sound text dest s : forall skip,
  In (text, dest) (reLink_FindAll skip s) ->
  text <> [] /\ dest <> []
  /\ no_byte 93 text = true /\ no_byte 41 dest = true
  /\ exists pre post, s = pre ++ link_source text dest ++ post.
Proof.
  assert (Hcons : forall c t,
             (text <> [] /\ dest <> []
              /\ no_byte 93 text = true /\ no_byte 41 dest = true
              /\ exists pre post, t = pre ++ link_source text dest ++ post) ->
             text <> [] /\ dest <> []
             /\ no_byte 93 text = true /\ no_byte 41 dest = true
             /\ exists pre post,
                  c :: t = pre ++ link_source text dest ++ post).
  { intros c t (H1 & H2 & H3 & H4 & pre & post & ->).
    repeat (split; [assumption|]). exists (c :: pre), post. reflexivity. }
  induction s as [|c t IH]; intros skip; cbn [reLink_FindAll];
    [contradiction|].
  destruct skip as [|k].
  - destruct (reLink_at (c :: t)) as [[[tx ds] n]|] eqn:E.
    + intros [H|H].
      * injection H as -> ->.
        destruct (reLink_at_spec _ _ _ _ E) as (H1 & H2 & H3 & H4 & _ & post & Hs).
        repeat (split; [assumption|]). exists [], post. exact Hs.
      * apply Hcons, (IH _ H).
    + intros H. apply Hcons, (IH _ H).
  - intros H. apply Hcons, (IH _ H).
Qed.

(** X14.  Every link [buildIndexes] finds is written in the source as an
    opening bracket, the text, a closing bracket, an opening parenthesis, the
    target and a closing parenthesis; neither the text nor the target is
    empty, the text has no closing bracket and the target no closing
    parenthesis. *)
Theorem links_found_are_in_the_source (m : model) (l : link) :
  In l (links (buildIndexes m)) ->
  link_text l <> [] /\ link_target l <> []
  /\ no_byte 93 (link_text l) = true
  /\ no_byte 41 (link_target l) = true
  /\ (exists pre post,
        rawMarkdown m
        = pre ++ link_source (link_text l) (link_target l) ++ post)
  /\ link_renderedLine l
     = indexLineOf (stripANSI (rendered m))
         (if strings.HasPrefix (link_target l) (str "#")
          then link_text l else link_target l).
Proof.
  unfold buildIndexes. cbv zeta. cbn [links set_indexes].
  intros H. apply in_map_iff in H. destruct H as ([text dest] & <- & H).
  cbn [link_of link_text link_target link_renderedLine].
  destruct (reLink_FindAll_sound _ _ _ _ H) as (H1 & H2 & H3 & H4 & H5).
  repeat (split; [assumption|]). reflexivity.
Qed.

Lemma links_found_are_in_the_source_witness :
  In (mkLink (str "here") (str "#title") 2) (links (buildIndexes two_links))
  /\ exists pre post,
       rawMarkdown two_links
       = pre ++ link_source (str "here") (str "#title") ++ post.
Proof.
  assert (H : In (mkLink (str "here") (str "#title") 2)
                (links (buildIndexes two_links)))
    by (vm_compute; auto).
  split; [exact H|].
  destruct (links_found_are_in_the_source two_links _ H)
    as (_ & _ & _ & _ & E & _).
  exact E.
Defined.

(** X15.  A link written at the start of a text is the first link found, and
    the search goes on after its closing parenthesis; a byte that is not an
    opening bracket is passed over. *)
Theorem a_link_written_is_found (text dest rest : gostring) (c : ascii) :
  (text <> [] -> dest <> [] ->
   no_byte 93 text = true -> no_byte 41 dest = true ->
   reLink_FindAll 0 (link_source text dest ++ rest)
   = (text, dest) :: reLink_FindAll 0 rest)
  /\ (is_byte 91 c = false ->
      reLink_FindAll 0 (c :: rest) = reLink_FindAll 0 rest).
Proof.
  split.
  - intros Ht Hd Nt Nd.
    pose proof (reLink_at_link text dest rest Ht Hd Nt Nd) as E.
    destruct (link_source text dest ++ rest) as [|x t] eqn:Es.
    { destruct text; discriminate. }
    cbn [reLink_FindAll]. rewrite E. f_equal.
    assert (Ex : exists body, link_source text dest = x :: body).
    { unfold link_source in *. cbn [str list_ascii_of_string app] in *.
      injection Es as <- _. eexists. reflexivity. }
    destruct Ex as (body & Eb). rewrite Eb in *. cbn [app] in Es.
    injection Es as <-. cbn [List.length Nat.pred].
    apply reLink_FindAll_skip.
  - intros Hc. cbn [reLink_FindAll]. unfold reLink_at. rewrite Hc.
    reflexivity.
Qed.

Lemma a_link_written_is_found_witness :
  reLink_FindAll 0 (link_source (str "a") (str "b") ++ str " and [c](d)")
  = [(str "a", str "b"); (str "c", str "d")].
Proof.
  destruct (a_link_written_is_found (str "a") (str "b") (str " and [c](d)")
              " "%char) as (H & _).
  rewrite H; [reflexivity|discriminate|discriminate|reflexivity|reflexivity].
Defined.

(** ** The headings of the source *)

Lemma TrimLeftSpace_suffix n : forall s,
  (List.length s <= n)%nat -> exists pre, s = pre ++ strings.TrimLeftSpace s.
Proof.
  induction n as [|n IH]; intros s Hn.
  - destruct s; [exists []; reflexivity|cbn [List.length] in Hn; lia].
  - destruct s as [|c t]; [exists []; reflexivity|].
    cbn [List.length] in Hn. cbn [strings.TrimLeftSpace].
    destruct (strings.asciiSpace c).
    { destruct (IH t ltac:(lia)) as (pre & E). exists (c :: pre).
      cbn [app]. f_equal. exact E. }
    destruct t as [|c2 t2]; [exists []; reflexivity|].
    cbn [List.length] in Hn.
    destruct (strings.space2 c c2).
    { destruct (IH t2 ltac:(lia)) as (pre & E). exists (c :: c2 :: pre).
      cbn [app]. do 2 f_equal. exact E. }
    destruct t2 as [|c3 t3]; [exists []; reflexivity|].
    cbn [List.length] in Hn.
    destruct (strings.space3 c c2 c3); [|exists []; reflexivity].
    destruct (IH t3 ltac:(lia)) as (pre & E). exists (c :: c2 :: c3 :: pre).
    cbn [app]. do 3 f_equal. exact E.
Qed.

Lemma TrimLeftSpace_rev_suffix n : forall s,
  (List.length s <= n)%nat ->
  exists pre, s = pre ++ strings.TrimLeftSpace_rev s.
Proof.
  induction n as [|n IH]; intros s Hn.
  - destruct s; [exists []; reflexivity|cbn [List.length] in Hn; lia].
  - destruct s as [|c t]; [exists []; reflexivity|].
    cbn [List.length] in Hn. cbn [strings.TrimLeftSpace_rev].
    destruct (strings.asciiSpace c).
    { destruct (IH t ltac:(lia)) as (pre & E). exists (c :: pre).
      cbn [app]. f_equal. exact E. }
    destruct t as [|c2 t2]; [exists []; reflexivity|].
    cbn [List.length] in Hn.
    destruct (strings.space2 c2 c).
    { destruct (IH t2 ltac:(lia)) as (pre & E). exists (c :: c2 :: pre).
      cbn [app]. do 2 f_equal. exact E. }
    destruct t2 as [|c3 t3]; [exists []; reflexivity|].
    cbn [List.length] in Hn.
    destruct (strings.space3 c3 c2 c); [|exists []; reflexivity].
    destruct (IH t3 ltac:(lia)) as (pre & E). exists (c :: c2 :: c3 :: pre).
    cbn [app]. do 3 f_equal. exact E.
Qed.

(** [TrimSpace] cuts at the two ends only. *)
Lemma TrimSpace_split s :
  exists pre post, s = pre ++ strings.TrimSpace s ++ post.
Proof.
  unfold strings.TrimSpace.
  destruct (TrimLeftSpace_suffix _ s (le_n _)) as (pre & E1).
  destruct (TrimLeftSpace_rev_suffix _ (rev (strings.TrimLeftSpace s))
              (le_n _)) as (post & E2).
  exists pre, (rev post). rewrite <- rev_app_distr, <- E2, rev_involutive.
  exact E1.
Qed.

Lemma TrimSpace_no_LF s : no_LF s = true -> no_LF (strings.TrimSpace s) = true.
Proof.
  destruct (TrimSpace_split s) as (pre & post & E). intros H.
  rewrite E, !no_LF_app in H.
  apply andb_prop in H. destruct H as (_ & H).
  apply andb_prop in H. destruct H as (H & _). exact H.
Qed.

Lemma reHeading_at_no_LF s txt n :
  reHeading_at s = Some (txt, n) -> no_LF txt = true.
Proof.
  unfold reHeading_at.
  destruct (span re_space s) as [lead s1].
  destruct (_ <? _)%nat; [discriminate|].
  destruct (span (is_byte 35) s1) as [marks s2].
  destruct (_ || _); [discriminate|].
  destruct (span re_space s2) as [gap s3].
  destruct (_ =? _)%nat; [discriminate|].
  destruct (span _ s3) as [t r] eqn:E. intros [= <- _].
  apply (span_spec _ _ _ _ E).
Qed.

Lemma reHeading_FindAll_no_LF txt s : forall skip bol,
  In txt (reHeading_FindAll skip bol s) -> no_LF txt = true.
Proof.
  induction s as [|c t IH]; intros skip bol; cbn [reHeading_FindAll];
    [contradiction|].
  destruct skip as [|k]; [|apply IH].
  destruct bol; [|apply IH].
  destruct (reHeading_at (c :: t)) as [[tx n]|] eqn:E; [|apply IH].
  intros [<-|H]; [apply (reHeading_at_no_LF _ _ _ E)|apply (IH _ _ H)].
Qed.

Lemma TrimLeftBytes_split_all p s :
  exists pre, s = pre ++ strings.TrimLeftBytes p s /\ forallb p pre = true.
Proof.
  induction s as [|c t (pre & IH & Hp)]; [exists []; split; reflexivity|].
  cbn [strings.TrimLeftBytes]. destruct (p c) eqn:E.
  - exists (c :: pre). cbn [app forallb]. rewrite E, Hp. split; [|reflexivity].
    f_equal. exact IH.
  - exists []. split; reflexivity.
Qed.

Lemma TrimRight_split s :
  exists tail,
    s = strings.TrimRight s LF ++ tail /\ forallb is_LF tail = true.
Proof.
  unfold strings.TrimRight, strings.TrimRightBytes.
  destruct (TrimLeftBytes_split_all (Ascii.eqb LF) (rev s)) as (pre & E & Hp).
  exists (rev pre). split.
  - rewrite <- rev_app_distr, <- E, rev_involutive. reflexivity.
  - rewrite forallb_forall in *. intros x Hx. apply in_rev in Hx.
    specialize (Hp x Hx). rewrite Ascii.eqb_sym, eqb_is_byte in Hp. exact Hp.
Qed.

Lemma all_LF_plain tail :
  forallb is_LF tail = true -> stripANSI_from 0 tail = tail.
Proof.
  intros H. apply stripANSI_from_plain. unfold no_ESC.
  rewrite forallb_forall in *. intros x Hx. specialize (H x Hx).
  unfold is_LF, is_byte in *. apply Z.eqb_eq in H. rewrite H. reflexivity.
Qed.

(** The line feeds at the end of a text are at the end of the plain text. *)
Lemma stripANSI_from_tail tail s : forall skip,
  forallb is_LF tail = true ->
  no_LF (firstn skip (s ++ tail)) = true ->
  exists P, stripANSI_from skip (s ++ tail) = P ++ tail.
Proof.
  intros skip Ht. revert skip.
  induction s as [|c t IH]; intros skip H.
  - exists []. cbn [app] in *. destruct tail as [|x tail]; [reflexivity|].
    destruct skip as [|k]; [apply (all_LF_plain _ Ht)|].
    rewrite no_LF_firstn_cons in H. cbn [forallb] in Ht.
    apply andb_prop in Ht. destruct Ht as (Hx & _). rewrite Hx in H.
    discriminate.
  - cbn [app stripANSI_from]. cbn [app] in H. destruct skip as [|k].
    + destruct (ansiRE_at (c :: t ++ tail)) as [n|] eqn:E.
      * destruct (ansiRE_at_spec _ _ E) as (H1 & H2 & _).
        destruct n as [|n]; [lia|]. rewrite no_LF_firstn_cons in H2.
        apply andb_prop in H2. destruct H2 as (_ & H2).
        cbn [Nat.pred]. apply (IH n H2).
      * destruct (IH 0%nat eq_refl) as (P & E'). exists (c :: P).
        rewrite E'. reflexivity.
    + rewrite no_LF_firstn_cons in H. apply andb_prop in H.
      destruct H as (_ & H). apply (IH k H).
Qed.

Lemma needle_before_tail x txt post tail : forall pre P,
  is_LF x = false -> forallb is_LF tail = true ->
  pre ++ (x :: txt) ++ post = P ++ tail ->
  exists q, P = pre ++ x :: q.
Proof.
  intros pre P Hx Ht. revert P.
  assert (Hin : forall l r, tail = l ++ x :: r -> False).
  { intros l r E. rewrite forallb_forall in Ht.
    specialize (Ht x). rewrite Ht in Hx; [discriminate|].
    rewrite E. apply in_or_app. right. left. reflexivity. }
  induction pre as [|a pre IH]; intros P E.
  - destruct P as [|y P].
    + exfalso. cbn [app] in E. apply (Hin [] (txt ++ post)). symmetry.
      exact E.
    + cbn [app] in E. injection E as -> _. exists P. reflexivity.
  - destruct P as [|y P].
    + exfalso. cbn [app] in E. apply (Hin (a :: pre) (txt ++ post)).
      symmetry. exact E.
    + cbn [app] in E. injection E as -> E. destruct (IH P E) as (q & ->).
      exists q. reflexivity.
Qed.

Lemma Count_app a b :
  bytes_Count (a ++ b) LF = bytes_Count a LF + bytes_Count b LF.
Proof.
  unfold bytes_Count, len. rewrite filter_app, length_app. lia.
Qed.

Lemma Count_nonneg a : 0 <= bytes_Count a LF.
Proof. unfold bytes_Count, len. lia. Qed.

(** The line of a needle that starts with a byte other than a line feed is
    a line of the text without its trailing line feeds. *)
Lemma indexLineOf_bound rd x txt :
  is_LF x = false ->
  -1 <= indexLineOf (stripANSI rd) (x :: txt)
     < Z.of_nat (List.length (strings.Split (strings.TrimRight rd LF) LF)).
Proof.
  intros Hx.
  destruct (TrimRight_split rd) as (tail & Er & Ht).
  set (body := strings.TrimRight rd LF) in *. clearbody body.
  unfold strings.Split. rewrite Split_from_length.
  assert (EB : Z.of_nat (S (List.length (filter (Ascii.eqb LF) body)))
               = 1 + bytes_Count body LF) by (unfold bytes_Count, len; lia).
  rewrite EB. clear EB.
  destruct (Index_from_spec (x :: txt) (stripANSI rd) 0)
    as [(_ & N)|(pre & post & E & _ & M)].
  - destruct (indexLineOf_spec (stripANSI rd) (x :: txt)) as (_ & H & _).
    rewrite (H N). pose proof (Count_nonneg body). lia.
  - destruct (indexLineOf_spec (stripANSI rd) (x :: txt)) as (_ & _ & H).
    rewrite (H pre post ltac:(discriminate) E M).
    destruct (stripANSI_from_tail tail body 0 Ht eq_refl) as (P & EP).
    rewrite <- Er in EP. fold (stripANSI rd) in EP.
    destruct (needle_before_tail x txt post tail pre P Hx Ht) as (q & EQ).
    { rewrite <- E. exact EP. }
    destruct (stripANSI_from_lines rd 0 eq_refl) as (C & _).
    fold (stripANSI rd) in C. rewrite EP in C. rewrite Er in C.
    rewrite !Count_app in C. rewrite EQ in C.
    rewrite Count_app, Count_cons in C.
    pose proof (Count_nonneg pre). pose proof (Count_nonneg q).
    destruct (is_LF x); lia.
Qed.

(** X16.  In a model whose indexes are those of its text, every heading has a
    text that is not empty and has no line feed, the slug of that text as
    anchor, and a line that is unresolved or a line of the text: [-1 <=
    renderedLine < totalLines]. *)
Theorem heading_lines_are_lines_of_the_text (m : model) (h : heading) :
  indexed m ->
  In h (headings m) ->
  heading_text h <> []
  /\ no_LF (heading_text h) = true
  /\ heading_anchor h = slugify (heading_text h)
  /\ heading_renderedLine h
     = indexLineOf (stripANSI (rendered m)) (heading_text h)
  /\ -1 <= heading_renderedLine h < totalLines m.
Proof.
  intros (I1 & I2 & _ & I4 & _) H. rewrite I4 in H.
  apply in_map_iff in H. destruct H as (txt & <- & H).
  apply filter_In in H. destruct H as (H & Hne).
  apply in_map_iff in H. destruct H as (t0 & <- & H).
  apply reHeading_FindAll_no_LF in H. apply TrimSpace_no_LF in H.
  cbn [heading_of heading_text heading_anchor heading_renderedLine].
  destruct (strings.TrimSpace t0) as [|x txt] eqn:E; [discriminate|].
  split; [discriminate|]. split; [exact H|].
  split; [reflexivity|]. split; [reflexivity|].
  rewrite I2, I1. apply indexLineOf_bound.
  cbn [no_LF forallb] in H. apply andb_prop in H. destruct H as (H & _).
  apply negb_true_iff in H. exact H.
Qed.

Lemma heading_lines_are_lines_of_the_text_witness :
  indexed two_links
  /\ In (mkHeading (str "Title") (str "title") 0) (headings two_links)
  /\ -1 <= 0 < totalLines two_links.
Proof.
  assert (I : indexed two_links)
    by (unfold indexed; split; [|split; [|split; [|split]]];
        vm_compute; reflexivity).
  assert (H : In (mkHeading (str "Title") (str "title") 0)
                (headings two_links)) by (vm_compute; auto).
  split; [exact I|]. split; [exact H|].
  destruct (heading_lines_are_lines_of_the_text two_links
              (mkHeading (str "Title") (str "title") 0) I H)
    as (_ & _ & _ & _ & B).
  exact B.
Defined.

Lemma indexLineOf_lines rd needle :
  -1 <= indexLineOf (stripANSI rd) needle
     < Z.of_nat (List.length (strings.Split rd LF)).
Proof.
  unfold strings.Split. rewrite Split_from_length.
  assert (EB : Z.of_nat (S (List.length (filter (Ascii.eqb LF) rd)))
               = 1 + bytes_Count rd LF) by (unfold bytes_Count, len; lia).
  rewrite EB. clear EB. pose proof (Count_nonneg rd).
  destruct needle as [|x txt]; [cbn [indexLineOf]; lia|].
  destruct (Index_from_spec (x :: txt) (stripANSI rd) 0)
    as [(_ & N)|(pre & post & E & _ & M)].
  - destruct (indexLineOf_spec (stripANSI rd) (x :: txt)) as (_ & H0 & _).
    rewrite (H0 N). lia.
  - destruct (indexLineOf_spec (stripANSI rd) (x :: txt)) as (_ & _ & H0).
    rewrite (H0 pre post ltac:(discriminate) E M).
    destruct (stripANSI_from_lines rd 0 eq_refl) as (C & _).
    fold (stripANSI rd) in C. rewrite E, !Count_app in C.
    pose proof (Count_nonneg pre). pose proof (Count_nonneg (x :: txt)).
    pose proof (Count_nonneg post). lia.
Qed.

(** X17.  In a model whose indexes are those of its text, the line of every
    link is unresolved or a line of the viewport, and a line of the text
    counted by [totalLines] when the needle has no line feed. *)
Theorem link_lines_are_lines_of_the_viewport (m : model) (l : link) :
  indexed m ->
  In l (links m) ->
  link_needle l <> []
  /\ link_renderedLine l
     = indexLineOf (stripANSI (rendered m)) (link_needle l)
  /\ -1 <= link_renderedLine l < viewport.lines (view m)
  /\ (no_LF (link_needle l) = true -> link_renderedLine l < totalLines m).
Proof.
  intros (I1 & I2 & I3 & _ & I5) H. rewrite I5 in H.
  apply in_map_iff in H. destruct H as ([text dest] & <- & H).
  destruct (reLink_FindAll_sound _ _ _ _ H) as (H1 & H2 & _).
  unfold link_needle. cbn [link_of link_text link_target link_renderedLine].
  set (needle := if strings.HasPrefix dest (str "#") then text else dest).
  assert (Hn : needle <> []) by (unfold needle; destruct (_ : bool); auto).
  split; [exact Hn|]. split; [reflexivity|]. split.
  - rewrite I3. apply indexLineOf_lines.
  - intros Hl. destruct needle as [|x txt]; [contradiction|].
    rewrite I2, I1. apply indexLineOf_bound.
    cbn [no_LF forallb] in Hl. apply andb_prop in Hl. destruct Hl as (Hl & _).
    apply negb_true_iff in Hl. exact Hl.
Qed.

Lemma link_lines_are_lines_of_the_viewport_witness :
  indexed two_links
  /\ In (mkLink (str "here") (str "#title") 2) (links two_links)
  /\ -1 <= 2 < viewport.lines (view two_links).
Proof.
  assert (I : indexed two_links)
    by (unfold indexed; split; [|split; [|split; [|split]]];
        vm_compute; reflexivity).
  assert (H : In (mkLink (str "here") (str "#title") 2) (links two_links))
    by (vm_compute; auto).
  split; [exact I|]. split; [exact H|].
  destruct (link_lines_are_lines_of_the_viewport two_links
              (mkLink (str "here") (str "#title") 2) I H)
    as (_ & _ & B & _).
  exact B.
Defined.

(** ** The progress bar, whatever the ratio *)

Lemma overlay_shape bar : forall start label,
  (start + List.length label <= List.length bar)%nat ->
  overlay bar start label
  = firstn start bar ++ label ++ skipn (start + List.length label) bar.
Proof.
  induction bar as [|r bar IH]; intros start label H.
  - cbn [List.length] in H. destruct start; [|lia].
    destruct label; [reflexivity|cbn [List.length] in H; lia].
  - cbn [overlay]. destruct start as [|k].
    + destruct label as [|x label]; [reflexivity|].
      cbn [List.length] in H. rewrite (IH 0%nat label) by (cbn; lia).
      reflexivity.
    + cbn [List.length] in H. rewrite (IH k label) by lia. reflexivity.
Qed.

Lemma drawProgressBar_empty_label width ratio :
  3 <= width < 2 ^ 63 ->
  drawProgressBar width ratio []
  = Ok (bar_cells width
          (Z.min width
             (Z.max 0
                (float64.to_int
                   (float64.mul (float64.of_int width) ratio))))).
Proof.
  intros Hw. unfold drawProgressBar.
  destruct (Z.ltb_spec width 3); [lia|].
  set (f0 := float64.to_int _) in *.
  set (f1 := if f0 <? 0 then 0 else f0).
  set (f2 := if f1 >? width then width else f1).
  assert (E : f2 = Z.min width (Z.max 0 f0)).
  { unfold f2, f1. destruct (Z.ltb_spec f0 0).
    - destruct (Z.gtb_spec 0 width); lia.
    - destruct (Z.gtb_spec f0 width); lia. }
  rewrite E. clear f1 f2 E. set (fill := Z.min width (Z.max 0 f0)).
  assert (Hf : 0 <= fill <= width) by (unfold fill; lia).
  unfold Repeat. destruct (Z.ltb_spec fill 0); [lia|]. cbn [bind].
  unfold bar_cells. destruct (Z.ltb_spec fill width).
  - unfold GoInt.sub. rewrite wrap_id by lia.
    destruct (Z.ltb_spec (width - fill) 0); [lia|]. reflexivity.
  - replace (width - fill) with 0 by lia. reflexivity.
Qed.

(** X18.  [drawProgressBar] returns a bar of exactly [width] cells for every
    width that is not negative, whatever the ratio, a number or not, and
    whatever the label of ASCII bytes; a label shorter than a bar of three
    cells or more is written whole from cell [(width - len(label)) / 2] on,
    and the cells before and after it are those of the bar. A negative width
    panics. *)
Theorem drawProgressBar_cells
  (width : Z) (ratio : spec_float) (label : gostring) :
  ascii_only label = true ->
  let fill :=
    Z.min width
      (Z.max 0 (float64.to_int (float64.mul (float64.of_int width) ratio))) in
  let start := Z.to_nat ((width - len label) / 2) in
  (0 <= width < 2 ^ 63 ->
   exists bar,
     drawProgressBar width ratio label = Ok bar
     /\ len_runes bar = width
     /\ (3 <= width -> 0 < len label < width ->
         bar = firstn start (bar_cells width fill)
               ++ runes label
               ++ skipn (start + List.length label) (bar_cells width fill))
     /\ (3 <= width -> (len label = 0 \/ width <= len label) ->
         bar = bar_cells width fill))
  /\ (width < 0 -> drawProgressBar width ratio label = Panic).
Proof.
  intros _ fill start. subst start. split.
  - intros Hw. destruct (Z.ltb_spec width 3) as [Hn|Hn].
    { rewrite drawProgressBar_narrow by lia. eexists. split; [reflexivity|].
      split; [unfold len_runes; rewrite repeat_length; lia|].
      split; intros; lia. }
    assert (Hf : 0 <= fill <= width) by (unfold fill; lia).
    destruct (Z.eqb_spec (len label) 0) as [H0|H0].
    { assert (label = []) as ->.
      { destruct label; [reflexivity|]. unfold len in H0.
        cbn [List.length] in H0. lia. }
      rewrite drawProgressBar_empty_label by lia. fold fill.
      eexists. split; [reflexivity|].
      split; [apply bar_cells_length; exact Hf|].
      split; [unfold len; cbn [List.length]; lia|reflexivity]. }
    assert (Hl : 0 < len label) by (unfold len in *; lia).
    pose proof (drawProgressBar_wide width ratio label ltac:(lia) Hl) as E.
    cbv zeta in E. fold fill in E. rewrite E.
    eexists. split; [reflexivity|].
    pose proof (bar_cells_length width fill Hf) as HL.
    destruct (Z.ltb_spec (len label) width) as [Hs|Hs].
    + assert (Hfit : (Z.to_nat ((width - len label) / 2)
                      + List.length (runes label)
                      <= List.length (bar_cells width fill))%nat).
      { unfold len_runes in HL. unfold runes. rewrite length_map.
        unfold len in *.
        assert (0 <= (width - Z.of_nat (List.length label)) / 2
                <= width - Z.of_nat (List.length label)).
        { split; [apply Z.div_pos; lia|apply Z.div_le_upper_bound; lia]. }
        lia. }
      split; [unfold len_runes in *; rewrite overlay_length; exact HL|].
      split; [|intros; lia].
      intros _ _. rewrite (overlay_shape _ _ _ Hfit).
      replace (List.length (runes label)) with (List.length label)
        by (unfold runes; rewrite length_map; reflexivity).
      reflexivity.
    + split; [exact HL|]. split; [intros; lia|reflexivity].
  - intros Hw. unfold drawProgressBar, Repeat.
    destruct (Z.ltb_spec width 3); [|lia].
    destruct (Z.ltb_spec width 0); [reflexivity|lia].
Qed.

Lemma drawProgressBar_cells_witness :
  exists bar,
    drawProgressBar 9 float64.one (str " 1/1 ") = Ok bar
    /\ len_runes bar = 9
    /\ firstn 5 (skipn 2 bar) = runes (str " 1/1 ").
Proof.
  destruct (drawProgressBar_cells 9 float64.one (str " 1/1 ") eq_refl)
    as (H & _).
  destruct H as (bar & E & L & S & _); [lia|].
  exists bar. split; [exact E|]. split; [exact L|].
  rewrite S; [reflexivity|lia|unfold len; cbn; lia].
Defined.

(** ** The selection, once made *)

Lemma Update_keeps_selected render m msg s :
  0 < nlinks m < 2 ^ 62 -> 0 <= linkIndex m < nlinks m ->
  is_resize msg = false ->
  Update render m msg = Ok s ->
  links (next s) = links m /\ 0 <= linkIndex (next s) < nlinks m.
Proof.
  intros HN Hi R E. destruct msg as [w h|k|]; [discriminate| |].
  - destruct (Key_select_dec k) as [[-> | ->] | [H1 H2]].
    + destruct (Update_Tab render m HN (or_intror Hi)) as (s' & E' & I & L & _).
      rewrite E in E'. injection E' as <-. split; [exact L|]. rewrite I.
      destruct (Z.eqb_spec (linkIndex m) (-1)); [lia|].
      apply Z.mod_pos_bound. lia.
    + destruct (Update_ShiftTab render m HN (or_intror Hi))
        as (s' & E' & I & L & _).
      rewrite E in E'. injection E' as <-. split; [exact L|]. rewrite I.
      destruct (Z.eqb_spec (linkIndex m) (-1)); [lia|].
      apply Z.mod_pos_bound. lia.
    + destruct (Update_other_keys render m k s H1 H2 E) as (_ & L & _ & I).
      rewrite L, I. auto.
  - cbn [Update] in E. pose proof (tick_same m) as (_ & L & _ & I).
    destruct (tick m). injection E as <-. cbn [fst next] in *.
    rewrite L, I. auto.
Qed.

(** X19.  With a link selected, Tab followed by Shift-Tab, and Shift-Tab
    followed by Tab, come back to the same link; and no key and no tick ever
    takes the selection away: the index stays an index of the list. *)
Theorem tab_and_shift_tab_are_inverse
  (render : gostring -> Z -> gostring -> gostring + gostring) (m : model) :
  0 < nlinks m < 2 ^ 62 ->
  0 <= linkIndex m < nlinks m ->
  (exists m',
      run render m [KeyMsg KeyTab; KeyMsg KeyShiftTab] = Ok m'
      /\ linkIndex m' = linkIndex m /\ links m' = links m)
  /\ (exists m',
         run render m [KeyMsg KeyShiftTab; KeyMsg KeyTab] = Ok m'
         /\ linkIndex m' = linkIndex m /\ links m' = links m)
  /\ (forall msg s,
         is_resize msg = false -> Update render m msg = Ok s ->
         links (next s) = links m
         /\ 0 <= linkIndex (next s) < nlinks (next s)).
Proof.
  intros HN Hi. split; [|split].
  - destruct (Update_Tab render m HN (or_intror Hi)) as (s1 & E1 & I1 & L1 & _).
    destruct (Z.eqb_spec (linkIndex m) (-1)); [lia|].
    assert (N1 : nlinks (next s1) = nlinks m) by (unfold nlinks; rewrite L1; auto).
    pose proof (Z.mod_pos_bound (linkIndex m + 1) (nlinks m) ltac:(lia)) as B.
    destruct (Update_ShiftTab render (next s1)) as (s2 & E2 & I2 & L2 & _).
    { rewrite N1. exact HN. }
    { right. rewrite N1, I1. exact B. }
    exists (next s2). cbn [run]. rewrite E1. cbn [bind]. rewrite E2.
    cbn [bind]. split; [reflexivity|]. split; [|congruence].
    rewrite I2, N1, I1.
    destruct (Z.eqb_spec ((linkIndex m + 1) mod nlinks m) (-1)); [lia|].
    destruct (Z.eq_dec (linkIndex m + 1) (nlinks m)) as [En|En].
    + rewrite En, Z_mod_same_full.
      replace (0 - 1) with (-1 + 1 * 0) by lia.
      rewrite <- En at 1.
      replace (-1 + 1 * 0) with (linkIndex m + (-1) * (linkIndex m + 1)) by lia.
      rewrite Z_mod_plus_full. apply Z.mod_small. lia.
    + rewrite (Z.mod_small (linkIndex m + 1)) by lia.
      replace (linkIndex m + 1 - 1) with (linkIndex m) by lia.
      apply Z.mod_small. lia.
  - destruct (Update_ShiftTab render m HN (or_intror Hi))
      as (s1 & E1 & I1 & L1 & _).
    destruct (Z.eqb_spec (linkIndex m) (-1)); [lia|].
    assert (N1 : nlinks (next s1) = nlinks m) by (unfold nlinks; rewrite L1; auto).
    pose proof (Z.mod_pos_bound (linkIndex m - 1) (nlinks m) ltac:(lia)) as B.
    destruct (Update_Tab render (next s1)) as (s2 & E2 & I2 & L2 & _).
    { rewrite N1. exact HN. }
    { right. rewrite N1, I1. exact B. }
    exists (next s2). cbn [run]. rewrite E1. cbn [bind]. rewrite E2.
    cbn [bind]. split; [reflexivity|]. split; [|congruence].
    rewrite I2, N1, I1.
    destruct (Z.eqb_spec ((linkIndex m - 1) mod nlinks m) (-1)); [lia|].
    destruct (Z.eq_dec (linkIndex m) 0) as [En|En].
    + rewrite En.
      replace (0 - 1) with (nlinks m - 1 + (-1) * nlinks m) by lia.
      rewrite Z_mod_plus_full, (Z.mod_small (nlinks m - 1)) by lia.
      replace (nlinks m - 1 + 1) with (nlinks m) by lia.
      apply Z_mod_same_full.
    + rewrite (Z.mod_small (linkIndex m - 1)) by lia.
      replace (linkIndex m - 1 + 1) with (linkIndex m) by lia.
      apply Z.mod_small. lia.
  - intros msg s R E.
    destruct (Update_keeps_selected render m msg s HN Hi R E) as (L & I).
    split; [exact L|]. unfold nlinks in *. rewrite L. exact I.
Qed.

Lemma tab_and_shift_tab_are_inverse_witness :
  exists m1,
    Update plain_render two_links (KeyMsg KeyTab) = Ok (mkStep m1 CmdNil None)
    /\ linkIndex m1 = 0
    /\ exists m',
         run plain_render m1 [KeyMsg KeyShiftTab; KeyMsg KeyTab] = Ok m'
         /\ linkIndex m' = 0.
Proof.
  eexists. split; [vm_compute; reflexivity|].
  match goal with |- linkIndex ?x = 0 /\ _ => set (m1 := x) end.
  split; [reflexivity|].
  assert (HN : 0 < nlinks m1 < 2 ^ 62) by (vm_compute; intuition discriminate).
  assert (Hi : 0 <= linkIndex m1 < nlinks m1)
    by (vm_compute; intuition discriminate).
  destruct (tab_and_shift_tab_are_inverse plain_render m1 HN Hi)
    as (_ & (m' & E & I & _) & _).
  exists m'. split; [exact E|exact I].
Defined.

(** ** The model [main] starts with *)

(** X20.  The model the program starts with shows the text from its first
    line, has no link selected and no scroll under way; it has an error
    exactly when the renderer fails, and otherwise the width of the terminal
    and its height less the two lines of header and footer, but at least one
    line. *)
Theorem load_starts_at_the_top
  (render : gostring -> Z -> gostring -> gostring + gostring)
  (raw style : gostring) (wrap w h : Z) :
  (forall wr out,
      render raw wr style = inl out ->
      Z.of_nat (List.length (strings.Split out LF)) < 2 ^ 63) ->
  let m := load render raw style wrap w h in
  offset m = 0
  /\ linkIndex m = -1
  /\ animating m = false /\ targetOffset m = 0
  /\ rawMarkdown m = raw
  /\ (err m = None
      <-> exists out,
            render raw (if wrap <=? 0 then w else wrap) style = inl out)
  /\ (err m = None ->
      viewport.Width (view m) = w /\ height m = Z.max 1 (GoInt.sub h 2)).
Proof.
  intros Hout m. unfold m, load.
  set (m0 := initialModel raw style wrap).
  destruct (render raw (if wrap <=? 0 then w else wrap) style)
    as [out|e] eqn:Er.
  - destruct (recalcRendered_indexed render m0 w h out Er)
      as (R & _ & _ & _ & H & W & Ee & R1 & _).
    destruct (recalcRendered_frame render m0 w h) as (A & T & _).
    split.
    { unfold recalcRendered. cbv zeta.
      change (rawMarkdown m0) with raw. change (wrapWidth m0) with wrap.
      change (theme m0) with style. rewrite Er.
      unfold buildIndexes, offset. cbv zeta.
      cbn [view set_indexes set_view set_rendered rendered].
      apply SetContent_at_top; [|apply (Hout _ _ Er)].
      destruct (_ || _); reflexivity. }
    split.
    { unfold recalcRendered. cbv zeta.
      change (rawMarkdown m0) with raw. change (wrapWidth m0) with wrap.
      change (theme m0) with style. rewrite Er.
      unfold buildIndexes. cbv zeta. cbn [linkIndex set_indexes].
      match goal with
      | |- (if ?b then _ else _) = _ => destruct b; [reflexivity|]
      end.
      cbn [linkIndex set_view set_rendered m0 initialModel].
      match goal with
      | |- (if ?a >=? ?b then _ else _) = _ => destruct (Z.geb_spec a b)
      end; [lia|reflexivity]. }
    split; [exact A|]. split; [exact T|]. split; [exact R1|].
    split; [split; [intros _; exists out; reflexivity|intros _; exact Ee]|].
    intros _. split; [exact W|exact H].
  - assert (E : recalcRendered render m0 w h = set_err m0 e).
    { unfold recalcRendered. cbv zeta.
      change (rawMarkdown m0) with raw. change (wrapWidth m0) with wrap.
      change (theme m0) with style. rewrite Er. reflexivity. }
    rewrite E. split; [reflexivity|]. split; [reflexivity|].
    split; [reflexivity|]. split; [reflexivity|]. split; [reflexivity|].
    split; [split; [discriminate|intros (out & [=])]|discriminate].
Qed.

Lemma load_starts_at_the_top_witness :
  offset two_links = 0 /\ linkIndex two_links = -1
  /\ animating two_links = false.
Proof.
  assert (H : forall wr out,
             plain_render (rawMarkdown two_links) wr (theme two_links)
             = inl out ->
             Z.of_nat (List.length (strings.Split out LF)) < 2 ^ 63).
  { intros wr out [= <-]. vm_compute. reflexivity. }
  destruct (load_starts_at_the_top plain_render (rawMarkdown two_links)
              (theme two_links) (wrapWidth two_links) 80 24 H)
    as (O & I & A & _).
  split; [exact O|]. split; [exact I|exact A].
Defined.
